(** * IMDBx: a shallow embedding of the fetch / render / extract pipeline

    The development follows the Python package module by module:

    - [Py]      the fragment of Python's [str], [int] and exceptions the
                package relies on;
    - [Re]      the fragment of the [re] module its patterns use (a
                backtracking matcher with Python's priorities);
    - [Soup]    the BeautifulSoup document tree and its queries;
    - [Models]  [imdbx/models.py] and the JSON view used by [save]/[load];
    - [Parse]   [imdbx/_parse.py];
    - [Http]    [imdbx/_http.py];
    - [Browser] [imdbx/_browser.py].

    Modelling conventions.  A Python [str] is a list of Unicode code points
    ([N]).  The character classes ([str.isspace], [str.isdigit], [\d], [\w],
    [str.lower]) are those of CPython for U+0000..U+00FF, extended with the
    Unicode white-space characters; letters and digits of other scripts are
    in no class.  Python integers are unbounded ([Z]); interpreter resource
    limits are outside the model.  An operation that can raise returns an
    [exc] value. *)

From Stdlib Require Import ZArith NArith Lia Ascii String List.
From stdpp Require Import base option list gmap sorting.

Local Open Scope N_scope.
Set Warnings "-register-all".

(* ====================================================================== *)
(** * Python strings, integers and exceptions                              *)
(* ====================================================================== *)

Module Py.

Abbreviation pychar := N.
Abbreviation pystr := (list N).

(** [u "abc"] is the Python literal ["abc"] (ASCII text only). *)
Definition u (s : string) : pystr := N_of_ascii <$> list_ascii_of_string s.

Definition in_range (lo hi c : N) : bool := (lo <=? c) && (c <=? hi).

(** [str.isspace] on one character, also the class [\s] of [re]. *)
Definition isspace (c : pychar) : bool :=
  in_range 9 13 c || in_range 28 32 c || (c =? 133) || (c =? 160)
  || (c =? 5760) || in_range 8192 8202 c || (c =? 8232) || (c =? 8233)
  || (c =? 8239) || (c =? 8287) || (c =? 12288).

(** Decimal digits (category Nd): what [int] reads and [\d] matches. *)
Definition isdecimal (c : pychar) : bool := in_range 48 57 c.

(** [str.isdigit] on one character: the decimal digits and the superscript
    digits U+00B2, U+00B3, U+00B9, which [int] does not read. *)
Definition isdigit_chr (c : pychar) : bool :=
  isdecimal c || (c =? 178) || (c =? 179) || (c =? 185).

Definition isalpha (c : pychar) : bool :=
  in_range 65 90 c || in_range 97 122 c || (c =? 170) || (c =? 181)
  || (c =? 186) || in_range 192 214 c || in_range 216 246 c
  || in_range 248 255 c.

(** The class [\w]: alphanumeric characters and the underscore. *)
Definition isword (c : pychar) : bool :=
  isalpha c || isdigit_chr c || in_range 188 190 c || (c =? 95).

Definition lower_chr (c : pychar) : pychar :=
  if in_range 65 90 c || (in_range 192 222 c && negb (c =? 215))
  then c + 32 else c.

Definition lower (s : pystr) : pystr := lower_chr <$> s.

Fixpoint lstrip (s : pystr) : pystr :=
  match s with
  | c :: s' => if isspace c then lstrip s' else s
  | [] => []
  end.

Definition rstrip (s : pystr) : pystr := reverse (lstrip (reverse s)).

Definition strip (s : pystr) : pystr := rstrip (lstrip s).

Fixpoint str_eqb (a b : pystr) : bool :=
  match a, b with
  | [], [] => true
  | x :: a', y :: b' => (x =? y) && str_eqb a' b'
  | _, _ => false
  end.

Fixpoint startswith (s p : pystr) : bool :=
  match p, s with
  | [], _ => true
  | x :: p', y :: s' => (x =? y) && startswith s' p'
  | _ :: _, [] => false
  end.

Definition endswith (s p : pystr) : bool := startswith (reverse s) (reverse p).

(** [p in s] for strings. *)
Fixpoint contains (s p : pystr) : bool :=
  startswith s p || match s with
                    | [] => false
                    | _ :: s' => contains s' p
                    end.

(** Lexicographic order on strings by code point, as [<] on [str]. *)
Fixpoint str_ltb (a b : pystr) : bool :=
  match a, b with
  | _, [] => false
  | [], _ :: _ => true
  | x :: a', y :: b' => (x <? y) || ((x =? y) && str_ltb a' b')
  end.

(** [sep.join(l)]. *)
Fixpoint join (sep : pystr) (l : list pystr) : pystr :=
  match l with
  | [] => []
  | [x] => x
  | x :: l' => x ++ sep ++ join sep l'
  end.

(** Truthiness of a string or a list, and of an optional object. *)
Definition nonempty {A} (s : list A) : bool :=
  match s with [] => false | _ => true end.

Definition truthy {A} (o : option A) : bool :=
  match o with Some _ => true | None => false end.

(** Exceptions of the modelled fragment. *)
Inductive pyerr := ValueError | KeyError | IndexError | AttributeError.

Inductive exc (A : Type) : Type :=
| Ok (a : A)
| Raise (e : pyerr).
Arguments Ok {A} a.
Arguments Raise {A} e.

Definition exc_bind {A B} (m : exc A) (f : A → exc B) : exc B :=
  match m with
  | Ok a => f a
  | Raise e => Raise e
  end.

#[global] Instance exc_ret : MRet exc := λ A a, Ok a.
#[global] Instance exc_mbind : MBind exc := λ A B f m, exc_bind m f.
#[global] Instance exc_fmap : FMap exc := λ A B f m, exc_bind m (λ a, Ok (f a)).

(** [try: body except ValueError: handler]. *)
Definition catch_ValueError {A} (body : exc A) (handler : exc A) : exc A :=
  match body with
  | Raise ValueError => handler
  | r => r
  end.

(** Monadic map over a list, left to right (a [for] loop that builds a list). *)
Fixpoint mapE {A B} (f : A → exc B) (l : list A) : exc (list B) :=
  match l with
  | [] => Ok []
  | x :: l' => y ← f x; ys ← mapE f l'; Ok (y :: ys)
  end.

(** [d[key]] on an association list. *)
Fixpoint assoc {V} (k : pystr) (d : list (pystr * V)) : option V :=
  match d with
  | [] => None
  | (k', v) :: d' => if str_eqb k k' then Some v else assoc k d'
  end.

Definition subscript {V} (d : list (pystr * V)) (k : pystr) : exc V :=
  match assoc k d with
  | Some v => Ok v
  | None => Raise KeyError
  end.

(** [l[0]]. *)
Definition first_item {A} (l : list A) : exc A :=
  match l with
  | x :: _ => Ok x
  | [] => Raise IndexError
  end.

(** [l[i]] and [l[-1]]. *)
Definition item {A} (l : list A) (i : nat) : exc A :=
  match l !! i with
  | Some x => Ok x
  | None => Raise IndexError
  end.

Definition last_item {A} (l : list A) : exc A :=
  match last l with
  | Some x => Ok x
  | None => Raise IndexError
  end.

(** ** [int(s)] and [str(n)] *)

Definition digit_val (c : pychar) : Z := Z.of_N (c - 48).

(** The digits of a literal, most significant first; underscores may stand
    between two digits. *)
Fixpoint digits_val (acc : Z) (prev_digit : bool) (s : pystr) : option Z :=
  match s with
  | [] => if prev_digit then Some acc else None
  | c :: s' =>
      if isdecimal c then digits_val (10 * acc + digit_val c)%Z true s'
      else if (c =? 95) && prev_digit then
             match s' with
             | d :: _ => if isdecimal d then digits_val acc false s' else None
             | [] => None
             end
           else None
  end.

Definition int_of_str (s : pystr) : exc Z :=
  let t := strip s in
  let '(neg, body) :=
    match t with
    | c :: b => if c =? 45 then (true, b)
                else if c =? 43 then (false, b) else (false, t)
    | [] => (false, t)
    end in
  match digits_val 0%Z false body with
  | Some n => Ok (if neg then (- n)%Z else n)
  | None => Raise ValueError
  end.

Definition digit_chr (d : N) : pychar := 48 + d.

(** Decimal digits of a positive number, by repeated division. *)
Fixpoint digits_of (fuel : nat) (n : N) (acc : pystr) : pystr :=
  match fuel with
  | O => acc
  | S fuel' =>
      if n <? 10 then digit_chr n :: acc
      else digits_of fuel' (n / 10) (digit_chr (n mod 10) :: acc)
  end.

Definition str_of_N (n : N) : pystr := digits_of (S (N.to_nat (N.log2 n))) n [].

Definition str_of_int (z : Z) : pystr :=
  match z with
  | Zneg p => 45 :: str_of_N (Npos p)
  | _ => str_of_N (Z.to_N z)
  end.

(** [s.isdigit()]. *)
Definition isdigit (s : pystr) : bool :=
  nonempty s && forallb isdigit_chr s.

Fixpoint take_while {A} (p : A → bool) (l : list A) : list A :=
  match l with
  | x :: l' => if p x then x :: take_while p l' else []
  | [] => []
  end.

Fixpoint drop_while {A} (p : A → bool) (l : list A) : list A :=
  match l with
  | x :: l' => if p x then drop_while p l' else l
  | [] => []
  end.

(** [s.rsplit(None, 1)]: split once at the last run of white space. *)
Definition rsplit1 (s : pystr) : list pystr :=
  let r := lstrip (reverse s) in
  match r with
  | [] => []
  | _ =>
      let word := reverse (take_while (λ c, negb (isspace c)) r) in
      let left := reverse (lstrip (drop_while (λ c, negb (isspace c)) r)) in
      match left with
      | [] => [word]
      | _ => [left; word]
      end
  end.

End Py.
Export Py.

(* ====================================================================== *)
(** * The [re] module                                                      *)
(* ====================================================================== *)

(** A backtracking matcher with the priorities of CPython's engine: the
    leftmost match, the first alternative that lets the rest succeed, greedy
    repeats longest-first and lazy repeats shortest-first.  The package only
    repeats single characters and character classes, so [Rep] ranges over a
    class; none of its patterns used with [findall], [sub] or [split] can
    match the empty string. *)

Module Re.

(** Character classes. *)
Inductive cls :=
| CChr (c : pychar)          (* a literal character *)
| CRng (lo hi : pychar)      (* [lo-hi] *)
| CSpace                     (* \s *)
| CDigit                     (* \d *)
| CWord                      (* \w *)
| CDot                       (* . *)
| CNot (c : cls)             (* [^...] *)
| COr (a b : cls).           (* [ab] *)

Inductive regex :=
| Eps
| One (c : cls)
| Seq (a b : regex)
| Alt (a b : regex)
| Rep (greedy : bool) (lo : nat) (hi : option nat) (c : cls)
| Grp (i : nat) (a : regex)  (* the i-th capturing group *)
| Bol                        (* ^ *)
| Eol                        (* $ *)
| Wb                         (* \b *)
| Ahead (a : regex).         (* (?=a) *)

(** [ic] is the flag [re.I]. *)
Fixpoint cls_match (ic : bool) (cl : cls) (c : pychar) : bool :=
  match cl with
  | CChr a => if ic then lower_chr c =? lower_chr a else c =? a
  | CRng lo hi => in_range lo hi c
  | CSpace => isspace c
  | CDigit => isdecimal c
  | CWord => isword c
  | CDot => negb (c =? 10)
  | CNot a => negb (cls_match ic a c)
  | COr a b => cls_match ic a c || cls_match ic b c
  end.

(** The matcher's position: the offset, the character before it, the rest
    of the subject and the groups captured so far. *)
Record mstate := MState {
  m_pos : nat;
  m_prev : option pychar;
  m_rest : pystr;
  m_caps : list (nat * pystr)
}.

Definition at_eol (s : pystr) : bool :=
  match s with
  | [] | [10] => true
  | _ => false
  end.

Definition is_word_opt (c : option pychar) : bool :=
  match c with
  | Some x => isword x
  | None => false
  end.

Definition at_wb (st : mstate) : bool :=
  xorb (is_word_opt (m_prev st)) (is_word_opt (head (m_rest st))).

(** [c{lo,hi}] followed by the continuation [k]; [cnt] characters of the
    repeat are already consumed. *)
Fixpoint rep (ic greedy : bool) (c : cls) (lo : nat) (hi : option nat)
    (k : mstate → option mstate) (caps : list (nat * pystr))
    (cnt pos : nat) (prev : option pychar) (s : pystr) : option mstate :=
  let stop (_ : unit) :=
    if (lo <=? cnt)%nat then k (MState pos prev s caps) else None in
  let room := match hi with Some h => (cnt <? h)%nat | None => true end in
  match s with
  | x :: s' =>
      if cls_match ic c x && room then
        if greedy then
          match rep ic greedy c lo hi k caps (S cnt) (S pos) (Some x) s' with
          | Some r => Some r
          | None => stop ()
          end
        else
          match stop () with
          | Some r => Some r
          | None => rep ic greedy c lo hi k caps (S cnt) (S pos) (Some x) s'
          end
      else stop ()
  | [] => stop ()
  end.

Fixpoint rx (ic : bool) (r : regex) (st : mstate)
    (k : mstate → option mstate) : option mstate :=
  match r with
  | Eps => k st
  | One c =>
      match m_rest st with
      | x :: s' =>
          if cls_match ic c x
          then k (MState (S (m_pos st)) (Some x) s' (m_caps st))
          else None
      | [] => None
      end
  | Seq a b => rx ic a st (λ st', rx ic b st' k)
  | Alt a b =>
      match rx ic a st k with
      | Some res => Some res
      | None => rx ic b st k
      end
  | Rep g lo hi c =>
      rep ic g c lo hi k (m_caps st) 0 (m_pos st) (m_prev st) (m_rest st)
  | Grp i a =>
      rx ic a st (λ st',
        k (MState (m_pos st') (m_prev st') (m_rest st')
             ((i, take (m_pos st' - m_pos st) (m_rest st)) :: m_caps st')))
  | Bol => if (m_pos st =? 0)%nat then k st else None
  | Eol => if at_eol (m_rest st) then k st else None
  | Wb => if at_wb st then k st else None
  | Ahead a =>
      match rx ic a st Some with
      | Some _ => k st
      | None => None
      end
  end.

(** A compiled pattern. *)
Record pattern := Pattern { p_rx : regex; p_ic : bool }.

(** A match object: where it starts, where it ends, its groups. *)
Record match_obj := Match { m_start : nat; m_end : mstate }.

Fixpoint cap_lookup (i : nat) (caps : list (nat * pystr)) : option pystr :=
  match caps with
  | [] => None
  | (j, s) :: caps' => if (i =? j)%nat then Some s else cap_lookup i caps'
  end.

(** [m.group(i)] for a group that took part in the match. *)
Definition group (i : nat) (m : match_obj) : pystr :=
  default [] (cap_lookup i (m_caps (m_end m))).

(** The first match at or after the current position. *)
Fixpoint search_from (p : pattern) (pos : nat) (prev : option pychar)
    (s : pystr) : option match_obj :=
  match rx (p_ic p) (p_rx p) (MState pos prev s []) Some with
  | Some st' => Some (Match pos st')
  | None =>
      match s with
      | [] => None
      | c :: s' => search_from p (S pos) (Some c) s'
      end
  end.

(** [re.match]: a match at the start of the string. *)
Definition re_match (p : pattern) (s : pystr) : option match_obj :=
  Match 0 <$> rx (p_ic p) (p_rx p) (MState 0 None s []) Some.

(** [re.search]. *)
Definition re_search (p : pattern) (s : pystr) : option match_obj :=
  search_from p 0 None s.

Definition matches (p : pattern) (s : pystr) : bool :=
  truthy (re_search p s).

(** The successive non-overlapping matches, left to right. *)
Fixpoint finditer_from (p : pattern) (fuel pos : nat) (prev : option pychar)
    (s : pystr) : list match_obj :=
  match fuel with
  | O => []
  | S fuel' =>
      match search_from p pos prev s with
      | None => []
      | Some m =>
          let e := m_end m in
          if (m_pos e =? m_start m)%nat then
            m :: match m_rest e with
                 | [] => []
                 | c :: s' => finditer_from p fuel' (S (m_pos e)) (Some c) s'
                 end
          else m :: finditer_from p fuel' (m_pos e) (m_prev e) (m_rest e)
      end
  end.

Definition finditer (p : pattern) (s : pystr) : list match_obj :=
  finditer_from p (S (length s)) 0 None s.

(** [re.findall] for a pattern with one group: the group of each match. *)
Definition findall1 (p : pattern) (s : pystr) : list pystr :=
  group 1 <$> finditer p s.

(** The pieces of [s] between the matches [ms], [pos] being the offset of
    [s] in the subject. *)
Fixpoint pieces (ms : list match_obj) (pos : nat) (s : pystr) : list pystr :=
  match ms with
  | [] => [s]
  | m :: ms' =>
      take (m_start m - pos) s
      :: pieces ms' (m_pos (m_end m)) (drop (m_pos (m_end m) - pos) s)
  end.

(** [re.split(p, s)] for a pattern without groups. *)
Definition re_split (p : pattern) (s : pystr) : list pystr :=
  pieces (finditer p s) 0 s.

(** [re.split(p, s, maxsplit=1)]. *)
Definition re_split1 (p : pattern) (s : pystr) : list pystr :=
  pieces (take 1 (finditer p s)) 0 s.

(** [re.sub(p, "", s)]. *)
Definition re_delete (p : pattern) (s : pystr) : pystr :=
  concat (re_split p s).

(** ** Pattern syntax helpers *)

Definition lit (s : string) : regex :=
  foldr (λ c r, Seq (One (CChr c)) r) Eps (u s).

Definition c_ (a : ascii) : cls := CChr (N_of_ascii a).

Definition cset (l : list cls) : cls :=
  match l with
  | [] => CNot CDot
  | c :: l' => foldl COr c l'
  end.

Definition rseq (l : list regex) : regex := foldr Seq Eps l.

Definition ralt (l : list regex) : regex :=
  match l with
  | [] => One (CNot (COr CDot (CChr 10)))
  | r :: l' => foldl Alt r l'
  end.

Definition rstar (c : cls) : regex := Rep true 0 None c.
Definition rplus (c : cls) : regex := Rep true 1 None c.
Definition ropt (c : cls) : regex := Rep true 0 (Some 1%nat) c.
Definition rexactly (n : nat) (c : cls) : regex := Rep true n (Some n) c.

End Re.
Export Re.

(* ====================================================================== *)
(** * The document tree (BeautifulSoup with [html.parser])                 *)
(* ====================================================================== *)

Module Soup.

(** An element carries its name, its attributes as written and its
    children; the document itself is an element.  Only elements and text
    nodes are modelled. *)
Inductive node :=
| Text (s : pystr)
| Tag (name : pystr) (attrs : list (pystr * pystr)) (children : list node).

Definition is_tag (n : node) : bool :=
  match n with Tag _ _ _ => true | Text _ => false end.

Definition tag_name (n : node) : pystr :=
  match n with Tag nm _ _ => nm | Text _ => [] end.

Definition tag_attrs (n : node) : list (pystr * pystr) :=
  match n with Tag _ a _ => a | Text _ => [] end.

(** [tag.get(key)]. *)
Definition get (n : node) (key : string) : option pystr :=
  assoc (u key) (tag_attrs n).

(** [tag.get(key, "")]. *)
Definition get_or_empty (n : node) (key : string) : pystr :=
  default [] (get n key).

(** [tag[key]]. *)
Definition getitem (n : node) (key : string) : exc pystr :=
  subscript (tag_attrs n) (u key).

(** Every node below [n] in document order, each with its ancestors,
    the parent first. *)
Fixpoint walk (anc : list node) (n : node) : list (list node * node) :=
  match n with
  | Text _ => []
  | Tag _ _ cs =>
      (fix go (l : list node) : list (list node * node) :=
         match l with
         | [] => []
         | c :: l' => (n :: anc, c) :: walk (n :: anc) c ++ go l'
         end) cs
  end.

Definition descendants (n : node) : list node := snd <$> walk [] n.

(** [n.find_all(...)] with the filter [f]: the matching elements below [n]. *)
Definition find_all (f : node → bool) (n : node) : list node :=
  filter (λ d, is_tag d && f d) (descendants n).

(** [n.find(...)]. *)
Definition find (f : node → bool) (n : node) : option node :=
  head (find_all f n).

(** [n.find(...)] together with the [.parent] of the result. *)
Definition find_with_parent (f : node → bool) (n : node)
    : option (node * option node) :=
  (λ p, (snd p, head (fst p)))
    <$> head (filter (λ p, is_tag (snd p) && f (snd p)) (walk [] n)).

(** Filters: a tag name among [names]; [attrs={key: value}];
    [attrs={key: True}]; [attrs={key: re.compile(p)}]. *)
Definition named (names : list string) (n : node) : bool :=
  existsb (λ nm, str_eqb (tag_name n) (u nm)) names.

Definition attr_is (key value : string) (n : node) : bool :=
  match get n key with
  | Some v => str_eqb v (u value)
  | None => false
  end.

Definition attr_present (key : string) (n : node) : bool :=
  truthy (get n key).

Definition attr_matches (key : string) (p : pattern) (n : node) : bool :=
  match get n key with
  | Some v => matches p v
  | None => false
  end.

(** The text nodes below [n], in document order. *)
Definition strings (n : node) : list pystr :=
  omap (λ d, match d with Text s => Some s | Tag _ _ _ => None end)
       (descendants n).

(** [n.get_text(sep)] and [n.get_text(sep, strip=True)]. *)
Definition get_text (sep : string) (n : node) : pystr :=
  join (u sep) (strings n).

Definition get_text_strip (sep : string) (n : node) : pystr :=
  join (u sep) (filter (λ s, nonempty s) (strip <$> strings n)).

(** [soup.select("select option")]: the [option] elements below a
    [select] element. *)
Definition select_option (n : node) : list node :=
  snd <$> filter (λ p, is_tag (snd p) && named ["option"%string] (snd p)
                       && existsb (named ["select"%string]) (fst p))
                 (walk [] n).

(** [" ".join(tag.get("class", []))]: the class attribute is kept as the
    list of its white-space separated words. *)
Fixpoint words_from (fuel : nat) (s : pystr) : list pystr :=
  match fuel with
  | O => []
  | S fuel' =>
      match lstrip s with
      | [] => []
      | t => take_while (λ c, negb (isspace c)) t
             :: words_from fuel' (drop_while (λ c, negb (isspace c)) t)
      end
  end.

Definition class_string (n : node) : pystr :=
  match get n "class" with
  | Some v => join (u " ") (words_from (length v) v)
  | None => []
  end.

(** Document literals: an element and a text node from ASCII text. *)
Definition elem (name : string) (attrs : list (string * string))
    (children : list node) : node :=
  Tag (u name) ((λ kv, (u (fst kv), u (snd kv))) <$> attrs) children.

Definition txt (s : string) : node := Text (u s).

(** The document object with the given top-level nodes. *)
Definition document (children : list node) : node :=
  Tag (u "[document]") [] children.

End Soup.
Export Soup.

(* ====================================================================== *)
(** * [imdbx/models.py]                                                    *)
(* ====================================================================== *)

Module Models.

Record Episode := mkEpisode {
  episode_code : pystr;
  title : pystr;
  season : Z;
  episode : Z;
  air_date : pystr;
  description : pystr;
  rating : pystr;
  cover_image : option pystr;
  cover_image_local : option pystr;
  imdb_url : pystr
}.

Record SeriesMetadata := mkSeriesMetadata {
  title_id : pystr;
  series_name : pystr;
  type : option pystr;
  years : option pystr;
  content_rating : option pystr;
  episode_duration : option pystr;
  imdb_rating : option pystr;
  rating_count : option pystr;
  popularity : option pystr;
  tags : list pystr
}.

(** [SeriesMetadata(title_id=..., series_name=...)]: the other fields at
    their declared defaults. *)
Definition SeriesMetadata_new (tid name : pystr) : SeriesMetadata :=
  mkSeriesMetadata tid name None None None None None None None [].

(** Assignments to the fields of a [SeriesMetadata]. *)
Definition set_series_name (v : pystr) (m : SeriesMetadata) :=
  mkSeriesMetadata (title_id m) v (type m) (years m) (content_rating m)
    (episode_duration m) (imdb_rating m) (rating_count m) (popularity m) (tags m).
Definition set_type (v : pystr) (m : SeriesMetadata) :=
  mkSeriesMetadata (title_id m) (series_name m) (Some v) (years m)
    (content_rating m) (episode_duration m) (imdb_rating m) (rating_count m)
    (popularity m) (tags m).
Definition set_years (v : pystr) (m : SeriesMetadata) :=
  mkSeriesMetadata (title_id m) (series_name m) (type m) (Some v)
    (content_rating m) (episode_duration m) (imdb_rating m) (rating_count m)
    (popularity m) (tags m).
Definition set_content_rating (v : pystr) (m : SeriesMetadata) :=
  mkSeriesMetadata (title_id m) (series_name m) (type m) (years m) (Some v)
    (episode_duration m) (imdb_rating m) (rating_count m) (popularity m) (tags m).
Definition set_episode_duration (v : pystr) (m : SeriesMetadata) :=
  mkSeriesMetadata (title_id m) (series_name m) (type m) (years m)
    (content_rating m) (Some v) (imdb_rating m) (rating_count m)
    (popularity m) (tags m).
Definition set_imdb_rating (v : pystr) (m : SeriesMetadata) :=
  mkSeriesMetadata (title_id m) (series_name m) (type m) (years m)
    (content_rating m) (episode_duration m) (Some v) (rating_count m)
    (popularity m) (tags m).
Definition set_rating_count (v : pystr) (m : SeriesMetadata) :=
  mkSeriesMetadata (title_id m) (series_name m) (type m) (years m)
    (content_rating m) (episode_duration m) (imdb_rating m) (Some v)
    (popularity m) (tags m).
Definition set_popularity (v : pystr) (m : SeriesMetadata) :=
  mkSeriesMetadata (title_id m) (series_name m) (type m) (years m)
    (content_rating m) (episode_duration m) (imdb_rating m) (rating_count m)
    (Some v) (tags m).
Definition set_tags (v : list pystr) (m : SeriesMetadata) :=
  mkSeriesMetadata (title_id m) (series_name m) (type m) (years m)
    (content_rating m) (episode_duration m) (imdb_rating m) (rating_count m)
    (popularity m) v.

Record TitleInfo := mkTitleInfo {
  meta : SeriesMetadata;
  seasons : gmap Z (list Episode)
}.

(** [TitleInfo.get_episode]. *)
Definition get_episode (t : TitleInfo) (s e : Z) : option Episode :=
  head (filter (λ ep, bool_decide (episode ep = e))
               (default [] (seasons t !! s))).

(** ** The JSON documents [save] writes and [load] reads *)

Inductive json :=
| JNull
| JStr (s : pystr)
| JInt (z : Z)
| JArr (l : list json)
| JObj (d : list (pystr * json)).

Definition json_opt (o : option pystr) : json :=
  match o with
  | Some s => JStr s
  | None => JNull
  end.

(** [Episode.to_dict] ([dataclasses.asdict]). *)
Definition Episode_to_dict (ep : Episode) : json :=
  JObj [ (u "episode_code", JStr (episode_code ep));
         (u "title", JStr (title ep));
         (u "season", JInt (season ep));
         (u "episode", JInt (episode ep));
         (u "air_date", JStr (air_date ep));
         (u "description", JStr (description ep));
         (u "rating", JStr (rating ep));
         (u "cover_image", json_opt (cover_image ep));
         (u "cover_image_local", json_opt (cover_image_local ep));
         (u "imdb_url", JStr (imdb_url ep)) ].

(** [SeriesMetadata.to_dict], as its list of items. *)
Definition SeriesMetadata_to_dict (m : SeriesMetadata) : list (pystr * json) :=
  [ (u "title_id", JStr (title_id m));
    (u "series_name", JStr (series_name m));
    (u "type", json_opt (type m));
    (u "years", json_opt (years m));
    (u "content_rating", json_opt (content_rating m));
    (u "episode_duration", json_opt (episode_duration m));
    (u "imdb_rating", json_opt (imdb_rating m));
    (u "rating_count", json_opt (rating_count m));
    (u "popularity", json_opt (popularity m));
    (u "tags", JArr (JStr <$> tags m)) ].

(** [{**d, key: value}]: the key keeps its place when [d] has it. *)
Fixpoint dict_set {V} (d : list (pystr * V)) (k : pystr) (v : V)
    : list (pystr * V) :=
  match d with
  | [] => [(k, v)]
  | (k', v') :: d' =>
      if str_eqb k k' then (k, v) :: d' else (k', v') :: dict_set d' k v
  end.

(** [TitleInfo.to_dict]. *)
Definition to_dict (t : TitleInfo) : json :=
  JObj (dict_set (SeriesMetadata_to_dict (meta t)) (u "seasons")
          (JObj ((λ kv, (str_of_int (fst kv), JArr (Episode_to_dict <$> snd kv)))
                   <$> map_to_list (seasons t)))).

(** The file system as far as [save] and [load] see it: the JSON document
    each path holds.  [json.dumps] and [json.loads] are inverse to each
    other on these documents, so the text between them is not modelled. *)
Abbreviation files := (gmap pystr json).


(** ** [load] ([imdbx/__init__.py])

    [load] does not check what it reads.  The readers below give back the
    value under a key when it has the type the dataclass field declares;
    the result of [load] is [None] when the document has a value of
    another type, or when [load] raises. *)

Definition read_str (d : list (pystr * json)) (key : string) (dflt : pystr)
    : option pystr :=
  match assoc (u key) d with
  | None => Some dflt
  | Some (JStr s) => Some s
  | Some _ => None
  end.

Definition read_opt_str (d : list (pystr * json)) (key : string)
    : option (option pystr) :=
  match assoc (u key) d with
  | None | Some JNull => Some None
  | Some (JStr s) => Some (Some s)
  | Some _ => None
  end.

Definition read_int (d : list (pystr * json)) (key : string) (dflt : Z)
    : option Z :=
  match assoc (u key) d with
  | None => Some dflt
  | Some (JInt z) => Some z
  | Some _ => None
  end.

Definition read_str_list (d : list (pystr * json)) (key : string)
    : option (list pystr) :=
  match assoc (u key) d with
  | None => Some []
  | Some (JArr l) =>
      mapM (M:=option) (λ v, match v with JStr s => Some s | _ => None end) l
  | Some _ => None
  end.

Definition load_episode (ep : json) : option Episode :=
  match ep with
  | JObj d =>
      episode_code ← read_str d "episode_code" [];
      title ← read_str d "title" [];
      season ← read_int d "season" 0;
      episode ← read_int d "episode" 0;
      air_date ← read_str d "air_date" [];
      description ← read_str d "description" [];
      rating ← read_str d "rating" (u "N/A");
      cover_image ← read_opt_str d "cover_image";
      cover_image_local ← read_opt_str d "cover_image_local";
      imdb_url ← read_str d "imdb_url" [];
      Some (mkEpisode episode_code title season episode air_date description
                      rating cover_image cover_image_local imdb_url)
  | _ => None
  end.

Definition load_meta (d : list (pystr * json)) : option SeriesMetadata :=
  title_id ← read_str d "title_id" [];
  series_name ← read_str d "series_name" [];
  type ← read_opt_str d "type";
  years ← read_opt_str d "years";
  content_rating ← read_opt_str d "content_rating";
  episode_duration ← read_opt_str d "episode_duration";
  imdb_rating ← read_opt_str d "imdb_rating";
  rating_count ← read_opt_str d "rating_count";
  popularity ← read_opt_str d "popularity";
  tags ← read_str_list d "tags";
  Some (mkSeriesMetadata title_id series_name type years content_rating
                         episode_duration imdb_rating rating_count popularity
                         tags).

(** The body of the loop over [data.get("seasons", {}).items()]. *)
Definition load_season (acc : option (gmap Z (list Episode)))
    (item : pystr * json) : option (gmap Z (list Episode)) :=
  seasons ← acc;
  match int_of_str (fst item), snd item with
  | Ok n, JArr eps =>
      episodes ← mapM (M:=option) load_episode eps;
      Some (<[n := episodes]> seasons)
  | _, _ => None
  end.

Definition load_json (data : json) : option TitleInfo :=
  match data with
  | JObj d =>
      meta ← load_meta d;
      items ← match assoc (u "seasons") d with
              | None => Some []
              | Some (JObj items) => Some items
              | Some _ => None
              end;
      seasons ← foldl load_season (Some ∅) items;
      Some (mkTitleInfo meta seasons)
  | _ => None
  end.

(** [load(path)]; a missing file raises [FileNotFoundError]. *)
Definition load (path : pystr) (fs : files) : option TitleInfo :=
  fs !! path ≫= load_json.

End Models.
Export Models.

(* ====================================================================== *)
(** * [imdbx/_parse.py]                                                    *)
(* ====================================================================== *)

Module Parse.

Definition BASE_URL : pystr := u "https://www.imdb.com".

(** ** The patterns of the module, in the order of their first use *)

(** [\s*-\s*IMDBx\s*$], [re.I] *)
Definition RE_SITE_SUFFIX : pattern :=
  Pattern (rseq [rstar CSpace; lit "-"; rstar CSpace; lit "IMDBx";
                 rstar CSpace; Eol]) true.

(** [\s*\(\d{4}.*?\)\s*$] *)
Definition RE_YEAR_SUFFIX : pattern :=
  Pattern (rseq [rstar CSpace; lit "("; rexactly 4 CDigit;
                 Rep false 0 None CDot; lit ")"; rstar CSpace; Eol]) false.

(** [TV-(G|PG|14|MA)|^(G|PG|PG-13|R|NC-17)$], [re.I] *)
Definition RE_CONTENT_RATING : pattern :=
  Pattern (Alt (Seq (lit "TV-")
                    (Grp 1 (ralt [lit "G"; lit "PG"; lit "14"; lit "MA"])))
               (rseq [Bol;
                      Grp 2 (ralt [lit "G"; lit "PG"; lit "PG-13"; lit "R";
                                   lit "NC-17"]);
                      Eol])) true.

(** [TV\s|Movie|Short|Special|Mini], [re.I] *)
Definition RE_KIND : pattern :=
  Pattern (ralt [Seq (lit "TV") (One CSpace); lit "Movie"; lit "Short";
                 lit "Special"; lit "Mini"]) true.

(** [\d{4}] *)
Definition RE_YEAR : pattern := Pattern (rexactly 4 CDigit) false.

(** [\d+\s*(h|m)] *)
Definition RE_DURATION : pattern :=
  Pattern (rseq [rplus CDigit; rstar CSpace; Grp 1 (Alt (lit "h") (lit "m"))])
          false.

(** [[\d.,KkMm]] *)
Definition count_chars : cls :=
  cset [CDigit; c_ "."; c_ ","; c_ "K"; c_ "k"; c_ "M"; c_ "m"].

(** [/\s*10\s+([\d.,KkMm]+)] *)
Definition RE_VOTES : pattern :=
  Pattern (rseq [lit "/"; rstar CSpace; lit "10"; rplus CSpace;
                 Grp 1 (rplus count_chars)]) false.

(** [^/interest/in\d+] *)
Definition RE_INTEREST : pattern :=
  Pattern (rseq [Bol; lit "/interest/in"; rplus CDigit]) false.

(** [,\s+(?=https?://)] *)
Definition RE_SRCSET_SEP : pattern :=
  Pattern (rseq [lit ","; rplus CSpace;
                 Ahead (rseq [lit "http"; ropt (c_ "s"); lit "://"])]) false.

(** [[^\d]] *)
Definition RE_NON_DIGIT : pattern := Pattern (One (CNot CDigit)) false.

(** [S\d+\.E\d+] *)
Definition se_rx : regex :=
  rseq [lit "S"; rplus CDigit; lit "."; lit "E"; rplus CDigit].
Definition RE_SE_I : pattern := Pattern se_rx true.
Definition RE_SE : pattern := Pattern se_rx false.

(** [/title/tt\d+/\?ref_=ttep] *)
Definition RE_EP_LINK : pattern :=
  Pattern (rseq [lit "/title/tt"; rplus CDigit; lit "/?ref_=ttep"]) false.

(** [episode], [re.I] *)
Definition RE_EPISODE : pattern := Pattern (lit "episode") true.

(** [(Mon|Tue|Wed|Thu|Fri|Sat|Sun),\s+\w+\s+\d+,\s+\d{4}|\d{1,2}\s+\w+\s+\d{4}|\d{4}-\d{2}-\d{2}],
    [re.I] *)
Definition RE_DATE : pattern :=
  Pattern (ralt [
    rseq [Grp 1 (ralt [lit "Mon"; lit "Tue"; lit "Wed"; lit "Thu"; lit "Fri";
                       lit "Sat"; lit "Sun"]);
          lit ","; rplus CSpace; rplus CWord; rplus CSpace; rplus CDigit;
          lit ","; rplus CSpace; rexactly 4 CDigit];
    rseq [Rep true 1 (Some 2%nat) CDigit; rplus CSpace; rplus CWord;
          rplus CSpace; rexactly 4 CDigit];
    rseq [rexactly 4 CDigit; lit "-"; rexactly 2 CDigit; lit "-";
          rexactly 2 CDigit]]) true.

(** [\d{4}|Mon|Tue|Wed|Thu|Fri|Sat|Sun], [re.I] *)
Definition RE_DATE_HINT : pattern :=
  Pattern (ralt [rexactly 4 CDigit; lit "Mon"; lit "Tue"; lit "Wed";
                 lit "Thu"; lit "Fri"; lit "Sat"; lit "Sun"]) true.

(** [([\d.]+)] *)
Definition RE_NUMBER : pattern :=
  Pattern (Grp 1 (rplus (cset [CDigit; c_ "."]))) false.

(** [\(\s*([\d.,KkMm]+)\s*\)] *)
Definition RE_PAREN_VOTES : pattern :=
  Pattern (rseq [lit "("; rstar CSpace; Grp 1 (rplus count_chars);
                 rstar CSpace; lit ")"]) false.

(** [IMDBx rating], [re.I] *)
Definition RE_RATING_LABEL : pattern := Pattern (lit "IMDBx rating") true.

(** [\b(\d\.\d)\s*/\s*10\b] *)
Definition RE_SCORE : pattern :=
  Pattern (rseq [Wb; Grp 1 (rseq [One CDigit; lit "."; One CDigit]);
                 rstar CSpace; lit "/"; rstar CSpace; lit "10"; Wb]) false.

(** [/title/tt\d+/] *)
Definition RE_TITLE_LINK : pattern :=
  Pattern (rseq [lit "/title/tt"; rplus CDigit; lit "/"]) false.

(** [\s*[∙·]\s*]: U+2219 and U+00B7 *)
Definition RE_DOT_SEP : pattern :=
  Pattern (rseq [rstar CSpace; One (cset [CChr 8729; CChr 183]);
                 rstar CSpace]) false.

(** [S(\d+)\.E(\d+)], [re.I] *)
Definition RE_SE_GROUPS : pattern :=
  Pattern (rseq [lit "S"; Grp 1 (rplus CDigit); lit "."; lit "E";
                 Grp 2 (rplus CDigit)]) true.

(** [\?season=\d+] and [\?season=(\d+)] *)
Definition RE_SEASON : pattern :=
  Pattern (rseq [lit "?season="; rplus CDigit]) false.
Definition RE_SEASON_GROUP : pattern :=
  Pattern (rseq [lit "?season="; Grp 1 (rplus CDigit)]) false.

Definition testid_is (v : string) : node → bool := attr_is "data-testid" v.

(** ** Series metadata *)

(** The series name: the hero title, else [<title>], else [og:title]. *)
Definition series_name_step (soup : node) (meta : SeriesMetadata)
    : exc SeriesMetadata :=
  match find (testid_is "hero__pageTitle") soup with
  | Some nd =>
      let name := get_text_strip "" nd in
      Ok (if nonempty name then set_series_name name meta else meta)
  | None =>
      match find (named ["title"%string]) soup with
      | Some tag =>
          let raw := re_delete RE_SITE_SUFFIX (get_text_strip "" tag) in
          let raw := strip (re_delete RE_YEAR_SUFFIX raw) in
          Ok (if nonempty raw then set_series_name raw meta else meta)
      | None =>
          match find (λ n, named ["meta"%string] n
                           && attr_is "property" "og:title" n) soup with
          | Some og =>
              if nonempty (default [] (get og "content")) then
                content ← getitem og "content";
                Ok (set_series_name (strip content) meta)
              else Ok meta
          | None => Ok meta
          end
      end
  end.

(** One item of the inline hero list. *)
Definition classify_item (meta : SeriesMetadata) (item : pystr)
    : SeriesMetadata :=
  if truthy (re_match RE_CONTENT_RATING item) then set_content_rating item meta
  else if truthy (re_match RE_KIND item) then set_type item meta
  else if truthy (re_match RE_YEAR item) then set_years item meta
  else if truthy (re_search RE_DURATION item) then set_episode_duration item meta
  else meta.

Definition hero_list_step (soup : node) (meta : SeriesMetadata)
    : SeriesMetadata :=
  match find_with_parent (testid_is "hero__pageTitle") soup with
  | Some (hero_node, parent) =>
      let ul := match parent with
                | Some par => find (named ["ul"%string]) par
                | None => None
                end in
      match ul with
      | Some ul =>
          foldl classify_item meta
                (get_text_strip "" <$> find_all (named ["li"%string]) ul)
      | None => meta
      end
  | None => meta
  end.

(** The score, from the first [span] of the score block. *)
Definition score_step (agg : node) (meta : SeriesMetadata)
    : exc SeriesMetadata :=
  match find (testid_is "hero-rating-bar__aggregate-rating__score") agg with
  | Some score_div =>
      let spans := find_all (named ["span"%string]) score_div in
      if nonempty spans then
        span ← first_item spans;
        Ok (set_imdb_rating (get_text_strip "" span ++ u "/10") meta)
      else Ok meta
  | None => Ok meta
  end.

(** The vote count, from the text of the whole rating block. *)
Definition votes_step (agg : node) (meta : SeriesMetadata)
    : exc SeriesMetadata :=
  let all_matches := findall1 RE_VOTES (get_text_strip " " agg) in
  if nonempty all_matches then
    count ← last_item all_matches;
    Ok (set_rating_count count meta)
  else Ok meta.

Definition rating_step (soup : node) (meta : SeriesMetadata)
    : exc SeriesMetadata :=
  match find (testid_is "hero-rating-bar__aggregate-rating") soup with
  | Some agg => meta ← score_step agg meta; votes_step agg meta
  | None => Ok meta
  end.

Definition popularity_step (soup : node) (meta : SeriesMetadata)
    : SeriesMetadata :=
  match find (testid_is "hero-rating-bar__popularity__score") soup with
  | Some pop => set_popularity (get_text_strip "" pop) meta
  | None => meta
  end.

(** The tag loop: [seen] is the set of texts met, [tags] the list built. *)
Definition tag_step (st : gset pystr * list pystr) (a : node)
    : gset pystr * list pystr :=
  let text := get_text_strip "" a in
  if nonempty text && negb (bool_decide (text ∈ fst st))
  then ({[text]} ∪ fst st, snd st ++ [text])
  else st.

Definition tags_step (soup : node) (meta : SeriesMetadata) : SeriesMetadata :=
  let tags :=
    snd (foldl tag_step (∅, [])
           (find_all (λ n, named ["a"%string] n
                           && attr_matches "href" RE_INTEREST n) soup)) in
  if nonempty tags then set_tags tags meta else meta.

Definition parse_series_metadata (soup : node) (title_id : pystr)
    : exc SeriesMetadata :=
  let meta := SeriesMetadata_new title_id title_id in
  meta ← series_name_step soup meta;
  let meta := hero_list_step soup meta in
  meta ← rating_step soup meta;
  let meta := popularity_step soup meta in
  Ok (tags_step soup meta).

(** ** Episode card helpers *)

(** The order of [(width, url)] tuples. *)
Definition cand_ltb (a b : Z * pystr) : bool :=
  (fst a <? fst b)%Z || ((fst a =? fst b)%Z && str_ltb (snd a) (snd b)).

(** [max(candidates)]: the first greatest tuple. *)
Definition max_candidate (l : list (Z * pystr)) : exc (Z * pystr) :=
  match l with
  | [] => Raise ValueError
  | x :: l' => Ok (foldl (λ best y, if cand_ltb best y then y else best) x l')
  end.

(** The body of the loop over the entries of a [srcset]. *)
Definition srcset_entry (candidates : list (Z * pystr)) (entry : pystr)
    : exc (list (Z * pystr)) :=
  match rsplit1 entry with
  | [url; descriptor] =>
      catch_ValueError
        (width ← int_of_str (re_delete RE_NON_DIGIT descriptor);
         Ok (candidates ++ [(width, strip url)]))
        (Ok candidates)
  | _ => Ok candidates
  end.

Fixpoint foldE {A B} (f : B → A → exc B) (b : B) (l : list A) : exc B :=
  match l with
  | [] => Ok b
  | x :: l' => b' ← f b x; foldE f b' l'
  end.

Definition _best_image (img : node) : exc (option pystr) :=
  let srcset := get_or_empty img "srcset" in
  if nonempty srcset then
    let entries := re_split RE_SRCSET_SEP (strip srcset) in
    candidates ← foldE srcset_entry [] entries;
    if nonempty candidates then
      best ← max_candidate candidates;
      Ok (Some (snd best))
    else Ok (get img "src")
  else Ok (get img "src").

Definition _find_episode_cards (soup : node) : list node :=
  let cards :=
    filter (λ a, truthy (find (λ n, named ["a"%string] n
                                     && attr_matches "href" RE_EP_LINK n) a)
                 && matches RE_SE_I (get_text "" a))
           (find_all (named ["article"%string]) soup) in
  if nonempty cards then cards
  else
    let cards :=
      filter (λ t, matches RE_SE_I (get_text "" t))
             (find_all (attr_matches "data-testid" RE_EPISODE) soup) in
    if nonempty cards then cards
    else filter (λ a, matches RE_SE_I (get_text "" a))
                (find_all (named ["article"%string]) soup).

Definition _find_title_text (card : node) : exc pystr :=
  match find (testid_is "slate-list-card-title") card with
  | Some nd => Ok (get_text_strip "" nd)
  | None =>
      match
        filter (λ text, matches RE_SE_I text && (length text <? 200)%nat)
               (get_text_strip ""
                  <$> find_all (named ["div"; "h4"; "h3"; "span"]%string) card)
      with
      | text :: _ => Ok text
      | [] =>
          match find (λ n, named ["a"%string] n && attr_present "aria-label" n)
                     card with
          | Some link => getitem link "aria-label"
          | None => Ok []
          end
      end
  end.

Definition _find_air_date (card : node) : pystr :=
  match
    filter (λ text, matches RE_DATE text && (length text <? 50)%nat)
           (get_text_strip ""
              <$> find_all (named ["span"; "div"; "time"]%string) card)
  with
  | text :: _ => text
  | [] =>
      match
        filter (λ tag, let cls := lower (class_string tag) in
                       contains cls (u "date") || contains cls (u "air"))
               (find_all (named ["span"; "div"]%string) card)
      with
      | tag :: _ => get_text_strip "" tag
      | [] => []
      end
  end.

(** [max(candidates, key=len)]: the first longest string. *)
Definition max_by_len (l : list pystr) : exc pystr :=
  match l with
  | [] => Raise ValueError
  | x :: l' =>
      Ok (foldl (λ best y, if (length best <? length y)%nat then y else best)
                x l')
  end.

Definition _find_description (card : node) : exc pystr :=
  match
    omap (λ testid, find (attr_matches "data-testid" (Pattern (lit testid) true))
                         card)
         ["plot"; "synopsis"; "description"; "html-content"]%string
  with
  | nd :: _ => Ok (get_text_strip "" nd)
  | [] =>
      match
        filter (λ text, (30 <? length text)%nat)
               (get_text_strip ""
                  <$> find_all (λ n, named ["div"%string] n
                                     && attr_is "role" "presentation" n) card)
      with
      | text :: _ => Ok text
      | [] =>
          let candidates :=
            filter (λ text, (30 <? length text)%nat
                            && negb (matches RE_SE text)
                            && negb (matches RE_DATE_HINT (take 15 text)))
                   (get_text_strip ""
                      <$> filter (λ tag, negb (truthy
                                     (find (named ["div"; "p"]%string) tag)))
                                 (find_all (named ["div"; "p"]%string) card)) in
          if nonempty candidates then max_by_len candidates else Ok []
      end
  end.

(** [f"{score}/10 ({votes})" if votes else f"{score}/10"] with the votes
    read from [full]. *)
Definition score_with_votes (score full : pystr) : pystr :=
  let votes := match re_search RE_PAREN_VOTES full with
               | Some vm => group 1 vm
               | None => []
               end in
  if nonempty votes then score ++ u "/10 (" ++ votes ++ u ")"
  else score ++ u "/10".

Definition _find_rating (card : node) : pystr :=
  match
    omap (λ testid,
            nd ← find (testid_is testid) card;
            m ← re_search RE_NUMBER (get_or_empty nd "aria-label");
            Some (score_with_votes (group 1 m) (get_text_strip " " nd)))
         ["ratingGroup--imdb-rating"; "ratingGroup--container"]%string
  with
  | r :: _ => r
  | [] =>
      match
        nd ← find (λ n, named ["span"%string] n
                        && attr_matches "aria-label" RE_RATING_LABEL n) card;
        re_search RE_NUMBER (get_or_empty nd "aria-label")
      with
      | Some m => group 1 m ++ u "/10"
      | None =>
          let full := get_text " " card in
          match re_search RE_SCORE full with
          | Some m => score_with_votes (group 1 m) full
          | None => u "N/A"
          end
      end
  end.

(** [int(img.get("width", 0)) >= 80]. *)
Definition width_at_least_80 (img : node) : exc bool :=
  width ← match get img "width" with
          | Some w => int_of_str w
          | None => Ok 0%Z
          end;
  Ok (80 <=? width)%Z.

(** The second loop of [_find_cover_image]. *)
Fixpoint cover_by_size (imgs : list node) : exc (option pystr) :=
  match imgs with
  | [] => Ok None
  | img :: imgs' =>
      returned ← catch_ValueError
                   (big ← width_at_least_80 img;
                    if big : bool then best ← _best_image img; Ok (Some best)
                    else Ok None)
                   (Ok None);
      match returned with
      | Some best => Ok best
      | None =>
          let src := get_or_empty img "src" in
          if nonempty src && negb (endswith src (u ".svg"))
             && negb (contains (lower src) (u "icon"))
          then _best_image img
          else cover_by_size imgs'
      end
  end.

Definition _find_cover_image (card : node) : exc (option pystr) :=
  let imgs := find_all (named ["img"%string]) card in
  match
    filter (λ img, contains (get_or_empty img "srcset" ++ get_or_empty img "src")
                            (u "media-amazon.com")) imgs
  with
  | img :: _ => _best_image img
  | [] => cover_by_size imgs
  end.

Definition absolute (href : pystr) : pystr :=
  if startswith href (u "/") then BASE_URL ++ href else href.

(** The first loop of [_find_episode_link]. *)
Fixpoint link_with_ref (links : list node) : exc (option pystr) :=
  match links with
  | [] => Ok None
  | a :: links' =>
      href ← getitem a "href";
      if matches RE_TITLE_LINK href && contains href (u "ref_=ttep")
      then Ok (Some (absolute href))
      else link_with_ref links'
  end.

Definition _find_episode_link (card : node) : exc pystr :=
  found ← link_with_ref
            (find_all (λ n, named ["a"%string] n && attr_present "href" n) card);
  match found with
  | Some url => Ok url
  | None =>
      match find (λ n, named ["a"%string] n
                       && attr_matches "href" RE_TITLE_LINK n) card with
      | Some a => href ← getitem a "href"; Ok (absolute href)
      | None => Ok []
      end
  end.

(** ** The episode generator *)

(** The body of the loop of [parse_episodes]: the [Episode] of one card. *)
Definition parse_card (card : node) : exc Episode :=
  raw ← _find_title_text card;
  let parts := re_split1 RE_DOT_SEP raw in
  episode_code ← (if nonempty parts then strip <$> item parts 0 else Ok []);
  ep_title ← (if (1 <? length parts)%nat then strip <$> item parts 1
              else Ok raw);
  let m := re_match RE_SE_GROUPS episode_code in
  season_num ← match m with
               | Some m => int_of_str (group 1 m)
               | None => Ok 0%Z
               end;
  episode_num ← match m with
                | Some m => int_of_str (group 2 m)
                | None => Ok 0%Z
                end;
  let air := _find_air_date card in
  descr ← _find_description card;
  let rat := _find_rating card in
  cover ← _find_cover_image card;
  url ← _find_episode_link card;
  Ok (mkEpisode episode_code ep_title season_num episode_num air descr rat
                cover None url).

(** [list(parse_episodes(soup))]. *)
Definition parse_episodes (soup : node) : exc (list Episode) :=
  mapE parse_card (_find_episode_cards soup).

(** ** Season discovery *)

(** The three loops of [parse_season_numbers]; each adds to [found]. *)
Definition add_all (found : gset Z) (l : list Z) : gset Z :=
  foldl (λ acc n, {[n]} ∪ acc) found l.

Definition season_tabs (soup : node) : exc (list Z) :=
  mapE int_of_str
       (filter (λ t, isdigit t)
               (get_text_strip "" <$> find_all (testid_is "tab-season-entry") soup)).

Definition season_options (soup : node) : exc (list Z) :=
  mapE int_of_str
       (filter (λ v, isdigit v)
               ((λ opt, strip (get_or_empty opt "value")) <$> select_option soup)).

Definition season_link (a : node) : exc (option Z) :=
  href ← getitem a "href";
  match re_search RE_SEASON_GROUP href with
  | Some m => n ← int_of_str (group 1 m); Ok (Some n)
  | None => Ok None
  end.

Definition season_links (soup : node) : exc (list Z) :=
  l ← mapE season_link
           (find_all (λ n, named ["a"%string] n
                           && attr_matches "href" RE_SEASON n) soup);
  Ok (omap (M:=list) (λ o : option Z, o) l).

(** [sorted(found)]. *)
Definition sorted (found : gset Z) : list Z := merge_sort Z.le (elements found).

Definition parse_season_numbers (soup : node) : exc (list Z) :=
  tabs ← season_tabs soup;
  let found := add_all ∅ tabs in
  found ← (if bool_decide (found = ∅)
           then add_all found <$> season_options soup else Ok found);
  found ← (if bool_decide (found = ∅)
           then add_all found <$> season_links soup else Ok found);
  Ok (sorted found).

End Parse.
Export Parse.

(* ====================================================================== *)
(** * [imdbx/_http.py]                                                     *)
(* ====================================================================== *)

Module Http.

(** What one [session.get] call does: it returns a response with a status
    code and a body, raises an exception of class [RequestException]
    (connection error, timeout, ...), or raises something else. *)
Inductive get_result :=
| Response (status : N) (body : pystr)
| RequestException
| OtherException.

(** [resp.raise_for_status()] raises [HTTPError], a [RequestException],
    exactly for the client and server error codes. *)
Definition raise_for_status (status : N) : bool :=
  (400 <=? status) && (status <? 600).

(** What the caller can observe besides the result: the requests made and
    the pauses, in milliseconds. *)
Inductive event :=
| EGet (attempt : nat)
| ESleep (ms : N).

(** [1.5 * attempt] seconds. *)
Definition backoff (attempt : nat) : N := 1500 * N.of_nat attempt.

(** The result of a call: the value returned, or an exception that
    reaches the caller. *)
Inductive returned (A : Type) :=
| Returns (a : A)
| Propagates.
Arguments Returns {A} a.
Arguments Propagates {A}.

Section Fetch.

(** [BeautifulSoup(text, "html.parser")]. *)
Variable html_parser : pystr → node.

(** The outcome of the [attempt]-th request of the call. *)
Variable net : nat → get_result.

(** The [for] loop of [http_fetch] from [attempt] on, [remaining]
    iterations being left. *)
Fixpoint fetch_loop (retries remaining attempt : nat)
    : returned (option node) * list event :=
  match remaining with
  | O => (Returns None, [])
  | S remaining' =>
      let failed :=
        let pause := if (attempt <? retries)%nat
                     then [ESleep (backoff attempt)] else [] in
        let '(r, evs) := fetch_loop retries remaining' (S attempt) in
        (r, EGet attempt :: pause ++ evs) in
      match net attempt with
      | Response status body =>
          if raise_for_status status then failed
          else (Returns (Some (html_parser body)), [EGet attempt])
      | RequestException => failed
      | OtherException => (Propagates, [EGet attempt])
      end
  end.

Definition http_fetch (retries : nat) : returned (option node) * list event :=
  fetch_loop retries retries 1.

End Fetch.

(** ** Image downloading *)

(** [os.path.splitext(path)[1]]: the extension starts at the last dot of
    the last component, unless only dots stand before it. *)
Definition splitext_ext (path : pystr) : pystr :=
  let comp := reverse (take_while (λ c, negb (c =? 47)) (reverse path)) in
  let ext_rev := take_while (λ c, negb (c =? 46)) (reverse comp) in
  let stem := take (length comp - length ext_rev - 1) comp in
  if (length ext_rev <? length comp)%nat && existsb (λ c, negb (c =? 46)) stem
  then drop (length stem) comp
  else [].

Definition known_ext (e : pystr) : bool :=
  existsb (λ k, str_eqb e (u k)) [".jpg"; ".jpeg"; ".png"; ".webp"; ".gif"]%string.

(** [Path("a") / "b"] and [str(path)], for plain relative components. *)
Definition path_join (a b : pystr) : pystr := a ++ u "/" ++ b.

(** The files the downloader sees: the bytes each existing path holds. *)
Abbreviation disk := (gmap pystr pystr).

Section Download.

(** [urlparse(url).path]. *)
Variable url_path : pystr → pystr.

(** The outcome of the [attempt]-th request for [url]: [None] when the
    request, the status check or the write raises. *)
Variable net : pystr → nat → option pystr.

Definition _ext_from_url (url : pystr) : pystr :=
  let ext := lower (splitext_ext (url_path url)) in
  if known_ext ext then ext else u ".jpg".

(** The [for] loop of [_download_one]. *)
Fixpoint download_loop (url dest : pystr) (retries remaining attempt : nat)
    (d : disk) : bool * disk * list event :=
  match remaining with
  | O => (false, d, [])
  | S remaining' =>
      match net url attempt with
      | Some content => (true, <[dest := content]> d, [EGet attempt])
      | None =>
          let pause := if (attempt <? retries)%nat
                       then [ESleep (backoff attempt)] else [] in
          let '(ok, d', evs) :=
            download_loop url dest retries remaining' (S attempt) d in
          (ok, d', EGet attempt :: pause ++ evs)
      end
  end.

Definition _download_one (url dest : pystr) (retries : nat) (d : disk)
    : bool * disk * list event :=
  if bool_decide (is_Some (d !! dest)) then (true, d, [])
  else download_loop url dest retries retries 1 d.

(** [_download_all]: the jobs one after the other (the semaphore only
    bounds how many run at once). *)
Definition _download_all (jobs : list (pystr * pystr)) (d : disk) : disk :=
  foldl (λ d job, (_download_one (fst job) (snd job) 3 d).1.2) d jobs.

(** The body of the inner loop of [download_images]: the episode with its
    local path assigned, and the job it adds. *)
Definition assign_local (base : pystr) (ep : Episode)
    : Episode * list (pystr * pystr) :=
  let set_local (v : option pystr) :=
    mkEpisode (episode_code ep) (title ep) (season ep) (episode ep)
      (air_date ep) (description ep) (rating ep) (cover_image ep) v
      (imdb_url ep) in
  match cover_image ep with
  | Some url =>
      if nonempty url then
        let ext := _ext_from_url url in
        let filename := u "S" ++ str_of_int (season ep) ++ u "E"
                        ++ str_of_int (episode ep) ++ ext in
        let dest := path_join base filename in
        (set_local (Some dest), [(url, dest)])
      else (set_local None, [])
  | None => (set_local None, [])
  end.

(** [download_images]: the aggregate with the local paths assigned, and the
    disk after the downloads. *)
Definition download_images (title_info : TitleInfo) (images_dir : pystr)
    (d : disk) : TitleInfo * disk :=
  let base := path_join images_dir (title_id (meta title_info)) in
  let seasons' : gmap Z (list Episode) :=
    fmap (M:=gmap Z) (fmap (M:=list) (λ ep, fst (assign_local base ep)))
         (seasons title_info) in
  let jobs :=
    mbind (M:=list) (λ kv : Z * list Episode,
             mbind (M:=list) (λ ep, snd (assign_local base ep)) kv.2)
          (map_to_list (seasons title_info)) in
  let info := mkTitleInfo (meta title_info) seasons' in
  if nonempty jobs then (info, _download_all jobs d) else (info, d).

End Download.

End Http.
Export Http.

(* ====================================================================== *)
(** * [imdbx/_browser.py]                                                  *)
(* ====================================================================== *)

Module Browser.

(** [\d+\s+more|see\s+all|load\s+more], [re.I] *)
Definition _INLINE_MORE : pattern :=
  Pattern (ralt [rseq [rplus CDigit; rplus CSpace; lit "more"];
                 rseq [lit "see"; rplus CSpace; lit "all"];
                 rseq [lit "load"; rplus CSpace; lit "more"]]) true.

(** ** Navigation guard *)

Definition _is_navigating_href (href : option pystr) : bool :=
  match href with
  | None => false
  | Some href =>
      if negb (nonempty href) then false
      else
        let h := strip href in
        if negb (nonempty h) || startswith h (u "#")
           || startswith (lower h) (u "javascript:")
        then false
        else true
  end.

(** ** The rendered page as the locators see it *)

(** An element of the rendered page: what the selectors test (tag,
    visibility, attributes, the [data-testid] of its ancestors) and what
    the queries on its locator answer.  A query on a detached element
    raises. *)
Record element := Element {
  el_tag : pystr;
  el_visible : bool;
  el_attrs : list (pystr * pystr);
  el_ancestor_testids : list pystr;
  el_text : pystr;
  el_enabled : bool;
  el_detached : bool
}.

Definition inner_text (el : element) : option pystr :=
  if el_detached el then None else Some (el_text el).

Definition is_enabled (el : element) : option bool :=
  if el_detached el then None else Some (el_enabled el).

Definition get_attribute (el : element) (name : string)
    : option (option pystr) :=
  if el_detached el then None else Some (assoc (u name) (el_attrs el)).

(** [x or ""]. *)
Definition or_empty (x : option pystr) : pystr :=
  match x with
  | Some s => if nonempty s then s else []
  | None => []
  end.

Definition has_tag (tag : string) (el : element) : bool :=
  str_eqb (el_tag el) (u tag).

(** [page.locator("tag:visible")], in document order. *)
Definition locate_tag (tag : string) (page : list element) : list element :=
  filter (λ el, has_tag tag el && el_visible el) page.

(** [page.locator("[data-testid*='frag'] tag:visible, tag[data-testid*='frag']:visible")]. *)
Definition locate_testid (frag tag : string) (page : list element)
    : list element :=
  filter (λ el, has_tag tag el && el_visible el
                && (existsb (λ t, contains t (u frag)) (el_ancestor_testids el)
                    || match assoc (u "data-testid") (el_attrs el) with
                       | Some t => contains t (u frag)
                       | None => false
                       end))
         page.

(** [page.locator("tag[aria-label*='more' i]:visible, tag[aria-label*='see all' i]:visible")]. *)
Definition locate_label (tag : string) (page : list element) : list element :=
  filter (λ el, has_tag tag el && el_visible el
                && match assoc (u "aria-label") (el_attrs el) with
                   | Some l => contains (lower l) (u "more")
                               || contains (lower l) (u "see all")
                   | None => false
                   end)
         page.

(** ** Load-more finder *)

(** The [try] bodies of the four strategies: [Some true] is [return el],
    [Some false] falls through to the next element, [None] is an
    exception, which the [except] clause turns into [continue]. *)
Definition try_button (el : element) : option bool :=
  text ← inner_text el;
  if matches _INLINE_MORE (strip text) then is_enabled el else Some false.

Definition not_disabled (el : element) : option bool :=
  d ← get_attribute el "aria-disabled";
  Some (negb (match d with
              | Some v => str_eqb v (u "true")
              | None => false
              end)).

Definition try_link (el : element) : option bool :=
  href ← get_attribute el "href";
  if _is_navigating_href (Some (or_empty href)) then Some false
  else
    text ← inner_text el;
    if matches _INLINE_MORE (strip text) then not_disabled el else Some false.

Definition try_marked (tag : string) (el : element) : option bool :=
  href ← get_attribute el "href";
  if bool_decide (tag = "a"%string) && _is_navigating_href (Some (or_empty href))
  then Some false
  else not_disabled el.

(** A [for] loop over the elements of a locator that returns the first
    element whose [try] body returns. *)
Definition first_returning (body : element → option bool)
    (els : list element) : option element :=
  head (filter (λ el, bool_decide (body el = Some true)) els).

(** The first result among the strategies tried in order. *)
Fixpoint first_some {A} (l : list (option A)) : option A :=
  match l with
  | [] => None
  | Some x :: _ => Some x
  | None :: l' => first_some l'
  end.

Definition strategy1 (page : list element) : option element :=
  first_returning try_button (locate_tag "button" page).

Definition strategy2 (page : list element) : option element :=
  first_returning try_link (locate_tag "a" page).

(** Strategy 3 looks only at [loc.first] of each selector. *)
Definition strategy3 (page : list element) : option element :=
  first_some
    (frag ← ["see-more"; "load-more"; "expand"]%string;
     tag ← ["button"; "a"]%string;
     [first_returning (try_marked tag) (take 1 (locate_testid frag tag page))]).

Definition strategy4 (page : list element) : option element :=
  first_some
    (tag ← ["button"; "a"]%string;
     [first_returning (try_marked tag) (locate_label tag page)]).

Definition _find_loadmore (page : list element) : option element :=
  first_some [strategy1 page; strategy2 page; strategy3 page; strategy4 page].

(** ** Episode expander *)

(** The page while it is driven: its URL, its elements and its number of
    [article] cards. *)
Record page := Page {
  page_url : pystr;
  page_dom : list element;
  page_articles : nat
}.

Inductive pw_error := PWTimeout | PWError.

(** A Playwright call: the page afterwards, and the exception if it raised. *)
Definition call := page → page * option pw_error.

(** How the browser and the site answer the calls of the expander. *)
Record browser := {
  b_inner_text : element → call;
  b_scroll_into_view : element → call;
  b_click : element → call;
  b_sleep : N → page → page;
  b_goto : pystr → call;
  b_wait_for_selector : call;
  b_wait_for_growth : nat → call;    (* more than [n] articles, 12 s *)
  b_wait_for_idle : call             (* "networkidle", 8 s *)
}.

(** Why the loop of [_expand_episodes] stopped. *)
Inductive exit_kind :=
| NoCandidate          (* [el is None]: nothing left to click *)
| NavigationDrift      (* the URL changed; went back to the episode list *)
| TimedOut             (* [except PWTimeout: break] *)
| ClickError           (* [except Exception: break] *)
| OutOfFuel.           (* the bound of the model, not of the code *)

(** One pass through the body of the [while] loop. *)
Inductive pass :=
| Rescan (p : page)                  (* back to the top of the loop *)
| Break (k : exit_kind) (p : page).

Definition on_error (e : pw_error) : exit_kind :=
  match e with
  | PWTimeout => TimedOut
  | PWError => ClickError
  end.

(** A sequence of calls inside the outer [try]: the first exception
    leaves it for the matching [except] clause. *)
Fixpoint try_calls (cs : list call) (p : page) : page * option pw_error :=
  match cs with
  | [] => (p, None)
  | c :: cs' =>
      match c p with
      | (p', None) => try_calls cs' p'
      | (p', Some e) => (p', Some e)
      end
  end.

Section Expand.

Variable b : browser.
Variable episode_url : pystr.

(** The part of the [try] body after the click and the settle delay. *)
Definition after_click (before_count : nat) (before_url : pystr) (p : page)
    : pass :=
  if negb (str_eqb (page_url p) before_url) then
    match try_calls [b_goto b episode_url; b_wait_for_selector b] p with
    | (p', None) => Break NavigationDrift p'
    | (p', Some e) => Break (on_error e) p'
    end
  else
    match b_wait_for_growth b before_count p with
    | (p', None) => Rescan (b_sleep b 300 p')
    | (p', Some PWTimeout) =>
        match b_wait_for_idle b p' with
        | (p'', None) => Rescan (b_sleep b 300 p'')
        | (p'', Some e) => Break (on_error e) p''
        end
    | (p', Some PWError) => Break ClickError p'
    end.

(** The body of the loop once a candidate [el] is found; the second
    component tells whether the click happened. *)
Definition click_and_wait (el : element) (p : page) : pass * bool :=
  let before_count := page_articles p in
  let before_url := page_url p in
  match try_calls [b_inner_text b el; b_scroll_into_view b el] p with
  | (p1, Some e) => (Break (on_error e) p1, false)
  | (p1, None) =>
      match b_click b el p1 with
      | (p2, Some e) => (Break (on_error e) p2, false)
      | (p2, None) =>
          (after_click before_count before_url (b_sleep b 400 p2), true)
      end
  end.

(** The [while True] loop, bounded by [fuel]: the exit, the page and
    [click_count]. *)
Fixpoint expand_loop (fuel : nat) (click_count : nat) (p : page)
    : exit_kind * page * nat :=
  match fuel with
  | O => (OutOfFuel, p, click_count)
  | S fuel' =>
      match _find_loadmore (page_dom p) with
      | None => (NoCandidate, p, click_count)
      | Some el =>
          let '(r, clicked) := click_and_wait el p in
          let click_count' :=
            if clicked then S click_count else click_count in
          match r with
          | Rescan p' => expand_loop fuel' click_count' p'
          | Break k p' => (k, p', click_count')
          end
      end
  end.

Definition _expand_episodes (fuel : nat) (p : page) : exit_kind * page * nat :=
  expand_loop fuel 0 p.

End Expand.

End Browser.
Export Browser.

(* ====================================================================== *)
(** * Properties of the Python fragment                                    *)
(* ====================================================================== *)

Section PyFacts.

Lemma str_eqb_eq (a b : pystr) : str_eqb a b = true ↔ a = b.
Proof.
  revert b; induction a as [|x a IH]; intros [|y b]; simpl; try easy.
  rewrite andb_true_iff, N.eqb_eq, IH. split.
  - intros [-> ->]; reflexivity.
  - intros [= -> ->]; auto.
Qed.

Lemma str_eqb_refl (a : pystr) : str_eqb a a = true.
Proof. apply str_eqb_eq; reflexivity. Qed.

Lemma head_filter_elem {A} (P : A → Prop) `{!∀ x, Decision (P x)}
    (l : list A) (x : A) :
  head (filter P l) = Some x → x ∈ l ∧ P x.
Proof.
  intros Hh. apply head_Some_elem_of in Hh.
  apply list_elem_of_filter in Hh. tauto.
Qed.

End PyFacts.

(* ====================================================================== *)
(** * The load-more finder never picks a navigating link                   *)
(* ====================================================================== *)

Section LoadMore.

Lemma first_returning_spec (body : element → option bool)
    (els : list element) (el : element) :
  first_returning body els = Some el → el ∈ els ∧ body el = Some true.
Proof.
  unfold first_returning. intros H.
  apply head_filter_elem in H as [Hin Hb].
  split; [exact Hin|]. apply bool_decide_unpack in Hb. exact Hb.
Qed.










(** A page with two links that both read "12 more": the first leads to a
    search page, the second stays on the page. *)
Definition search_link : element :=
  Element (u "a") true [(u "href", u "/search/title/?series=tt7441658")] []
          (u "12 more") true false.

Definition inline_link : element :=
  Element (u "a") true [(u "href", u " #episodes")] [] (u "12 more") true false.

Definition two_links : list element := [search_link; inline_link].

Example find_loadmore_two_links : _find_loadmore two_links = Some inline_link.
Proof. reflexivity. Qed.

Example find_loadmore_search_link_only : _find_loadmore [search_link] = None.
Proof. reflexivity. Qed.



End LoadMore.

(* ====================================================================== *)
(** * The expansion loop after a click                                     *)
(* ====================================================================== *)

Section Expansion.

Variable b : browser.
Variable episode_url : pystr.

(** The pass over the loop body that starts on page [p] finds the
    candidate [el], clicks it, stays on the same URL, and its wait for
    more cards times out, leaving the page [p3]. *)
Definition growth_wait_times_out (p : page) (el : element) (p3 : page) : Prop :=
  ∃ p1 p2,
    _find_loadmore (page_dom p) = Some el
    ∧ try_calls [b_inner_text b el; b_scroll_into_view b el] p = (p1, None)
    ∧ b_click b el p1 = (p2, None)
    ∧ str_eqb (page_url (b_sleep b 400 p2)) (page_url p) = true
    ∧ b_wait_for_growth b (page_articles p) (b_sleep b 400 p2)
      = (p3, Some PWTimeout).

Lemma pass_after_growth_timeout (p : page) (el : element) (p3 : page) :
  growth_wait_times_out p el p3 →
  click_and_wait b episode_url el p
  = (match b_wait_for_idle b p3 with
     | (p4, None) => Rescan (b_sleep b 300 p4)
     | (p4, Some e) => Break (on_error e) p4
     end, true).
Proof.
  intros (p1 & p2 & _ & Hpre & Hclick & Hurl & Hwait).
  unfold click_and_wait. rewrite Hpre, Hclick.
  unfold after_click. rewrite Hurl. simpl negb. cbv iota.
  rewrite Hwait. reflexivity.
Qed.

(** C2 (amended).  When the wait for more cards times out the procedure
    waits for the network to go idle.  If that wait completes, the loop
    goes on: after the settle delay it scans the page again.  If that
    wait raises (a timeout or another error), the loop stops there with
    the page as it is and the click counted. *)
Theorem C2_fallback_then_rescan_or_stop
    (fuel clicks : nat) (p : page) (el : element) (p3 : page) :
  growth_wait_times_out p el p3 →
  expand_loop b episode_url (S fuel) clicks p
  = match b_wait_for_idle b p3 with
    | (p4, None) =>
        expand_loop b episode_url fuel (S clicks) (b_sleep b 300 p4)
    | (p4, Some e) => (on_error e, p4, S clicks)
    end.
Proof.
  intros Hpass.
  pose proof (pass_after_growth_timeout p el p3 Hpass) as Hbody.
  destruct Hpass as (p1 & p2 & Hfind & _).
  simpl. rewrite Hfind, Hbody.
  destruct (b_wait_for_idle b p3) as [p4 [e|]]; reflexivity.
Qed.

End Expansion.

(** A page whose "load more" button never adds a card, on a site whose
    network never goes idle: every wait times out. *)
Definition more_button : element :=
  Element (u "button") true [] [] (u "Load more") true false.

Definition stuck_page : page :=
  Page (u "https://www.imdb.com/title/tt7441658/episodes/?season=1")
       [more_button] 50.

Definition ok : call := λ p, (p, None).
Definition times_out : call := λ p, (p, Some PWTimeout).

Definition busy_site : browser :=
  {| b_inner_text := λ _, ok;
     b_scroll_into_view := λ _, ok;
     b_click := λ _, ok;
     b_sleep := λ _ p, p;
     b_goto := λ _, ok;
     b_wait_for_selector := ok;
     b_wait_for_growth := λ _, times_out;
     b_wait_for_idle := times_out |}.

(** The same page on a site whose network does go idle. *)
Definition quiet_site : browser :=
  {| b_inner_text := λ _, ok;
     b_scroll_into_view := λ _, ok;
     b_click := λ _, ok;
     b_sleep := λ _ p, p;
     b_goto := λ _, ok;
     b_wait_for_selector := ok;
     b_wait_for_growth := λ _, times_out;
     b_wait_for_idle := ok |}.

(** On the busy site the wait for more cards times out, the fallback wait
    times out too, and the loop does not scan again: it stops after one
    click, although the button is still there. *)
Lemma C2_fallback_timeout_stops_expansion :
  growth_wait_times_out busy_site stuck_page more_button stuck_page
  ∧ b_wait_for_idle busy_site stuck_page = (stuck_page, Some PWTimeout)
  ∧ click_and_wait busy_site (page_url stuck_page) more_button stuck_page
    = (Break TimedOut stuck_page, true)
  ∧ _find_loadmore (page_dom stuck_page) = Some more_button
  ∧ _expand_episodes busy_site (page_url stuck_page) 100 stuck_page
    = (TimedOut, stuck_page, 1%nat).
Proof.
  split; [|repeat split; reflexivity].
  exists stuck_page, stuck_page. repeat split; reflexivity.
Qed.

Lemma C2_fallback_witness :
  expand_loop quiet_site (page_url stuck_page) 3 0 stuck_page
  = match b_wait_for_idle quiet_site stuck_page with
    | (p4, None) =>
        expand_loop quiet_site (page_url stuck_page) 2 1
          (b_sleep quiet_site 300 p4)
    | (p4, Some e) => (on_error e, p4, 1%nat)
    end.
Proof.
  apply (C2_fallback_then_rescan_or_stop quiet_site (page_url stuck_page)
           2 0 stuck_page more_button stuck_page).
  exists stuck_page, stuck_page. repeat split; reflexivity.
Defined.

(* ====================================================================== *)
(** * The retrying fetch                                                   *)
(* ====================================================================== *)

Section FetchRetry.

Variable html_parser : pystr → node.
Variable net : nat → get_result.

(** An attempt fails, and is retried, when the request raises a
    [RequestException] or the status check raises. *)
Definition attempt_fails (r : get_result) : bool :=
  match r with
  | Response status _ => raise_for_status status
  | RequestException => true
  | OtherException => false
  end.




Lemma fetch_step_fails (retries remaining attempt : nat) :
  attempt_fails (net attempt) = true →
  fetch_loop html_parser net retries (S remaining) attempt
  = (fst (fetch_loop html_parser net retries remaining (S attempt)),
     EGet attempt
     :: (if (attempt <? retries)%nat then [ESleep (backoff attempt)] else [])
     ++ snd (fetch_loop html_parser net retries remaining (S attempt))).
Proof.
  intros H. simpl.
  destruct (fetch_loop html_parser net retries remaining (S attempt)) as [r evs].
  destruct (net attempt) as [status body| |]; simpl in H.
  - rewrite H. reflexivity.
  - reflexivity.
  - discriminate.
Qed.


(** For any number of retries: when every attempt fails the call returns
    [None]; it does not raise. *)
Lemma fetch_loop_all_fail (retries remaining attempt : nat) :
  (∀ i, (attempt ≤ i < attempt + remaining)%nat →
        attempt_fails (net i) = true) →
  fst (fetch_loop html_parser net retries remaining attempt) = Returns None.
Proof.
  revert attempt. induction remaining as [|remaining IH]; intros attempt Hall.
  - reflexivity.
  - rewrite fetch_step_fails by (apply Hall; lia).
    simpl. apply IH. intros i Hi. apply Hall. lia.
Qed.


End FetchRetry.

(** A server that answers every request with [304 Not Modified] and an
    empty body: no attempt has a 2xx status, yet the first response is
    parsed and returned, without a retry. *)
Definition empty_document (_ : pystr) : node := Tag (u "[document]") [] [].




(** Three server errors. *)
Definition unavailable (_ : nat) : get_result := Response 503 [].


(* ====================================================================== *)
(** * The image-download step                                              *)
(* ====================================================================== *)

Section Downloads.

Variable url_path : pystr → pystr.
Variable net : pystr → nat → option pystr.

Lemma download_loop_other (url dest : pystr) (retries remaining attempt : nat)
    (d : disk) (p : pystr) :
  p ≠ dest →
  (download_loop net url dest retries remaining attempt d).1.2 !! p = d !! p.
Proof.
  intros Hne. revert attempt.
  induction remaining as [|remaining IH]; intros attempt; simpl.
  - reflexivity.
  - destruct (net url attempt) as [content|]; simpl.
    + apply lookup_insert_ne. congruence.
    + specialize (IH (S attempt)).
      destruct (download_loop net url dest retries remaining (S attempt) d)
        as [[okay d'] evs]. exact IH.
Qed.






(** The local path the step records for an episode: none without a cover
    URL, else [<images_dir>/<title_id>/S<season>E<episode><ext>]. *)
Definition expected_local (images_dir tid : pystr) (ep : Episode)
    : option pystr :=
  match cover_image ep with
  | None | Some [] => None
  | Some url =>
      Some (images_dir ++ u "/" ++ tid ++ u "/" ++ u "S"
            ++ str_of_int (season ep) ++ u "E" ++ str_of_int (episode ep)
            ++ _ext_from_url url_path url)
  end.

(** [ep'] is [ep] with that local path and nothing else changed. *)
Definition local_path_recorded (images_dir tid : pystr) (ep ep' : Episode)
    : Prop :=
  ep' = mkEpisode (episode_code ep) (title ep) (season ep) (episode ep)
          (air_date ep) (description ep) (rating ep) (cover_image ep)
          (expected_local images_dir tid ep) (imdb_url ep).

Lemma assign_local_recorded (images_dir tid : pystr) (ep : Episode) :
  local_path_recorded images_dir tid ep
    (assign_local url_path (path_join images_dir tid) ep).1.
Proof.
  unfold local_path_recorded, assign_local, expected_local, path_join.
  destruct (cover_image ep) as [[|c url]|]; simpl; try reflexivity.
  rewrite <- !app_assoc. reflexivity.
Qed.


End Downloads.

(** One episode with a cover URL, a CDN that refuses every request and an
    empty disk: the path is recorded and names no file. *)
Definition plain_url_path (url : pystr) : pystr := url.

Definition refusing (_ : pystr) (_ : nat) : option pystr := None.

Definition pilot : Episode :=
  mkEpisode (u "S1.E1") (u "Pilot") 1 1 [] [] (u "N/A")
            (Some (u "https://m.media-amazon.com/images/pilot.PNG")) None [].

Definition one_episode : TitleInfo :=
  mkTitleInfo (SeriesMetadata_new (u "tt9999999") (u "Test Show"))
              {[ 1%Z := [pilot] ]}.

Example download_images_path_without_file :
  let result :=
    download_images plain_url_path refusing one_episode (u "images") ∅ in
  (cover_image_local <$> default [] (seasons result.1 !! 1%Z))
  = [Some (u "images/tt9999999/S1E1.png")]
  ∧ result.2 = ∅.
Proof. vm_compute. split; reflexivity. Qed.


(* ====================================================================== *)
(** * Facts about the matcher and about [int]                              *)
(* ====================================================================== *)

Section ReFacts.

(** A repeat that succeeds consumed characters of its class, at least
    [lo] of them counting those before, and then its continuation
    succeeded. *)
Lemma rep_sound (ic g : bool) (c : cls) (lo : nat) (hi : option nat)
    (k : mstate → option mstate) (caps : list (nat * pystr))
    (s : pystr) (cnt pos : nat) (prev : option pychar) (res : mstate) :
  rep ic g c lo hi k caps cnt pos prev s = Some res →
  ∃ taken rest prev',
    s = taken ++ rest
    ∧ Forall (λ x, cls_match ic c x = true) taken
    ∧ (lo ≤ cnt + length taken)%nat
    ∧ k (MState (pos + length taken) prev' rest caps) = Some res.
Proof.
  revert cnt pos prev.
  assert (Hstop : ∀ cnt pos prev s,
    (if (lo <=? cnt)%nat then k (MState pos prev s caps) else None) = Some res →
    ∃ taken rest prev',
      s = taken ++ rest
      ∧ Forall (λ x, cls_match ic c x = true) taken
      ∧ (lo ≤ cnt + length taken)%nat
      ∧ k (MState (pos + length taken) prev' rest caps) = Some res).
  { intros cnt pos prev s0 H. destruct (lo <=? cnt)%nat eqn:E; [|discriminate].
    apply Nat.leb_le in E. exists [], s0, prev. simpl.
    rewrite !Nat.add_0_r.
    split; [reflexivity|]. split; [constructor|]. split; [lia|exact H]. }
  assert (Hmore : ∀ x s' cnt pos,
    cls_match ic c x = true →
    (∃ taken rest prev',
      s' = taken ++ rest
      ∧ Forall (λ x, cls_match ic c x = true) taken
      ∧ (lo ≤ S cnt + length taken)%nat
      ∧ k (MState (S pos + length taken) prev' rest caps) = Some res) →
    ∃ taken rest prev',
      x :: s' = taken ++ rest
      ∧ Forall (λ x, cls_match ic c x = true) taken
      ∧ (lo ≤ cnt + length taken)%nat
      ∧ k (MState (pos + length taken) prev' rest caps) = Some res).
  { intros x s' cnt pos Hx (taken & rest & prev' & -> & Hall & Hlo & Hk).
    exists (x :: taken), rest, prev'. simpl.
    split; [reflexivity|]. split; [constructor; assumption|]. split; [lia|].
    rewrite <- Hk. f_equal. f_equal. lia. }
  induction s as [|x s' IH]; intros cnt pos prev H; simpl in H.
  - apply (Hstop _ _ _ _ H).
  - destruct (cls_match ic c x) eqn:Hx; simpl in H; [|apply (Hstop _ _ _ _ H)].
    destruct (match hi with Some h => (cnt <? h)%nat | None => true end);
      simpl in H; [|apply (Hstop _ _ _ _ H)].
    destruct g.
    + destruct (rep ic true c lo hi k caps (S cnt) (S pos) (Some x) s') eqn:E.
      * injection H as ->. apply Hmore; [exact Hx|]. apply (IH _ _ _ E).
      * apply (Hstop _ _ _ _ H).
    + destruct (if (lo <=? cnt)%nat
                then k (MState pos prev (x :: s') caps) else None) eqn:E.
      * injection H as ->. apply (Hstop _ _ _ _ E).
      * apply Hmore; [exact Hx|]. apply (IH _ _ _ H).
Qed.

End ReFacts.

Section IntFacts.

Lemma isdecimal_not_space (c : pychar) : isdecimal c = true → isspace c = false.
Proof.
  unfold isdecimal, isspace, in_range. intros H.
  apply andb_true_iff in H as [H1 H2].
  apply N.leb_le in H1. apply N.leb_le in H2.
  repeat (apply orb_false_iff; split);
    try (apply andb_false_iff);
    repeat match goal with
    | |- (_ =? _) = false => apply N.eqb_neq; lia
    | |- (?a <=? c) = false ∨ (c <=? ?b) = false =>
        first [ left; apply N.leb_gt; lia | right; apply N.leb_gt; lia ]
    end.
Qed.

Lemma lstrip_decimal (s : pystr) :
  Forall (λ c, isdecimal c = true) s → lstrip s = s.
Proof.
  intros [|c s' Hc _]; simpl; [reflexivity|].
  rewrite (isdecimal_not_space c Hc). reflexivity.
Qed.

Lemma strip_decimal (s : pystr) :
  Forall (λ c, isdecimal c = true) s → strip s = s.
Proof.
  intros H. unfold strip, rstrip. rewrite (lstrip_decimal s H).
  rewrite lstrip_decimal by (apply Forall_reverse, H).
  apply reverse_involutive.
Qed.

Lemma digits_val_decimal (s : pystr) (acc : Z) (prev : bool) :
  Forall (λ c, isdecimal c = true) s →
  s ≠ [] ∨ prev = true →
  ∃ z, digits_val acc prev s = Some z.
Proof.
  intros H. revert acc prev.
  induction H as [|c s' Hc _ IH]; intros acc prev Hne; simpl.
  - destruct Hne as [Hne| ->]; [done|eauto].
  - rewrite Hc. apply IH. right. reflexivity.
Qed.

(** [int] reads every non-empty string of decimal digits. *)
Lemma int_of_str_decimal (s : pystr) :
  Forall (λ c, isdecimal c = true) s → s ≠ [] →
  ∃ z, int_of_str s = Ok z.
Proof.
  intros H Hne. unfold int_of_str. rewrite (strip_decimal s H).
  destruct s as [|c s']; [congruence|].
  assert (Hc : isdecimal c = true) by (inversion H; assumption).
  assert (c ≠ 45 ∧ c ≠ 43) as [H45 H43].
  { unfold isdecimal, in_range in Hc. apply andb_true_iff in Hc as [Hc _].
    apply N.leb_le in Hc. lia. }
  apply N.eqb_neq in H45, H43. rewrite H45, H43.
  destruct (digits_val_decimal (c :: s') 0%Z false H) as [z Hz]; [left; done|].
  rewrite Hz. eauto.
Qed.

(** [int] raises nothing but [ValueError]. *)
Lemma int_of_str_raises (s : pystr) (e : pyerr) :
  int_of_str s = Raise e → e = ValueError.
Proof.
  unfold int_of_str.
  destruct (match strip s with
            | c :: b => if c =? 45 then (true, b)
                        else if c =? 43 then (false, b) else (false, strip s)
            | [] => (false, strip s)
            end) as [neg body].
  destruct (digits_val 0%Z false body); [discriminate|]. congruence.
Qed.

End IntFacts.

Section GroupFacts.

Lemma take_taken (n : nat) (taken rest : pystr) :
  take (n + length taken - n) (taken ++ rest) = taken.
Proof.
  replace (n + length taken - n)%nat with (length taken) by lia.
  rewrite take_app_length. reflexivity.
Qed.

(** The groups of a match of [S(\d+)\.E(\d+)] are non-empty strings of
    decimal digits. *)
Lemma se_groups_decimal (code : pystr) (m : match_obj) :
  re_match RE_SE_GROUPS code = Some m →
  (Forall (λ c, isdecimal c = true) (group 1 m) ∧ group 1 m ≠ [])
  ∧ (Forall (λ c, isdecimal c = true) (group 2 m) ∧ group 2 m ≠ []).
Proof.
  unfold re_match. intros H.
  destruct (rx _ _ _ _) as [st|] eqn:E; [|discriminate].
  injection H as <-. unfold group. simpl m_end.
  cbn in E.
  destruct code as [|x s]; [discriminate|].
  destruct (lower_chr x =? _); [|discriminate].
  apply rep_sound in E as (d1 & r1 & prev1 & -> & Hd1 & Hn1 & E).
  cbn in E.
  destruct r1 as [|x0 [|x1 s1]]; try discriminate;
    destruct (lower_chr x0 =? _); try discriminate.
  destruct (lower_chr x1 =? _); [|discriminate].
  apply rep_sound in E as (d2 & r2 & prev2 & -> & Hd2 & Hn2 & E).
  injection E as <-. cbn.
  rewrite (take_taken 1 d1), (take_taken (S (S (1 + length d1))) d2).
  split; split; try assumption.
  - intros ->. simpl in Hn1. lia.
  - intros ->. simpl in Hn2. lia.
Qed.

Lemma se_groups_int (code : pystr) (m : match_obj) :
  re_match RE_SE_GROUPS code = Some m →
  ∃ s e, int_of_str (group 1 m) = Ok s ∧ int_of_str (group 2 m) = Ok e.
Proof.
  intros H. apply se_groups_decimal in H as [[H1 N1] [H2 N2]].
  destruct (int_of_str_decimal _ H1 N1) as [s Hs].
  destruct (int_of_str_decimal _ H2 N2) as [e He].
  eauto.
Qed.

End GroupFacts.

(* ====================================================================== *)
(** * The structural parser does not raise                                 *)
(* ====================================================================== *)

Ltac exc_simpl :=
  cbn [mbind exc_mbind exc_bind fmap exc_fmap mret exc_ret catch_ValueError].

Section Totality.

Lemma find_all_pred (f : node → bool) (n x : node) :
  x ∈ find_all f n → f x = true.
Proof.
  unfold find_all. rewrite list_elem_of_filter. intros [H _].
  apply andb_prop_elim in H as [_ H]. apply Is_true_true, H.
Qed.

Lemma find_pred (f : node → bool) (n x : node) :
  find f n = Some x → f x = true.
Proof.
  unfold find. intros H. apply head_Some_elem_of in H.
  apply (find_all_pred f n x H).
Qed.

Lemma getitem_present (n : node) (key : string) :
  attr_present key n = true → ∃ v, getitem n key = Ok v.
Proof.
  unfold attr_present, getitem, subscript, get.
  destruct (assoc (u key) (tag_attrs n)) as [v|]; [eauto|discriminate].
Qed.

Lemma getitem_attr_matches (n : node) (key : string) (p : pattern) :
  attr_matches key p n = true → ∃ v, getitem n key = Ok v.
Proof.
  unfold attr_matches, getitem, subscript, get.
  destruct (assoc (u key) (tag_attrs n)) as [v|]; [eauto|discriminate].
Qed.

Lemma first_item_nonempty {A} (l : list A) :
  nonempty l = true → ∃ x, first_item l = Ok x.
Proof. destruct l; [discriminate|]. simpl. eauto. Qed.

Lemma last_item_nonempty {A} (l : list A) :
  nonempty l = true → ∃ x, last_item l = Ok x ∧ last l = Some x.
Proof.
  intros H. unfold last_item.
  destruct (last l) as [x|] eqn:E; [eauto|].
  apply last_None in E. subst l. discriminate.
Qed.

Lemma series_name_step_ok (soup : node) (meta : SeriesMetadata) :
  ∃ m, series_name_step soup meta = Ok m.
Proof.
  unfold series_name_step.
  destruct (find (testid_is "hero__pageTitle") soup); [eauto|].
  destruct (find (named ["title"%string]) soup); [eauto|].
  destruct (find _ soup) as [og|]; [|eauto].
  unfold getitem, subscript, get.
  destruct (assoc (u "content") (tag_attrs og)) as [c|]; simpl.
  - destruct (nonempty c); exc_simpl; eauto.
  - eauto.
Qed.

Lemma score_step_ok (agg : node) (meta : SeriesMetadata) :
  ∃ m, score_step agg meta = Ok m ∧ rating_count m = rating_count meta.
Proof.
  unfold score_step. destruct (find _ agg) as [score_div|]; [|eauto].
  cbv zeta. destruct (nonempty _) eqn:E; [|eauto].
  destruct (first_item_nonempty _ E) as [x ->]. exc_simpl. eauto.
Qed.

Lemma votes_step_ok (agg : node) (meta : SeriesMetadata) :
  ∃ m, votes_step agg meta = Ok m
       ∧ rating_count m
         = match last (findall1 RE_VOTES (get_text_strip " " agg)) with
           | Some count => Some count
           | None => rating_count meta
           end.
Proof.
  unfold votes_step. cbv zeta. destruct (nonempty _) eqn:E.
  - destruct (last_item_nonempty _ E) as (x & -> & ->). exc_simpl. eauto.
  - destruct (findall1 _ _); [|discriminate]. simpl. eauto.
Qed.

Lemma rating_step_ok (soup : node) (meta : SeriesMetadata) :
  ∃ m, rating_step soup meta = Ok m.
Proof.
  unfold rating_step. destruct (find _ soup) as [agg|]; [|eauto].
  destruct (score_step_ok agg meta) as (m1 & -> & _). exc_simpl.
  destruct (votes_step_ok agg m1) as (m2 & -> & _). eauto.
Qed.


Lemma foldE_ok {A B} (f : B → A → exc B) (l : list A) (b : B) :
  (∀ b x, ∃ b', f b x = Ok b') → ∃ b', foldE f b l = Ok b'.
Proof.
  intros Hf. revert b. induction l as [|x l IH]; intros b; simpl; [eauto|].
  destruct (Hf b x) as [b' ->]. exc_simpl. apply IH.
Qed.

Lemma mapE_ok {A B} (f : A → exc B) (l : list A) :
  (∀ x, ∃ y, f x = Ok y) →
  ∃ ys, mapE f l = Ok ys ∧ Forall2 (λ x y, f x = Ok y) l ys.
Proof.
  intros Hf. induction l as [|x l (ys & IH & Hall)]; simpl.
  - exists []. split; [reflexivity|constructor].
  - destruct (Hf x) as [y Hy]. rewrite Hy, IH. exc_simpl.
    exists (y :: ys). split; [reflexivity|]. constructor; assumption.
Qed.

Lemma srcset_entry_ok (candidates : list (Z * pystr)) (entry : pystr) :
  ∃ c, srcset_entry candidates entry = Ok c.
Proof.
  unfold srcset_entry.
  destruct (rsplit1 entry) as [|url [|descriptor [|]]]; eauto.
  destruct (int_of_str _) as [w|e] eqn:E; exc_simpl; [eauto|].
  rewrite (int_of_str_raises _ _ E). eauto.
Qed.

Lemma best_image_ok (img : node) : ∃ r, _best_image img = Ok r.
Proof.
  unfold _best_image. cbv zeta. destruct (nonempty (get_or_empty _ _)); [|eauto].
  destruct (foldE_ok srcset_entry
              (re_split RE_SRCSET_SEP (strip (get_or_empty img "srcset"))) []
              srcset_entry_ok) as [c ->].
  exc_simpl. destruct c as [|x c]; simpl; eauto.
Qed.

Lemma find_title_text_ok (card : node) : ∃ r, _find_title_text card = Ok r.
Proof.
  unfold _find_title_text.
  destruct (find (testid_is _) card); [eauto|].
  destruct (filter _ _); [|eauto].
  destruct (find _ card) as [link|] eqn:E; [|eauto].
  apply find_pred in E. apply andb_true_iff in E as [_ E].
  apply getitem_present, E.
Qed.

Lemma find_description_ok (card : node) : ∃ r, _find_description card = Ok r.
Proof.
  unfold _find_description.
  destruct (omap _ _); [|eauto].
  destruct (filter _ _); [|eauto]. cbv zeta.
  destruct (filter _ _); simpl; eauto.
Qed.

Lemma cover_by_size_ok (imgs : list node) : ∃ r, cover_by_size imgs = Ok r.
Proof.
  induction imgs as [|img imgs IH]; simpl; [eauto|].
  assert (∃ r, catch_ValueError
                 (big ← width_at_least_80 img;
                  if big : bool then best ← _best_image img; Ok (Some best)
                  else Ok None) (Ok None) = Ok r) as [r Hr].
  { unfold width_at_least_80.
    destruct (get img "width") as [w|].
    - destruct (int_of_str w) as [z|e] eqn:E; exc_simpl.
      + destruct (80 <=? z)%Z; [|eauto].
        destruct (best_image_ok img) as [b ->]. exc_simpl. eauto.
      + rewrite (int_of_str_raises _ _ E). eauto.
    - exc_simpl. destruct (80 <=? 0)%Z; [|eauto].
      destruct (best_image_ok img) as [b ->]. exc_simpl. eauto. }
  rewrite Hr. exc_simpl. destruct r; [eauto|].
  cbv zeta. destruct (_ && _); [apply best_image_ok|exact IH].
Qed.

Lemma find_cover_image_ok (card : node) : ∃ r, _find_cover_image card = Ok r.
Proof.
  unfold _find_cover_image. cbv zeta.
  destruct (filter _ _); [apply cover_by_size_ok|apply best_image_ok].
Qed.

Lemma link_with_ref_ok (links : list node) :
  Forall (λ a, attr_present "href" a = true) links →
  ∃ r, link_with_ref links = Ok r.
Proof.
  induction 1 as [|a links Ha _ IH]; simpl; [eauto|].
  destruct (getitem_present a "href" Ha) as [href ->]. exc_simpl.
  destruct (_ && _); eauto.
Qed.

Lemma find_episode_link_ok (card : node) : ∃ r, _find_episode_link card = Ok r.
Proof.
  unfold _find_episode_link.
  destruct (link_with_ref_ok
              (find_all (λ n, named ["a"%string] n && attr_present "href" n) card))
    as [r ->].
  { apply Forall_forall. intros a Ha. apply find_all_pred in Ha.
    apply andb_true_iff in Ha as [_ Ha]. exact Ha. }
  exc_simpl. destruct r; [eauto|].
  destruct (find _ card) as [a|] eqn:E; [|eauto].
  apply find_pred in E. apply andb_true_iff in E as [_ E].
  destruct (getitem_attr_matches a "href" _ E) as [href ->]. exc_simpl. eauto.
Qed.

Lemma item_ok {A} (l : list A) (i : nat) :
  (i < length l)%nat → ∃ x, item l i = Ok x.
Proof.
  intros H. unfold item. destruct (lookup_lt_is_Some_2 l i H) as [x ->]. eauto.
Qed.

(** Every card yields an episode. *)
Lemma parse_card_ok (card : node) : ∃ ep, parse_card card = Ok ep.
Proof.
  unfold parse_card.
  destruct (find_title_text_ok card) as [raw ->]. exc_simpl. cbv zeta.
  assert (∃ code, (if nonempty (re_split1 RE_DOT_SEP raw)
                   then strip <$> item (re_split1 RE_DOT_SEP raw) 0
                   else Ok []) = Ok code) as [code ->].
  { destruct (re_split1 RE_DOT_SEP raw); simpl; eauto. }
  exc_simpl.
  assert (∃ t, (if (1 <? length (re_split1 RE_DOT_SEP raw))%nat
                then strip <$> item (re_split1 RE_DOT_SEP raw) 1
                else Ok raw) = Ok t) as [t ->].
  { destruct (1 <? _)%nat eqn:E; [|eauto]. apply Nat.ltb_lt in E.
    destruct (item_ok _ 1 E) as [x ->]. exc_simpl. eauto. }
  exc_simpl.
  destruct (re_match RE_SE_GROUPS code) as [m|] eqn:E.
  - destruct (se_groups_int code m E) as (s & e & -> & ->). exc_simpl.
    destruct (find_description_ok card) as [d ->]. exc_simpl.
    destruct (find_cover_image_ok card) as [c ->]. exc_simpl.
    destruct (find_episode_link_ok card) as [l ->]. exc_simpl. eauto.
  - exc_simpl.
    destruct (find_description_ok card) as [d ->]. exc_simpl.
    destruct (find_cover_image_ok card) as [c ->]. exc_simpl.
    destruct (find_episode_link_ok card) as [l ->]. exc_simpl. eauto.
Qed.

(** [parse_episodes] returns one episode per card, in card order. *)
Lemma parse_episodes_ok (soup : node) :
  ∃ eps, parse_episodes soup = Ok eps
         ∧ Forall2 (λ card ep, parse_card card = Ok ep)
                   (_find_episode_cards soup) eps.
Proof. apply mapE_ok, parse_card_ok. Qed.

End Totality.

Section Defaults.

(** Documents without any element: text only. *)
Definition text_only (n : node) : Prop :=
  Forall (λ d, is_tag d = false) (descendants n).

Lemma text_only_find_all (f : node → bool) (n : node) :
  text_only n → find_all f n = [].
Proof.
  unfold text_only, find_all. induction 1 as [|d l Hd _ IH]; [reflexivity|].
  rewrite filter_cons_False; [exact IH|]. rewrite Hd. simpl. tauto.
Qed.



Lemma text_only_select_option (n : node) : text_only n → select_option n = [].
Proof.
  unfold text_only, descendants, select_option. intros H.
  apply Forall_fmap in H.
  assert (E : filter (λ p : list node * node,
                        is_tag p.2 && named ["option"%string] p.2
                        && existsb (named ["select"%string]) p.1)
                     (walk [] n) = []).
  { induction H as [|p l Hp _ IH]; [reflexivity|].
    rewrite filter_cons_False; [exact IH|]. simpl in Hp. rewrite Hp. simpl. tauto. }
  rewrite E. reflexivity.
Qed.


Lemma text_only_no_cards (soup : node) :
  text_only soup → _find_episode_cards soup = [].
Proof.
  intros H. unfold _find_episode_cards.
  rewrite !(text_only_find_all _ _ H). reflexivity.
Qed.



End Defaults.


(** The page [<html></html>], and a card that is only a line of text. *)
Definition empty_page : node := document [elem "html" [] []].



(* ====================================================================== *)
(** * One episode per card                                                 *)
(* ====================================================================== *)

Section EpisodeIdentity.





End EpisodeIdentity.

(** A season page that shows the first episode twice, once among the
    top-rated episodes and once in the list. *)
Definition episode_card (code title tt : string) : node :=
  elem "article" []
    [elem "a" [("href", "/title/" ++ tt ++ "/?ref_=ttep_ep1")%string]
       [txt title];
     elem "div" [("data-testid", "slate-list-card-title")%string]
       [Text (u code ++ [32; 8729; 32] ++ u title)]].

Definition page_with_repeat : node :=
  document [episode_card "S1.E1" "Asta and Yuno" "tt7462664";
            episode_card "S1.E2" "The Boys' Promise" "tt7462670";
            episode_card "S1.E1" "Asta and Yuno" "tt7462664"].


(* ====================================================================== *)
(** * The vote count is the last match                                     *)
(* ====================================================================== *)

Section VoteCount.

Lemma popularity_step_rating_count (soup : node) (m : SeriesMetadata) :
  rating_count (popularity_step soup m) = rating_count m.
Proof. unfold popularity_step. destruct (find _ soup); reflexivity. Qed.

Lemma tags_step_rating_count (soup : node) (m : SeriesMetadata) :
  rating_count (tags_step soup m) = rating_count m.
Proof. unfold tags_step. cbv zeta. destruct (nonempty _); reflexivity. Qed.

(** The matches of ["/10 <count>"] in the text of the rating block. *)
Definition vote_matches (agg : node) : list pystr :=
  findall1 RE_VOTES (get_text_strip " " agg).

(** C4.  When the text of the aggregate-rating block has two or more
    matches of the ["/10 <count>"] pattern, the vote count of the metadata
    is the count captured by the last match; it is the count of the first
    match only if both captured the same text. *)
Theorem C4_vote_count_is_last_match
    (soup agg : node) (title_id : pystr) :
  find (testid_is "hero-rating-bar__aggregate-rating") soup = Some agg →
  (2 ≤ length (vote_matches agg))%nat →
  ∃ m, parse_series_metadata soup title_id = Ok m
       ∧ rating_count m = last (vote_matches agg)
       ∧ (rating_count m = head (vote_matches agg) →
          head (vote_matches agg) = last (vote_matches agg)).
Proof.
  intros Hagg Hlen. unfold parse_series_metadata. cbv zeta.
  destruct (series_name_step_ok soup (SeriesMetadata_new title_id title_id))
    as [m1 ->]. exc_simpl.
  unfold rating_step. rewrite Hagg.
  destruct (score_step_ok agg (hero_list_step soup m1)) as (m2 & -> & _).
  exc_simpl.
  destruct (votes_step_ok agg m2) as (m3 & -> & Hcount). exc_simpl.
  eexists. split; [reflexivity|].
  rewrite tags_step_rating_count, popularity_step_rating_count, Hcount.
  fold (vote_matches agg).
  destruct (last (vote_matches agg)) as [count|] eqn:E.
  - split; [reflexivity|]. intros <-. reflexivity.
  - apply last_None in E. rewrite E in Hlen. simpl in Hlen. lia.
Qed.

End VoteCount.

(** The rating block of a title page: the score, its repetition, and the
    number of votes. *)
Definition rating_block : node :=
  elem "div" [("data-testid", "hero-rating-bar__aggregate-rating")%string]
    [elem "a" [("href", "/title/tt7441658/ratings/")%string]
       [elem "div"
          [("data-testid", "hero-rating-bar__aggregate-rating__score")%string]
          [elem "span" [] [txt "8.2"]; elem "span" [] [txt "/10"]]];
     elem "div" [] [txt "8.2 / 10  47K"]].

Example rating_block_matches : vote_matches rating_block = [u "8.2"; u "47K"].
Proof. reflexivity. Qed.

Lemma C4_vote_count_witness :
  ∃ m, parse_series_metadata (document [rating_block]) (u "tt7441658") = Ok m
       ∧ rating_count m = Some (u "47K")
       ∧ (rating_count m = Some (u "8.2") → Some (u "8.2") = Some (u "47K")).
Proof.
  apply (C4_vote_count_is_last_match (document [rating_block]) rating_block
           (u "tt7441658")).
  - reflexivity.
  - vm_compute. lia.
Defined.

(* ====================================================================== *)
(** * Season discovery                                                     *)
(* ====================================================================== *)

Section SeasonNumbers.

Lemma elem_of_add_all (l : list Z) (found : gset Z) (n : Z) :
  n ∈ add_all found l ↔ n ∈ found ∨ n ∈ l.
Proof.
  unfold add_all. revert found.
  induction l as [|x l IH]; intros found; simpl.
  - rewrite elem_of_nil. tauto.
  - rewrite IH, elem_of_union, elem_of_singleton, elem_of_cons. tauto.
Qed.

Lemma add_all_empty (l : list Z) : add_all ∅ l = ∅ ↔ l = [].
Proof.
  split.
  - intros H. destruct l as [|x l]; [reflexivity|].
    assert (Hx : x ∈ add_all ∅ (x :: l)).
    { apply elem_of_add_all. right. left. }
    rewrite H in Hx. apply not_elem_of_empty in Hx. destruct Hx.
  - intros ->. reflexivity.
Qed.

Lemma strictly_sorted (l : list Z) :
  StronglySorted Z.le l → NoDup l → StronglySorted Z.lt l.
Proof.
  induction 1 as [|x l Hs IH Hx]; intros Hnd; [constructor|].
  apply NoDup_cons in Hnd as [Hnotin Hnd].
  constructor; [apply IH, Hnd|].
  apply Forall_forall. intros y Hy.
  rewrite Forall_forall in Hx. specialize (Hx y Hy).
  assert (x ≠ y) by (intros ->; apply Hnotin, Hy). lia.
Qed.

(** [sorted(found)] is strictly increasing, hence free of duplicates, and
    holds the members of [found]. *)
Lemma sorted_spec (found : gset Z) :
  StronglySorted Z.lt (sorted found) ∧ ∀ n, n ∈ sorted found ↔ n ∈ found.
Proof.
  unfold sorted. split.
  - apply strictly_sorted.
    + apply StronglySorted_merge_sort; apply _.
    + rewrite merge_sort_Permutation. apply NoDup_elements.
  - intros n. rewrite merge_sort_Permutation. apply elem_of_elements.
Qed.

(** The list of numbers of the first strategy that finds any. *)
Definition first_nonempty_strategy (soup : node) : exc (list Z) :=
  tabs ← season_tabs soup;
  if nonempty tabs then Ok tabs
  else
    options ← season_options soup;
    if nonempty options then Ok options else season_links soup.

(** X1.  Whenever season discovery returns, its list is strictly increasing
    (sorted, no duplicates) and holds exactly the numbers found by the
    first of the three strategies -- tab markers, [<select>] options,
    [season=] links -- that finds any. *)
Theorem season_numbers_sorted_unique (soup : node) (l : list Z) :
  parse_season_numbers soup = Ok l →
  StronglySorted Z.lt l
  ∧ ∃ chosen, first_nonempty_strategy soup = Ok chosen
              ∧ ∀ n, n ∈ l ↔ n ∈ chosen.
Proof.
  unfold parse_season_numbers, first_nonempty_strategy.
  destruct (season_tabs soup) as [tabs|e]; exc_simpl; [|discriminate].
  cbv zeta. destruct tabs as [|t tabs].
  - change (add_all ∅ []) with (∅ : gset Z).
    rewrite bool_decide_eq_true_2 by reflexivity. simpl nonempty. cbv iota.
    destruct (season_options soup) as [options|e]; exc_simpl; [|discriminate].
    destruct options as [|o options].
    + change (add_all ∅ []) with (∅ : gset Z).
      rewrite bool_decide_eq_true_2 by reflexivity. simpl nonempty. cbv iota.
      destruct (season_links soup) as [links|e]; exc_simpl; [|discriminate].
      intros [= <-]. destruct (sorted_spec (add_all ∅ links)) as [Hs Hm].
      split; [exact Hs|]. exists links. split; [reflexivity|].
      intros n. rewrite Hm, elem_of_add_all, elem_of_empty. tauto.
    + rewrite bool_decide_eq_false_2
        by (rewrite add_all_empty; discriminate).
      exc_simpl. intros [= <-].
      destruct (sorted_spec (add_all ∅ (o :: options))) as [Hs Hm].
      split; [exact Hs|]. exists (o :: options). split; [reflexivity|].
      intros n. rewrite Hm, elem_of_add_all, elem_of_empty. tauto.
  - rewrite bool_decide_eq_false_2
      by (rewrite add_all_empty; discriminate).
    exc_simpl.
    rewrite bool_decide_eq_false_2
      by (rewrite add_all_empty; discriminate).
    exc_simpl. intros [= <-].
    destruct (sorted_spec (add_all ∅ (t :: tabs))) as [Hs Hm].
    split; [exact Hs|]. exists (t :: tabs). split; [reflexivity|].
    intros n. rewrite Hm, elem_of_add_all, elem_of_empty. tauto.
Qed.

End SeasonNumbers.

(** Season tabs 3, 1, 2, 1. *)
Definition season_tab (label : pystr) : node :=
  Tag (u "li") [(u "data-testid", u "tab-season-entry")] [Text label].

Definition tabs_3121 : node :=
  document [season_tab (u "3"); season_tab (u "1"); season_tab (u "2");
            season_tab (u "1")].

Example season_numbers_3121 : parse_season_numbers tabs_3121 = Ok [1; 2; 3]%Z.
Proof. reflexivity. Qed.

Lemma season_numbers_sorted_witness :
  StronglySorted Z.lt [1; 2; 3]%Z
  ∧ ∃ chosen, first_nonempty_strategy tabs_3121 = Ok chosen
              ∧ ∀ n, n ∈ [1; 2; 3]%Z ↔ n ∈ chosen.
Proof.
  apply (season_numbers_sorted_unique tabs_3121 [1; 2; 3]%Z). reflexivity.
Defined.

(** A season tab labelled with the superscript digit U+00B2: [isdigit]
    accepts the label, [int] does not read it. *)
Definition superscript_tab : node := document [season_tab [178]].

(** C8 (failing input).  On a page with a season tab labelled "²" season
    discovery does not return a list: the label passes [isdigit()], then
    [int] raises [ValueError], which nothing catches. *)
Lemma C8_superscript_tab_raises :
  get_text_strip "" (season_tab [178]) = [178]
  ∧ isdigit [178] = true
  ∧ int_of_str [178] = Raise ValueError
  ∧ parse_season_numbers superscript_tab = Raise ValueError.
Proof. repeat split; reflexivity. Qed.

(* ====================================================================== *)
(** * [save] then [load]                                                   *)
(* ====================================================================== *)

Section DecimalRoundTrip.









End DecimalRoundTrip.

Section JsonRoundTrip.












End JsonRoundTrip.

(** The aggregate of the package's round-trip test. *)
Definition test_show : TitleInfo :=
  mkTitleInfo
    (mkSeriesMetadata (u "tt9999999") (u "Test Show") None None None None
       (Some (u "9.0/10")) None None [u "Action"; u "Drama"])
    {[ 1%Z := [mkEpisode (u "S1.E1") (u "Pilot") 1 1 (u "Mon, Jan 1, 2024")
                 (u "The first episode.") (u "9.0/10 (5K)") None None []] ]}.

Example to_dict_season_keys :
  match to_dict test_show with
  | JObj d => match assoc (u "seasons") d with
              | Some (JObj items) => items.*1
              | _ => []
              end
  | _ => []
  end = [u "1"].
Proof. reflexivity. Qed.


(* ====================================================================== *)
(** * Best-image selection from a [srcset]                                 *)
(* ====================================================================== *)

Section MatcherOnText.





End MatcherOnText.

Section SrcsetSeparator.








Lemma space_not_comma (x : pychar) : isspace x = true → x ≠ 44.
Proof. intros H ->. discriminate H. Qed.



End SrcsetSeparator.

Section SrcsetEntries.

(** A [srcset] as the claim describes it: entries [url width-descriptor]
    separated by a comma and a space; the URLs are absolute http(s) URLs
    without white space (they may contain commas). *)
Definition descriptor (w : N) : pystr := str_of_N w ++ u "w".

Definition render (e : pystr * N) : pystr := e.1 ++ u " " ++ descriptor e.2.

Definition srcset_of (entries : list (pystr * N)) : pystr :=
  join (u ", ") (render <$> entries).















End SrcsetEntries.

Section SrcsetSplit.





Lemma lstrip_head (c : pychar) (s : pystr) :
  isspace c = false → lstrip (c :: s) = c :: s.
Proof. intros H. cbn [lstrip]. rewrite H. reflexivity. Qed.

Lemma strip_ends (s : pystr) (c1 c2 : pychar) :
  head s = Some c1 → last s = Some c2 →
  isspace c1 = false → isspace c2 = false → strip s = s.
Proof.
  intros Hh Hl H1 H2. unfold strip, rstrip.
  destruct s as [|x s]; [discriminate|]. injection Hh as ->.
  rewrite (lstrip_head c1 s H1).
  rewrite <- head_reverse in Hl.
  destruct (reverse (c1 :: s)) as [|y r] eqn:E; [discriminate|].
  injection Hl as ->. rewrite (lstrip_head c2 r H2), <- E.
  apply reverse_involutive.
Qed.




End SrcsetSplit.

Section SrcsetCandidates.

Lemma take_while_app_stop {A} (p : A → bool) (l1 l2 : list A) (x : A) :
  Forall (λ y, p y = true) l1 → p x = false →
  take_while p (l1 ++ x :: l2) = l1 ∧ drop_while p (l1 ++ x :: l2) = x :: l2.
Proof.
  intros H Hx. induction H as [|y l1 Hy _ [IH1 IH2]]; cbn.
  - rewrite Hx. split; reflexivity.
  - rewrite Hy, IH1, IH2. split; reflexivity.
Qed.

Lemma lstrip_nospace (s : pystr) :
  Forall (λ c, isspace c = false) s → lstrip s = s.
Proof. intros [|c s' Hc _]; [reflexivity|]. apply lstrip_head, Hc. Qed.

Lemma strip_nospace (s : pystr) :
  Forall (λ c, isspace c = false) s → strip s = s.
Proof.
  intros H. unfold strip, rstrip. rewrite (lstrip_nospace s H).
  rewrite lstrip_nospace by (apply Forall_reverse, H).
  apply reverse_involutive.
Qed.








End SrcsetCandidates.

Section LargestCandidate.











End LargestCandidate.

Section BestImage.



End BestImage.


(** The three renditions of a cover on the media CDN; their URLs contain
    commas. *)
Definition cover_320 : pystr * N :=
  (u "https://m.media-amazon.com/images/M/ABC._V1_QL75_UX320_CR0,0,320,180_.jpg", 320).
Definition cover_640 : pystr * N :=
  (u "https://m.media-amazon.com/images/M/ABC._V1_QL75_UX640_CR0,0,640,360_.jpg", 640).
Definition cover_1000 : pystr * N :=
  (u "https://m.media-amazon.com/images/M/ABC._V1_QL75_UX1000_CR0,0,1000,563_.jpg", 1000).

Definition img_with (entries : list (pystr * N)) : node :=
  Tag (u "img") [(u "srcset", srcset_of entries); (u "src", cover_320.1)] [].


Example best_image_every_order :
  (λ entries, _best_image (img_with entries))
    <$> permutations [cover_320; cover_640; cover_1000]
  = replicate 6 (Ok (Some cover_1000.1)).
Proof. vm_compute. reflexivity. Qed.


(* ====================================================================== *)
(** * The helpers of [TitleInfo] ([imdbx/models.py])                       *)
(* ====================================================================== *)

Module Aggregate.

(** [TitleInfo.all_episodes]: the loop extends [result] with each value of
    [seasons], in the order of the dict. *)
Definition all_episodes (t : TitleInfo) : list Episode :=
  foldl (λ result eps, result ++ eps) [] (snd <$> map_to_list (seasons t)).

(** [TitleInfo.episode_count]: [sum(len(v) for v in self.seasons.values())]. *)
Definition episode_count (t : TitleInfo) : nat :=
  foldl (λ total v, total + length v)%nat 0%nat
        (snd <$> map_to_list (seasons t)).

(** [TitleInfo.season_count]. *)
Definition season_count (t : TitleInfo) : nat := size (seasons t).

End Aggregate.
Export Aggregate.

Section AggregateFacts.

Lemma foldl_extend {A} (ls : list (list A)) (acc : list A) :
  foldl (λ result eps, result ++ eps) acc ls = acc ++ concat ls.
Proof.
  revert acc. induction ls as [|l ls IH]; intros acc; simpl.
  - rewrite app_nil_r. reflexivity.
  - rewrite IH, app_assoc. reflexivity.
Qed.

Lemma foldl_total {A} (ls : list (list A)) (acc : nat) :
  foldl (λ total v, total + length v)%nat acc ls
  = (acc + length (concat ls))%nat.
Proof.
  revert acc. induction ls as [|l ls IH]; intros acc; simpl.
  - lia.
  - rewrite IH, length_app. lia.
Qed.

Lemma elem_of_concat {A} (x : A) (ls : list (list A)) :
  x ∈ concat ls ↔ ∃ l, x ∈ l ∧ l ∈ ls.
Proof.
  induction ls as [|l ls IH]; simpl.
  - split; [intros H; inversion H|intros (l & _ & H); inversion H].
  - rewrite elem_of_app, IH. split.
    + intros [H|(l' & H1 & H2)].
      * exists l. split; [exact H|left].
      * exists l'. split; [exact H1|right; exact H2].
    + intros (l' & H1 & H2). apply elem_of_cons in H2 as [->|H2].
      * left. exact H1.
      * right. exists l'. split; assumption.
Qed.

Lemma all_episodes_concat (t : TitleInfo) :
  all_episodes t = concat (snd <$> map_to_list (seasons t)).
Proof. unfold all_episodes. rewrite foldl_extend. reflexivity. Qed.

Lemma elem_of_all_episodes (t : TitleInfo) (ep : Episode) :
  ep ∈ all_episodes t ↔ ∃ s eps, seasons t !! s = Some eps ∧ ep ∈ eps.
Proof.
  rewrite all_episodes_concat, elem_of_concat. split.
  - intros (eps & Hep & Heps).
    apply list_elem_of_fmap in Heps as ([s eps'] & -> & Hin).
    apply elem_of_map_to_list in Hin. exists s, eps'. split; assumption.
  - intros (s & eps & Hs & Hep). exists eps. split; [exact Hep|].
    apply list_elem_of_fmap. exists (s, eps). split; [reflexivity|].
    apply elem_of_map_to_list, Hs.
Qed.

(** The first element a filter keeps, with what stands before it. *)
Lemma head_filter_split {A} (P : A → Prop) `{!∀ x, Decision (P x)}
    (l : list A) :
  match head (filter P l) with
  | Some x => ∃ pre post, l = pre ++ x :: post ∧ P x
                          ∧ Forall (λ y, ¬ P y) pre
  | None => Forall (λ y, ¬ P y) l
  end.
Proof.
  induction l as [|y l IH]; [constructor|].
  destruct (decide (P y)) as [Hy|Hy].
  - rewrite filter_cons_True by exact Hy. simpl.
    exists [], l. split; [reflexivity|]. split; [exact Hy|constructor].
  - rewrite filter_cons_False by exact Hy.
    destruct (head (filter P l)) as [x|].
    + destruct IH as (pre & post & -> & Hx & Hpre).
      exists (y :: pre), post. split; [reflexivity|].
      split; [exact Hx|]. constructor; assumption.
    + constructor; assumption.
Qed.

(** X2.  [get_episode(s, e)] returns the first episode of season [s] whose
    number is [e]; it returns [None] exactly when season [s] is missing or
    none of its episodes has that number. *)
Theorem get_episode_first_match (t : TitleInfo) (s e : Z) :
  match get_episode t s e with
  | Some ep =>
      ∃ pre post, seasons t !! s = Some (pre ++ ep :: post)
                  ∧ episode ep = e
                  ∧ Forall (λ x, episode x ≠ e) pre
  | None =>
      ∀ eps, seasons t !! s = Some eps → Forall (λ x, episode x ≠ e) eps
  end.
Proof.
  unfold get_episode.
  pose proof (head_filter_split (λ ep, bool_decide (episode ep = e))
                (default [] (seasons t !! s))) as H.
  destruct (head _) as [ep|].
  - destruct H as (pre & post & Heq & Hep & Hpre).
    destruct (seasons t !! s) as [eps|]; simpl in Heq;
      [|destruct pre; discriminate].
    subst eps. exists pre, post. split; [reflexivity|].
    split; [apply bool_decide_unpack in Hep; exact Hep|].
    eapply Forall_impl; [exact Hpre|]. intros x Hx Hxe. apply Hx.
    apply bool_decide_pack, Hxe.
  - intros eps Hs. rewrite Hs in H. simpl in H.
    eapply Forall_impl; [exact H|]. intros x Hx Hxe. apply Hx.
    apply bool_decide_pack, Hxe.
Qed.

(** X3.  [all_episodes] holds exactly the episodes of the seasons,
    [episode_count] is its length, and what [get_episode] finds is in it. *)
Theorem all_episodes_collects_seasons (t : TitleInfo) :
  length (all_episodes t) = episode_count t
  ∧ (∀ ep, ep ∈ all_episodes t
           ↔ ∃ s eps, seasons t !! s = Some eps ∧ ep ∈ eps)
  ∧ (∀ s e ep, get_episode t s e = Some ep → ep ∈ all_episodes t)
  ∧ (season_count t = 0%nat ↔ seasons t = ∅)
  ∧ (season_count t = 0%nat → all_episodes t = [] ∧ episode_count t = 0%nat).
Proof.
  split; [|split; [|split; [|split]]].
  - rewrite all_episodes_concat. unfold episode_count.
    rewrite foldl_total. reflexivity.
  - apply elem_of_all_episodes.
  - intros s e ep H. apply elem_of_all_episodes.
    unfold get_episode in H. apply head_filter_elem in H as [Hin _].
    destruct (seasons t !! s) as [eps|] eqn:Hs; simpl in Hin.
    + exists s, eps. split; [exact Hs|exact Hin].
    + inversion Hin.
  - unfold season_count. apply map_size_empty_iff.
  - unfold season_count. intros H. apply map_size_empty_iff in H.
    unfold all_episodes, episode_count. rewrite H, map_to_list_empty.
    split; reflexivity.
Qed.

End AggregateFacts.

(* ====================================================================== *)
(** * Word wrapping ([imdbx/_display.py])                                  *)
(* ====================================================================== *)

Module Display.

(** [text.split()]: the maximal runs of characters that are not white
    space. *)
Definition str_split (text : pystr) : list pystr :=
  words_from (length text) text.

(** The body of the loop of [_wrap]: [lines] and [cur] after the word [w]. *)
Definition wrap_step (width : Z) (st : list pystr * pystr) (w : pystr)
    : list pystr * pystr :=
  let '(lines, cur) := st in
  if nonempty cur
     && (width <? Z.of_nat (length cur) + 1 + Z.of_nat (length w))%Z
  then (lines ++ [cur], w)
  else (lines, strip (cur ++ u " " ++ w)).

Definition _wrap (text : pystr) (width : Z) : list pystr :=
  if nonempty text then
    let '(lines, cur) := foldl (wrap_step width) ([], []) (str_split text) in
    let lines := if nonempty cur then lines ++ [cur] else lines in
    if nonempty lines then lines else [[]]
  else [[]].

End Display.
Export Display.

Section WrapFacts.

(** A word: not empty, no white space in it. *)
Definition word (w : pystr) : Prop :=
  w ≠ [] ∧ Forall (λ c, isspace c = false) w.

(** The line made of the words [g]. *)
Definition line_of (g : list pystr) : pystr := join (u " ") g.

Lemma lstrip_starts (s : pystr) (c : pychar) (r : pystr) :
  lstrip s = c :: r → isspace c = false.
Proof.
  induction s as [|x s IH]; simpl; [discriminate|].
  destruct (isspace x) eqn:E; [exact IH|].
  intros [= <- _]. exact E.
Qed.

Lemma take_while_run (s : pystr) :
  Forall (λ c, isspace c = false) (take_while (λ c, negb (isspace c)) s).
Proof.
  induction s as [|x s IH]; simpl; [constructor|].
  destruct (isspace x) eqn:E; simpl; [constructor|].
  constructor; assumption.
Qed.

Lemma words_from_words (fuel : nat) (s : pystr) :
  Forall word (words_from fuel s).
Proof.
  revert s. induction fuel as [|fuel IH]; intros s; cbn [words_from];
    [constructor|].
  destruct (lstrip s) as [|c r] eqn:E; [constructor|].
  constructor; [|apply IH]. split; [|apply take_while_run].
  cbn [take_while]. rewrite (lstrip_starts s c r E). cbn [negb]. discriminate.
Qed.

Lemma str_split_words (text : pystr) : Forall word (str_split text).
Proof. apply words_from_words. Qed.

Lemma line_of_snoc (g : list pystr) (w : pystr) :
  g ≠ [] → line_of (g ++ [w]) = line_of g ++ u " " ++ w.
Proof.
  unfold line_of. induction g as [|x g IH]; [done|]. intros _.
  destruct g as [|y g]; [reflexivity|].
  change (join (u " ") ((x :: y :: g) ++ [w]))
    with (x ++ u " " ++ join (u " ") ((y :: g) ++ [w])).
  rewrite IH by discriminate.
  change (join (u " ") (x :: y :: g)) with (x ++ u " " ++ join (u " ") (y :: g)).
  rewrite <- !app_assoc. reflexivity.
Qed.

Lemma line_of_app (g1 g2 : list pystr) :
  g1 ≠ [] → g2 ≠ [] →
  line_of (g1 ++ g2) = line_of g1 ++ u " " ++ line_of g2.
Proof.
  intros H1 H2. revert g1 H1.
  induction g2 as [|w g2 IH] using rev_ind; [done|]. intros g1 H1.
  destruct (decide (g2 = [])) as [->|Hg2].
  - apply line_of_snoc, H1.
  - rewrite app_assoc, line_of_snoc by (destruct g1; [done|discriminate]).
    rewrite IH by assumption.
    rewrite line_of_snoc by exact Hg2.
    rewrite <- !app_assoc. reflexivity.
Qed.

(** A line of words starts and ends with a character that is not white
    space. *)
Lemma line_of_ends (g : list pystr) :
  g ≠ [] → Forall word g →
  ∃ c1 c2, head (line_of g) = Some c1 ∧ last (line_of g) = Some c2
           ∧ isspace c1 = false ∧ isspace c2 = false.
Proof.
  intros Hne Hg. induction Hg as [|w g [Hw Hws] Hg IH]; [done|].
  destruct w as [|c1 w]; [done|].
  destruct g as [|w2 g].
  - destruct (last (c1 :: w)) as [c2|] eqn:El;
      [|apply last_None in El; discriminate].
    exists c1, c2. repeat split; try assumption.
    + inversion Hws; assumption.
    + apply last_Some in El as [l' El]. rewrite El in Hws.
      apply Forall_app in Hws as [_ Hws]. inversion Hws; assumption.
  - destruct IH as (_ & c2 & _ & Hl & _ & Hc2); [discriminate|].
    exists c1, c2. split; [reflexivity|]. split.
    + change (line_of ((c1 :: w) :: w2 :: g))
        with ((c1 :: w) ++ u " " ++ line_of (w2 :: g)).
      apply last_Some in Hl as [l' Hl]. rewrite Hl.
      rewrite !app_assoc. apply last_snoc.
    + split; [inversion Hws; assumption|exact Hc2].
Qed.

Lemma line_of_nonempty (g : list pystr) :
  g ≠ [] → Forall word g → nonempty (line_of g) = true.
Proof.
  intros Hne Hg. destruct (line_of_ends g Hne Hg) as (c1 & _ & H & _).
  destruct (line_of g); [discriminate|reflexivity].
Qed.

Lemma strip_word (w : pystr) : word w → strip w = w.
Proof. intros [_ H]. apply strip_nospace, H. Qed.

(** [(cur + " " + w).strip()] when [cur] is a line of words. *)
Lemma strip_extend (g : list pystr) (w : pystr) :
  Forall word g → word w →
  strip (line_of g ++ u " " ++ w) = line_of (g ++ [w]).
Proof.
  intros Hg Hw. destruct g as [|x g].
  - change (strip (32 :: w) = w). unfold strip. cbn [lstrip].
    change (isspace 32) with true. cbv iota. apply strip_word, Hw.
  - rewrite line_of_snoc by discriminate.
    assert (Hall : Forall word ((x :: g) ++ [w]))
      by (apply Forall_app; split; [exact Hg|constructor; [exact Hw|constructor]]).
    destruct (line_of_ends ((x :: g) ++ [w])) as (c1 & c2 & H1 & H2 & S1 & S2);
      [discriminate|exact Hall|].
    rewrite line_of_snoc in H1, H2 by discriminate.
    apply (strip_ends _ c1 c2); assumption.
Qed.

Section Groups.

Variable width : Z.

(** A line fits when it is one word or at most [width] characters long. *)
Definition fits (g : list pystr) : Prop :=
  length g = 1%nat ∨ (Z.of_nat (length (line_of g)) ≤ width)%Z.

(** The first word of each line but the first did not fit on the line
    before. *)
Definition needed (gs : list (list pystr)) : Prop :=
  ∀ i g1 g2, gs !! i = Some g1 → gs !! S i = Some g2 →
    (width < Z.of_nat (length (line_of g1)) + 1
             + Z.of_nat (length (default [] (head g2))))%Z.

Definition good (gs : list (list pystr)) : Prop :=
  Forall (λ g, g ≠ [] ∧ Forall word g) gs ∧ Forall fits gs ∧ needed gs.

Lemma needed_new_line (gs : list (list pystr)) (g : list pystr) (w : pystr) :
  needed (gs ++ [g]) →
  (width < Z.of_nat (length (line_of g)) + 1 + Z.of_nat (length w))%Z →
  needed ((gs ++ [g]) ++ [[w]]).
Proof.
  intros Hn Hw i g1 g2 H1 H2.
  destruct (decide (S i < length (gs ++ [g]))%nat) as [Hlt|Hge].
  - rewrite lookup_app_l in H1 by lia. rewrite lookup_app_l in H2 by lia.
    apply (Hn i); assumption.
  - assert (Hi : S i = length (gs ++ [g])).
    { apply lookup_lt_Some in H2. rewrite length_app in H2. simpl in H2. lia. }
    rewrite lookup_app_r in H2 by lia.
    replace (S i - length (gs ++ [g]))%nat with 0%nat in H2 by lia.
    injection H2 as <-.
    rewrite lookup_app_l in H1 by lia.
    rewrite length_app in Hi. simpl in Hi.
    rewrite lookup_app_r in H1 by lia.
    replace (i - length gs)%nat with 0%nat in H1 by lia.
    injection H1 as <-. exact Hw.
Qed.

Lemma needed_same_line (gs : list (list pystr)) (g : list pystr) (w : pystr) :
  g ≠ [] → needed (gs ++ [g]) → needed (gs ++ [g ++ [w]]).
Proof.
  intros Hne Hn i g1 g2 H1 H2.
  assert (Hi : (S i < length gs + 1)%nat).
  { apply lookup_lt_Some in H2. rewrite length_app in H2. exact H2. }
  rewrite lookup_app_l in H1 by lia.
  destruct (decide (S i < length gs)%nat) as [Hlt|Hge].
  - rewrite lookup_app_l in H2 by lia.
    apply (Hn i); rewrite lookup_app_l by lia; assumption.
  - rewrite lookup_app_r in H2 by lia.
    replace (S i - length gs)%nat with 0%nat in H2 by lia.
    injection H2 as <-.
    destruct g as [|x g]; [done|]. simpl.
    apply (Hn i g1 (x :: g)).
    + rewrite lookup_app_l by lia. exact H1.
    + rewrite lookup_app_r by lia.
      replace (S i - length gs)%nat with 0%nat by lia. reflexivity.
Qed.

(** The loop keeps the lines built so far and the current line good, and
    uses up the words in order. *)
Lemma wrap_loop (ws : list pystr) (gs : list (list pystr)) (g : list pystr) :
  Forall word ws → good (gs ++ [g]) →
  ∃ gs' g',
    foldl (wrap_step width) (line_of <$> gs, line_of g) ws
    = (line_of <$> gs', line_of g')
    ∧ good (gs' ++ [g'])
    ∧ concat (gs' ++ [g']) = concat (gs ++ [g]) ++ ws.
Proof.
  intros Hws. revert gs g.
  induction Hws as [|w ws Hw Hws IH]; intros gs g Hgood.
  - exists gs, g. rewrite app_nil_r. done.
  - destruct Hgood as (Hwords & Hfits & Hneeded).
    assert (Hg : g ≠ [] ∧ Forall word g).
    { apply Forall_app in Hwords as [_ Hg]. inversion Hg; assumption. }
    destruct Hg as [Hne Hg].
    cbn [foldl]. unfold wrap_step at 2.
    rewrite (line_of_nonempty g Hne Hg). cbn [andb].
    destruct (width <? _)%Z eqn:E.
    + apply Z.ltb_lt in E.
      destruct (IH (gs ++ [g]) [w]) as (gs' & g' & Hfold & Hgood' & Hcat).
      { split; [|split].
        - apply Forall_app. split; [exact Hwords|].
          constructor; [|constructor]. split; [discriminate|].
          constructor; [exact Hw|constructor].
        - apply Forall_app. split; [exact Hfits|].
          constructor; [left; reflexivity|constructor].
        - apply needed_new_line; assumption. }
      exists gs', g'. split; [|split; [exact Hgood'|]].
      * rewrite <- Hfold. rewrite fmap_app. reflexivity.
      * rewrite Hcat. rewrite (concat_app (gs ++ [g]) [[w]]). simpl.
        rewrite <- app_assoc. reflexivity.
    + apply Z.ltb_ge in E.
      rewrite (strip_extend g w Hg Hw).
      destruct (IH gs (g ++ [w])) as (gs' & g' & Hfold & Hgood' & Hcat).
      { apply Forall_app in Hwords as [Hgs _].
        apply Forall_app in Hfits as [Hfs _].
        split; [|split].
        - apply Forall_app. split; [exact Hgs|].
          constructor; [|constructor]. split; [destruct g; discriminate|].
          apply Forall_app. split; [exact Hg|constructor; [exact Hw|constructor]].
        - apply Forall_app. split; [exact Hfs|].
          constructor; [|constructor]. right.
          rewrite line_of_snoc by exact Hne.
          rewrite !length_app. change (length (u " ")) with 1%nat. lia.
        - apply needed_same_line; assumption. }
      exists gs', g'. split; [exact Hfold|]. split; [exact Hgood'|].
      rewrite Hcat. rewrite !concat_app. simpl. rewrite !app_nil_r.
      rewrite <- !app_assoc. reflexivity.
Qed.

(** What [_wrap] returns: the words of the text in good groups, one line
    per group; one empty line when the text has no word. *)
Lemma wrap_groups (text : pystr) :
  ∃ gs, good gs ∧ concat gs = str_split text
        ∧ _wrap text width
          = match gs with [] => [[]] | _ => line_of <$> gs end.
Proof.
  unfold _wrap. destruct text as [|c text].
  { exists []. split; [|split; reflexivity].
    split; [constructor|split; [constructor|]]. intros i g1 g2 H; inversion H. }
  cbn [nonempty].
  pose proof (str_split_words (c :: text)) as Hws.
  destruct (str_split (c :: text)) as [|w ws].
  { exists []. split; [|split; reflexivity].
    split; [constructor|split; [constructor|]]. intros i g1 g2 H; inversion H. }
  inversion Hws as [|? ? Hw Hws']; subst.
  cbn [foldl]. unfold wrap_step at 2. cbn [nonempty andb].
  change (strip ([] ++ u " " ++ w)) with (strip (line_of [] ++ u " " ++ w)).
  rewrite (strip_extend [] w (Forall_nil_2 _) Hw).
  destruct (wrap_loop ws [] [w] Hws') as (gs' & g' & Hfold & Hgood & Hcat).
  { split; [|split].
    - constructor; [|constructor]. split; [discriminate|].
      constructor; [exact Hw|constructor].
    - constructor; [left; reflexivity|constructor].
    - intros i g1 g2 H1 H2. destruct i; inversion H2. }
  change (line_of ([] ++ [w])) with (line_of [w]).
  change (@nil pystr) with (line_of <$> []) at 1.
  rewrite Hfold.
  assert (Hg' : g' ≠ [] ∧ Forall word g').
  { destruct Hgood as (Hwords & _). apply Forall_app in Hwords as [_ Hg].
    inversion Hg; assumption. }
  rewrite (line_of_nonempty g') by apply Hg'.
  exists (gs' ++ [g']). split; [exact Hgood|]. split; [exact Hcat|].
  assert (Hl : ∀ (l : list pystr) x, nonempty (l ++ [x]) = true)
    by (intros [|] ?; reflexivity).
  rewrite Hl. destruct gs'; rewrite ?fmap_app; reflexivity.
Qed.

End Groups.

(** Joining the lines of groups of words is joining the words. *)
Lemma line_of_lines (gs : list (list pystr)) :
  Forall (λ g, g ≠ [] ∧ Forall word g) gs →
  line_of (line_of <$> gs) = line_of (concat gs).
Proof.
  induction 1 as [|g gs [Hne Hg] Hgs IH]; [reflexivity|].
  destruct gs as [|g2 gs].
  - simpl. rewrite app_nil_r. reflexivity.
  - cbn [fmap list_fmap concat] in *.
    rewrite (line_of_app g (g2 ++ concat gs)).
    + rewrite <- IH. reflexivity.
    + exact Hne.
    + inversion Hgs as [|? ? [Hne2 _] _]. destruct g2; [done|discriminate].
Qed.

End WrapFacts.

Section WrapTheorems.

Lemma take_while_all {A} (p : A → bool) (l : list A) :
  Forall (λ y, p y = true) l → take_while p l = l.
Proof.
  induction 1 as [|x l Hx _ IH]; simpl; [reflexivity|].
  rewrite Hx, IH. reflexivity.
Qed.

(** The first word of a line is what stands before its first white space. *)
Lemma first_word (g : list pystr) :
  g ≠ [] → Forall word g →
  take_while (λ c, negb (isspace c)) (line_of g) = default [] (head g).
Proof.
  intros Hne Hg. destruct g as [|w g]; [done|].
  assert (Hw : Forall (λ y, negb (isspace y) = true) w).
  { inversion Hg as [|? ? [_ Hw] _]; subst.
    eapply Forall_impl; [exact Hw|]. intros c Hc. simpl in Hc. rewrite Hc.
    reflexivity. }
  destruct g as [|w2 g]; [apply take_while_all, Hw|].
  change (line_of (w :: w2 :: g)) with (w ++ 32 :: line_of (w2 :: g)).
  apply take_while_app_stop; [exact Hw|reflexivity].
Qed.

(** X4.  [_wrap] loses, splits and reorders no word: its lines are groups of
    consecutive words of the text, each group joined by single spaces (one
    empty line when the text has no word), so joining the lines by spaces
    gives the words of the text joined by spaces.  It always returns at
    least one line. *)
Theorem wrap_keeps_words (text : pystr) (width : Z) :
  ∃ groups,
    concat groups = str_split text
    ∧ Forall (λ g, g ≠ []) groups
    ∧ _wrap text width
      = match groups with
        | [] => [[]]
        | _ => join (u " ") <$> groups
        end
    ∧ join (u " ") (_wrap text width) = join (u " ") (str_split text)
    ∧ _wrap text width ≠ [].
Proof.
  destruct (wrap_groups width text) as (gs & (Hwords & _ & _) & Hcat & Hw).
  exists gs. split; [exact Hcat|]. split.
  { eapply Forall_impl; [exact Hwords|]. intros g [Hg _]. exact Hg. }
  split; [exact Hw|]. rewrite Hw, <- Hcat. split.
  - destruct gs as [|g gs]; [reflexivity|]. apply (line_of_lines _ Hwords).
  - destruct gs; discriminate.
Qed.

(** X5.  Every line of [_wrap] is at most [width] characters long or is a
    single word of the text (the empty line stands for a text without
    words); and a line ends only where the next word did not fit: the line,
    a space and the first word of the next line exceed [width]. *)
Theorem wrap_fits_width (text : pystr) (width : Z) :
  Forall (λ line, (Z.of_nat (length line) ≤ width)%Z
                  ∨ line ∈ str_split text
                  ∨ (line = [] ∧ str_split text = []))
         (_wrap text width)
  ∧ ∀ i l1 l2,
      _wrap text width !! i = Some l1 →
      _wrap text width !! S i = Some l2 →
      (width < Z.of_nat (length l1) + 1
               + Z.of_nat (length (take_while (λ c, negb (isspace c)) l2)))%Z.
Proof.
  destruct (wrap_groups width text) as (gs & (Hwords & Hfits & Hneeded) & Hcat & Hw).
  rewrite Hw. destruct gs as [|g0 gs0].
  { split.
    - constructor; [|constructor]. right. right. split; [reflexivity|].
      rewrite <- Hcat. reflexivity.
    - intros i l1 l2 _ H. destruct i; discriminate. }
  set (gs := g0 :: gs0) in *. split.
  - apply Forall_fmap. apply Forall_forall. intros g Hg. simpl.
    rewrite Forall_forall in Hfits. destruct (Hfits g Hg) as [Hone|Hlen].
    + right. left. rewrite <- Hcat.
      destruct g as [|w [|]]; try discriminate.
      apply elem_of_concat. exists [w]. split; [left|exact Hg].
    + left. exact Hlen.
  - intros i l1 l2 H1 H2. rewrite list_lookup_fmap in H1, H2.
    destruct (gs !! i) as [g1|] eqn:E1; [|discriminate].
    destruct (gs !! S i) as [g2|] eqn:E2; [|discriminate].
    injection H1 as <-. injection H2 as <-.
    rewrite Forall_forall in Hwords.
    destruct (Hwords g2 (list_elem_of_lookup_2 _ _ _ E2)) as [Hne2 Hg2].
    rewrite (first_word g2 Hne2 Hg2). apply (Hneeded i); assumption.
Qed.

Example wrap_three_lines :
  _wrap (u "the quick  brown fox jumps") 10
  = [u "the quick"; u "brown fox"; u "jumps"].
Proof. reflexivity. Qed.

Example wrap_long_word :
  _wrap (u " a extraordinarily b ") 5 = [u "a"; u "extraordinarily"; u "b"].
Proof. reflexivity. Qed.

Example wrap_blank : _wrap (u "   ") 64 = [[]].
Proof. reflexivity. Qed.

End WrapTheorems.

(* ====================================================================== *)
(** * What the metadata parser keeps                                       *)
(* ====================================================================== *)

Section MetadataInvariants.

(** The fields no later step touches once they are set. *)
Definition identity (m : SeriesMetadata) : pystr * pystr * list pystr :=
  (title_id m, series_name m, tags m).

Lemma classify_item_identity (m : SeriesMetadata) (item : pystr) :
  identity (classify_item m item) = identity m.
Proof.
  unfold classify_item.
  repeat match goal with |- context [if ?b then _ else _] => destruct b end;
    reflexivity.
Qed.

Lemma hero_list_step_identity (soup : node) (m : SeriesMetadata) :
  identity (hero_list_step soup m) = identity m.
Proof.
  unfold hero_list_step.
  destruct (find_with_parent _ soup) as [[hero [par|]]|]; try reflexivity.
  destruct (find _ par) as [ul|]; [|reflexivity].
  generalize (get_text_strip "" <$> find_all (named ["li"%string]) ul).
  intros items. revert m.
  induction items as [|item items IH]; intros m; [reflexivity|].
  simpl. rewrite IH. apply classify_item_identity.
Qed.

Lemma rating_step_identity (soup : node) (m m' : SeriesMetadata) :
  rating_step soup m = Ok m' → identity m' = identity m.
Proof.
  unfold rating_step. destruct (find _ soup) as [agg|]; [|intros [= <-]; reflexivity].
  unfold score_step, votes_step.
  destruct (find _ agg) as [score_div|]; cbv zeta.
  - destruct (nonempty (find_all _ score_div)) eqn:E.
    + destruct (first_item_nonempty _ E) as [x ->]. exc_simpl.
      destruct (nonempty (findall1 _ _)) eqn:E2.
      * destruct (last_item_nonempty _ E2) as (y & -> & _). exc_simpl.
        intros [= <-]. reflexivity.
      * intros [= <-]. reflexivity.
    + exc_simpl. destruct (nonempty (findall1 _ _)) eqn:E2.
      * destruct (last_item_nonempty _ E2) as (y & -> & _). exc_simpl.
        intros [= <-]. reflexivity.
      * intros [= <-]. reflexivity.
  - exc_simpl. destruct (nonempty (findall1 _ _)) eqn:E2.
    + destruct (last_item_nonempty _ E2) as (y & -> & _). exc_simpl.
      intros [= <-]. reflexivity.
    + intros [= <-]. reflexivity.
Qed.

Lemma popularity_step_identity (soup : node) (m : SeriesMetadata) :
  identity (popularity_step soup m) = identity m.
Proof. unfold popularity_step. destruct (find _ soup); reflexivity. Qed.

(** The name comes from an [og:title] whose content is only white space:
    no hero title, no [<title>], and a non-empty [content] that [strip]
    empties. *)
Definition blank_og_title (soup : node) : Prop :=
  find (testid_is "hero__pageTitle") soup = None
  ∧ find (named ["title"%string]) soup = None
  ∧ ∃ og content,
      find (λ n, named ["meta"%string] n && attr_is "property" "og:title" n)
           soup = Some og
      ∧ get og "content" = Some content
      ∧ content ≠ [] ∧ strip content = [].

Lemma series_name_step_spec (soup : node) (m m' : SeriesMetadata) :
  series_name_step soup m = Ok m' →
  title_id m' = title_id m ∧ tags m' = tags m
  ∧ (series_name m' = [] → series_name m = [] ∨ blank_og_title soup).
Proof.
  unfold series_name_step, blank_og_title.
  destruct (find (testid_is "hero__pageTitle") soup) as [nd|].
  { destruct (get_text_strip "" nd) as [|c name] eqn:E; intros [= <-];
      simpl; (split; [reflexivity|split; [reflexivity|]]); [tauto|discriminate]. }
  destruct (find (named ["title"%string]) soup) as [tag|].
  { cbv zeta. destruct (strip _) as [|c raw] eqn:E; intros [= <-];
      simpl; (split; [reflexivity|split; [reflexivity|]]); [tauto|discriminate]. }
  destruct (find _ soup) as [og|]; [|intros [= <-]; tauto].
  unfold getitem, subscript, get.
  destruct (assoc (u "content") (tag_attrs og)) as [content|] eqn:E; simpl;
    [|intros [= <-]; tauto].
  destruct content as [|c content]; simpl; [intros [= <-]; tauto|].
  exc_simpl. intros [= <-]. simpl.
  split; [reflexivity|split; [reflexivity|]]. intros Hs. right.
  split; [reflexivity|split; [reflexivity|]].
  exists og, (c :: content). unfold get. rewrite E. done.
Qed.

(** ** The tag loop *)

Definition interest_links (soup : node) : list node :=
  find_all (λ n, named ["a"%string] n && attr_matches "href" RE_INTEREST n) soup.

(** What holds of [tags], and of [seen] and [tags], once the links [done]
    are handled. *)
Definition tags_ok (done : list node) (tags : list pystr) : Prop :=
  NoDup tags
  ∧ (∀ t, t ∈ tags ↔ t ≠ [] ∧ t ∈ get_text_strip "" <$> done)
  ∧ tags `sublist_of` (get_text_strip "" <$> done).

Definition tags_of (done : list node) (st : gset pystr * list pystr) : Prop :=
  (∀ t, t ∈ st.1 ↔ t ∈ st.2) ∧ tags_ok done st.2.

Lemma tag_step_keeps (done : list node) (st : gset pystr * list pystr)
    (a : node) :
  tags_of done st → tags_of (done ++ [a]) (tag_step st a).
Proof.
  intros (Hseen & Hnd & Hmem & Hsub). unfold tag_step, tags_of, tags_ok.
  cbv zeta.
  destruct st as [seen tags]. cbn [fst snd] in *.
  rewrite fmap_app. cbn [fmap list_fmap].
  destruct (get_text_strip "" a) as [|c text] eqn:E; cbn [nonempty andb fst snd].
  { split; [exact Hseen|]. split; [exact Hnd|]. split.
    - intros t. rewrite Hmem, elem_of_app, list_elem_of_singleton.
      split; [tauto|]. intros [Ht [H| ->]]; [tauto|done].
    - apply sublist_inserts_r, Hsub. }
  destruct (bool_decide (c :: text ∈ seen)) eqn:Hin; cbn [negb fst snd].
  - apply bool_decide_eq_true in Hin.
    split; [exact Hseen|]. split; [exact Hnd|]. split.
    + intros t. rewrite Hmem, elem_of_app, list_elem_of_singleton.
      split; [tauto|]. intros [Ht [H| ->]]; [tauto|].
      apply Hmem, Hseen, Hin.
    + apply sublist_inserts_r, Hsub.
  - apply bool_decide_eq_false in Hin. split; [|split; [|split]].
    + intros t. rewrite elem_of_union, elem_of_singleton, elem_of_app,
        list_elem_of_singleton, Hseen. tauto.
    + apply NoDup_app. split; [exact Hnd|]. split.
      * intros t Ht Ht'. apply list_elem_of_singleton in Ht'. subst t.
        apply Hin, Hseen, Ht.
      * apply NoDup_singleton.
    + intros t. rewrite !elem_of_app, !list_elem_of_singleton, Hmem.
      split; [|tauto]. intros [H| ->]; [tauto|]. split; [discriminate|tauto].
    + apply sublist_app; [exact Hsub|reflexivity].
Qed.

Lemma tag_loop_keeps (l done : list node) (st : gset pystr * list pystr) :
  tags_of done st → tags_of (done ++ l) (foldl tag_step st l).
Proof.
  revert done st. induction l as [|a l IH]; intros done st H; simpl.
  - rewrite app_nil_r. exact H.
  - rewrite (cons_middle a done l), app_assoc. apply IH, tag_step_keeps, H.
Qed.

Lemma tags_step_spec (soup : node) (m : SeriesMetadata) :
  tags m = [] →
  title_id (tags_step soup m) = title_id m
  ∧ series_name (tags_step soup m) = series_name m
  ∧ tags_ok (interest_links soup) (tags (tags_step soup m)).
Proof.
  intros Hm. unfold tags_step. cbv zeta. fold (interest_links soup).
  assert (H0 : tags_of [] (∅, [])).
  { split; [intros t; rewrite elem_of_nil; set_solver|].
    split; [constructor|]. split; [|reflexivity].
    intros t. simpl. rewrite elem_of_nil. tauto. }
  pose proof (tag_loop_keeps (interest_links soup) [] _ H0) as H.
  simpl in H. destruct (foldl tag_step _ _) as [seen tags]. simpl in *.
  destruct H as (_ & Hok).
  destruct tags as [|t tags]; simpl.
  - rewrite Hm. split; [reflexivity|]. split; [reflexivity|exact Hok].
  - split; [reflexivity|]. split; [reflexivity|exact Hok].
Qed.

(** What [parse_series_metadata] returns, field by field of [identity]. *)
Lemma parse_series_metadata_identity (soup : node) (tid : pystr) :
  ∃ m, parse_series_metadata soup tid = Ok m
       ∧ title_id m = tid
       ∧ (series_name m = [] → tid = [] ∨ blank_og_title soup)
       ∧ tags_ok (interest_links soup) (tags m).
Proof.
  unfold parse_series_metadata. cbv zeta.
  destruct (series_name_step_ok soup (SeriesMetadata_new tid tid))
    as [m1 H1]. rewrite H1. exc_simpl.
  apply series_name_step_spec in H1 as (Hid1 & Htags1 & Hname1).
  destruct (rating_step_ok soup (hero_list_step soup m1)) as [m2 H2].
  rewrite H2. exc_simpl. apply rating_step_identity in H2.
  rewrite hero_list_step_identity in H2.
  pose proof (popularity_step_identity soup m2) as H3. rewrite H2 in H3.
  unfold identity in H3. injection H3 as Hid3 Hname3 Htags3.
  destruct (tags_step_spec soup (popularity_step soup m2)) as (Hid & Hname & Htags).
  { rewrite Htags3. exact Htags1. }
  eexists. split; [reflexivity|].
  rewrite Hid, Hname, Hid3, Hname3. split; [exact Hid1|].
  split; [exact Hname1|exact Htags].
Qed.

(** X6.  [parse_series_metadata] returns the [title_id] it was given, and a
    non-empty [series_name] whenever that id is not empty -- except when
    the name comes from an [og:title] whose content is only white space. *)
Theorem metadata_keeps_title_id (soup : node) (tid : pystr) :
  ∃ m, parse_series_metadata soup tid = Ok m
       ∧ title_id m = tid
       ∧ (series_name m = [] → tid = [] ∨ blank_og_title soup).
Proof.
  destruct (parse_series_metadata_identity soup tid) as (m & H & Hid & Hname & _).
  exists m. auto.
Qed.

(** X7.  The tags of the metadata are the non-empty texts of the
    [/interest/in<digits>] links of the page, each once, in document
    order. *)
Theorem metadata_tags_distinct (soup : node) (tid : pystr) :
  ∃ m, parse_series_metadata soup tid = Ok m
       ∧ NoDup (tags m)
       ∧ (∀ t, t ∈ tags m
               ↔ t ≠ [] ∧ t ∈ get_text_strip "" <$> interest_links soup)
       ∧ tags m `sublist_of` (get_text_strip "" <$> interest_links soup).
Proof.
  destruct (parse_series_metadata_identity soup tid)
    as (m & H & _ & _ & Hnd & Hmem & Hsub).
  exists m. auto.
Qed.

End MetadataInvariants.

(** A page whose only name is an [og:title] of one space, and a page with
    a repeated and an empty interest link. *)
Definition blank_name_page : node :=
  document [elem "meta" [("property", "og:title"); ("content", " ")]%string []].

Definition interest (id label : string) : node :=
  elem "a" [("href", "/interest/" ++ id ++ "/")%string] [txt label].

Definition tags_page : node :=
  document [interest "in0000027" "Anime"; interest "in0000001" "Action";
            interest "in0000027" " Anime "; interest "in0000002" "";
            interest "xx0000003" "Other"; interest "in0000004" "Adventure"].

Example metadata_blank_name :
  series_name <$> parse_series_metadata blank_name_page (u "tt7441658") = Ok [].
Proof. reflexivity. Qed.

Example metadata_tags_page :
  tags <$> parse_series_metadata tags_page (u "tt7441658")
  = Ok [u "Anime"; u "Action"; u "Adventure"].
Proof. reflexivity. Qed.

(* ====================================================================== *)
(** * What the card helpers return                                         *)
(* ====================================================================== *)

Section SearchFacts.

(** A successful search matched at some offset of the subject. *)
Lemma search_from_sound (p : pattern) (s : pystr) (pos : nat)
    (prev : option pychar) (m : match_obj) :
  search_from p pos prev s = Some m →
  ∃ pre rest prev',
    s = pre ++ rest ∧ m_start m = (pos + length pre)%nat
    ∧ rx (p_ic p) (p_rx p) (MState (pos + length pre) prev' rest []) Some
      = Some (m_end m).
Proof.
  revert pos prev. induction s as [|c s IH]; intros pos prev; cbn [search_from].
  - destruct (rx _ _ _ _) as [st|] eqn:E; [|discriminate]. intros [= <-].
    exists [], [], prev. simpl. rewrite Nat.add_0_r. done.
  - destruct (rx _ _ _ _) as [st|] eqn:E.
    + intros [= <-]. exists [], (c :: s), prev. simpl.
      rewrite Nat.add_0_r. done.
    + intros H. apply IH in H as (pre & rest & prev' & -> & Hs & Hrx).
      exists (c :: pre), rest, prev'. simpl.
      replace (pos + S (length pre))%nat with (S pos + length pre)%nat by lia.
      done.
Qed.






End SearchFacts.

Section CardFacts.

(** ** Ratings *)



(** ** Episode cards *)





End CardFacts.

Section EpisodeFields.


(** ** Episode numbers *)

Lemma digits_val_nonneg (s : pystr) (acc : Z) (prev : bool) (z : Z) :
  (0 ≤ acc)%Z → digits_val acc prev s = Some z → (0 ≤ z)%Z.
Proof.
  revert acc prev. induction s as [|c s IH]; intros acc prev Hacc; simpl.
  - destruct prev; [|discriminate]. intros [= <-]. exact Hacc.
  - destruct (isdecimal c).
    + apply IH. unfold digit_val. lia.
    + destruct ((c =? 95) && prev); [|discriminate].
      destruct s as [|d s']; [discriminate|].
      destruct (isdecimal d); [|discriminate]. apply IH, Hacc.
Qed.

Lemma int_of_digits_nonneg (s : pystr) (z : Z) :
  Forall (λ c, isdecimal c = true) s → int_of_str s = Ok z → (0 ≤ z)%Z.
Proof.
  intros H. unfold int_of_str. rewrite (strip_decimal s H).
  destruct s as [|c s'].
  - simpl. discriminate.
  - assert (Hc : isdecimal c = true) by (inversion H; assumption).
    assert (c ≠ 45 ∧ c ≠ 43) as [H45 H43].
    { unfold isdecimal, in_range in Hc. apply andb_true_iff in Hc as [Hc _].
      apply N.leb_le in Hc. lia. }
    apply N.eqb_neq in H45, H43. rewrite H45, H43.
    destruct (digits_val 0 false (c :: s')) as [n|] eqn:E; [|discriminate].
    intros [= <-]. apply (digits_val_nonneg _ _ _ _ (Z.le_refl 0) E).
Qed.

(** What [parse_card] puts in the fields of the episode. *)
Definition numbers_of_code (ep : Episode) : Prop :=
  match re_match RE_SE_GROUPS (episode_code ep) with
  | Some m => int_of_str (group 1 m) = Ok (season ep)
              ∧ int_of_str (group 2 m) = Ok (episode ep)
  | None => season ep = 0%Z ∧ episode ep = 0%Z
  end.

Lemma parse_card_fields (card : node) :
  ∃ ep, parse_card card = Ok ep
        ∧ numbers_of_code ep
        ∧ (0 ≤ season ep)%Z ∧ (0 ≤ episode ep)%Z
        ∧ cover_image_local ep = None
        ∧ rating ep = _find_rating card
        ∧ air_date ep = _find_air_date card
        ∧ _find_cover_image card = Ok (cover_image ep)
        ∧ _find_episode_link card = Ok (imdb_url ep).
Proof.
  unfold parse_card.
  destruct (find_title_text_ok card) as [raw ->]. exc_simpl. cbv zeta.
  assert (∃ code, (if nonempty (re_split1 RE_DOT_SEP raw)
                   then strip <$> item (re_split1 RE_DOT_SEP raw) 0
                   else Ok []) = Ok code) as [code ->].
  { destruct (re_split1 RE_DOT_SEP raw); simpl; eauto. }
  exc_simpl.
  assert (∃ t, (if (1 <? length (re_split1 RE_DOT_SEP raw))%nat
                then strip <$> item (re_split1 RE_DOT_SEP raw) 1
                else Ok raw) = Ok t) as [t ->].
  { destruct (1 <? _)%nat eqn:E; [|eauto]. apply Nat.ltb_lt in E.
    destruct (item_ok _ 1 E) as [x ->]. exc_simpl. eauto. }
  exc_simpl. unfold numbers_of_code.
  destruct (find_description_ok card) as [d Hd].
  destruct (find_cover_image_ok card) as [c Hc].
  destruct (find_episode_link_ok card) as [l Hl].
  destruct (re_match RE_SE_GROUPS code) as [m|] eqn:E.
  - destruct (se_groups_int code m E) as (s & e & Hs & He).
    destruct (se_groups_decimal code m E) as [[D1 _] [D2 _]].
    rewrite Hs, He. exc_simpl. rewrite Hd. exc_simpl. rewrite Hc. exc_simpl.
    rewrite Hl. exc_simpl. eexists. split; [reflexivity|].
    cbn [episode_code season episode cover_image_local rating air_date
         cover_image imdb_url].
    rewrite E. repeat split; try assumption.
    + apply (int_of_digits_nonneg _ _ D1 Hs).
    + apply (int_of_digits_nonneg _ _ D2 He).
  - exc_simpl. rewrite Hd. exc_simpl. rewrite Hc. exc_simpl.
    rewrite Hl. exc_simpl. eexists. split; [reflexivity|].
    cbn [episode_code season episode cover_image_local rating air_date
         cover_image imdb_url].
    rewrite E. repeat split; try assumption; lia.
Qed.


End EpisodeFields.

Example parsed_numbers_leading_zeros :
  (λ ep, (episode_code ep, season ep, episode ep))
    <$> parse_card (elem "article" []
          [elem "h4" [] [Text (u "s02.e007" ++ [32; 183; 32] ++ u "Return")]])
  = Ok (u "s02.e007", 2%Z, 7%Z).
Proof. reflexivity. Qed.

Section EpisodeLink.

Lemma elem_of_find_all (f : node → bool) (n x : node) :
  x ∈ find_all f n ↔ x ∈ descendants n ∧ is_tag x = true ∧ f x = true.
Proof.
  unfold find_all. rewrite list_elem_of_filter, Is_true_true, andb_true_iff.
  tauto.
Qed.

Lemma getitem_get (n : node) (key : string) (v : pystr) :
  getitem n key = Ok v ↔ get n key = Some v.
Proof.
  unfold getitem, subscript, get. destruct (assoc _ _); split; congruence.
Qed.

Lemma absolute_not_relative (href : pystr) :
  startswith (absolute href) (u "/") = false.
Proof.
  unfold absolute. destruct (startswith href (u "/")) eqn:E; [reflexivity|exact E].
Qed.

Lemma title_link_nonempty (href : pystr) :
  matches RE_TITLE_LINK href = true → absolute href ≠ [].
Proof.
  destruct href as [|c href]; [discriminate|]. intros _.
  unfold absolute. destruct (startswith _ _); discriminate.
Qed.

(** An anchor of the card whose [href] holds a title path. *)
Definition title_anchor (card : node) (href : pystr) : Prop :=
  ∃ a, a ∈ find_all (named ["a"%string]) card
       ∧ get a "href" = Some href
       ∧ matches RE_TITLE_LINK href = true.

Lemma link_with_ref_spec (links : list node) (r : option pystr) :
  link_with_ref links = Ok r →
  match r with
  | Some url =>
      ∃ a href, a ∈ links ∧ get a "href" = Some href
                ∧ matches RE_TITLE_LINK href = true
                ∧ url = absolute href
  | None => True
  end.
Proof.
  induction links as [|a links IH]; simpl.
  - intros [= <-]. exact I.
  - destruct (getitem a "href") as [href|] eqn:E; exc_simpl; [|discriminate].
    apply getitem_get in E.
    destruct (matches RE_TITLE_LINK href) eqn:Em; simpl.
    + destruct (contains href _).
      * intros [= <-]. exists a, href. repeat split; auto. left.
      * intros H. apply IH in H. destruct r as [url|]; [|exact I].
        destruct H as (a' & href' & Hin & H). exists a', href'.
        split; [right; exact Hin|exact H].
    + intros H. apply IH in H. destruct r as [url|]; [|exact I].
      destruct H as (a' & href' & Hin & H). exists a', href'.
      split; [right; exact Hin|exact H].
Qed.

(** X11.  The link of a card is never site-relative: it is empty, exactly when
    no anchor of the card has an [href] with a [/title/tt<digits>/] path,
    or it is such an [href], prefixed with the site when it starts with
    ["/"]. *)
Theorem episode_link_absolute (card : node) :
  ∃ url, _find_episode_link card = Ok url
    ∧ startswith url (u "/") = false
    ∧ (url = []
       ↔ find (λ n, named ["a"%string] n
                    && attr_matches "href" RE_TITLE_LINK n) card = None)
    ∧ (url ≠ [] → ∃ href, title_anchor card href ∧ url = absolute href).
Proof.
  unfold _find_episode_link.
  destruct (link_with_ref_ok
              (find_all (λ n, named ["a"%string] n && attr_present "href" n) card))
    as [r Hr].
  { apply Forall_forall. intros a Ha. apply find_all_pred in Ha.
    apply andb_true_iff in Ha as [_ Ha]. exact Ha. }
  rewrite Hr. exc_simpl. apply link_with_ref_spec in Hr.
  destruct r as [url|].
  - destruct Hr as (a & href & Hin & Hget & Hm & ->).
    apply elem_of_find_all in Hin as (Hd & Ht & Hp).
    apply andb_true_iff in Hp as [Hname _].
    assert (Ha : a ∈ find_all (λ n, named ["a"%string] n
                        && attr_matches "href" RE_TITLE_LINK n) card).
    { apply elem_of_find_all. repeat split; auto.
      unfold attr_matches. rewrite Hname, Hget. exact Hm. }
    eexists. split; [reflexivity|]. split; [apply absolute_not_relative|].
    split.
    + split.
      * intros H. destruct (title_link_nonempty href Hm H).
      * intros H. unfold find in H. destruct (find_all _ card); [|discriminate].
        inversion Ha.
    + intros _. exists href. split; [|reflexivity]. exists a.
      split; [|split; assumption]. apply elem_of_find_all. auto.
  - destruct (find _ card) as [a|] eqn:E.
    + pose proof (find_pred _ _ _ E) as Hp.
      apply andb_true_iff in Hp as [Hname Hm].
      unfold attr_matches in Hm.
      destruct (get a "href") as [href|] eqn:Hget; [|discriminate].
      apply getitem_get in Hget as Hitem. rewrite Hitem. exc_simpl.
      eexists. split; [reflexivity|]. split; [apply absolute_not_relative|].
      split.
      * split; [|discriminate]. intros H.
        destruct (title_link_nonempty href Hm H).
      * intros _. exists href. split; [|reflexivity]. exists a.
        split; [|split; assumption].
        apply head_Some_elem_of in E. apply elem_of_find_all in E as (Hd & Ht & _).
        apply elem_of_find_all. auto.
    + eexists. split; [reflexivity|]. split; [reflexivity|].
      split; [tauto|]. intros H. destruct (H eq_refl).
Qed.

End EpisodeLink.

(* ====================================================================== *)
(** * Retries of [http_fetch] for any number of attempts                   *)
(* ====================================================================== *)


Section FetchGeneral.

Variable html_parser : pystr → node.
Variable net : nat → get_result.









End FetchGeneral.

Example http_fetch_five_attempts :
  http_fetch empty_document
    (λ i, if (i <? 4)%nat then Response 502 [] else Response 200 []) 5
  = (Returns (Some (empty_document [])),
     [EGet 1; ESleep 1500; EGet 2; ESleep 3000; EGet 3; ESleep 4500; EGet 4]).
Proof. reflexivity. Qed.

Example http_fetch_no_attempt :
  http_fetch empty_document unavailable 0 = (Returns None, []).
Proof. reflexivity. Qed.

(* ====================================================================== *)
(** * Downloads: what a file on disk means                                 *)
(* ====================================================================== *)

Section DownloadFacts.

Variable url_path : pystr → pystr.
Variable net : pystr → nat → option pystr.

(** The loop of [_download_one] on a destination that does not exist:
    it stops at the first attempt that yields the bytes and writes them,
    or every attempt fails and the disk is as before. *)
Lemma download_loop_outcome (url dest : pystr)
    (retries remaining attempt : nat) (d : disk) :
  match (download_loop net url dest retries remaining attempt d).1 with
  | (true, d') =>
      ∃ k content, (attempt ≤ k < attempt + remaining)%nat
                   ∧ net url k = Some content
                   ∧ (∀ j, (attempt ≤ j < k)%nat → net url j = None)
                   ∧ d' = <[dest := content]> d
  | (false, d') =>
      d' = d ∧ ∀ j, (attempt ≤ j < attempt + remaining)%nat → net url j = None
  end.
Proof.
  revert attempt. induction remaining as [|remaining IH]; intros attempt.
  - simpl. split; [reflexivity|]. intros j Hj. lia.
  - cbn [download_loop]. destruct (net url attempt) as [content|] eqn:E.
    + cbn [fst snd]. exists attempt, content. split; [lia|].
      split; [exact E|]. split; [intros j Hj; lia|reflexivity].
    + specialize (IH (S attempt)).
      destruct (download_loop net url dest retries remaining (S attempt) d)
        as [[okay d'] evs]. cbn [fst snd] in *. destruct okay.
      * destruct IH as (k & content & Hk & Hnet & Hbefore & Hd).
        exists k, content. split; [lia|]. split; [exact Hnet|].
        split; [|exact Hd]. intros j Hj.
        destruct (decide (j = attempt)) as [->|Hne]; [exact E|].
        apply Hbefore. lia.
      * destruct IH as (Hd & Hnone). split; [exact Hd|]. intros j Hj.
        destruct (decide (j = attempt)) as [->|Hne]; [exact E|].
        apply Hnone. lia.
Qed.

(** X13.  [_download_one] returns [True] exactly when the destination exists
    afterwards.  It touches no other path; a destination that exists is
    kept without any request; and it returns [False] only with the disk
    unchanged, every one of the [retries] attempts having failed. *)
Theorem download_one_reports_file (url dest : pystr) (retries : nat)
    (d : disk) :
  let r := _download_one net url dest retries d in
  (r.1.1 = true ↔ is_Some (r.1.2 !! dest))
  ∧ (∀ p, p ≠ dest → r.1.2 !! p = d !! p)
  ∧ (is_Some (d !! dest) → r = (true, d, []))
  ∧ (r.1.1 = false →
     r.1.2 = d ∧ ∀ j, (1 ≤ j ≤ retries)%nat → net url j = None).
Proof.
  cbv zeta. unfold _download_one. case_bool_decide as Hex.
  - cbn [fst snd]. split; [tauto|]. split; [reflexivity|].
    split; [reflexivity|discriminate].
  - pose proof (download_loop_outcome url dest retries retries 1 d) as H.
    split; [|split; [|split]].
    + destruct (download_loop net url dest retries retries 1 d)
        as [[okay d'] evs]. cbn [fst snd] in *. destruct okay.
      * destruct H as (k & content & _ & _ & _ & ->).
        rewrite lookup_insert_eq. split; eauto.
      * destruct H as [-> _]. split; [discriminate|]. intros H0.
        destruct (Hex H0).
    + intros p Hp. apply download_loop_other, Hp.
    + intros H0. destruct (Hex H0).
    + destruct (download_loop net url dest retries retries 1 d)
        as [[okay d'] evs]. cbn [fst snd] in *. intros ->.
      destruct H as [-> Hnone]. split; [reflexivity|].
      intros j Hj. apply Hnone. lia.
Qed.

(** ** Running [download_images] again *)

Lemma download_all_existing (jobs : list (pystr * pystr)) (d : disk) :
  Forall (λ job, is_Some (d !! job.2)) jobs → _download_all net jobs d = d.
Proof.
  unfold _download_all. induction 1 as [|job jobs Hjob _ IH]; simpl;
    [reflexivity|].
  unfold _download_one at 2. rewrite bool_decide_eq_true_2 by exact Hjob.
  exact IH.
Qed.

(** The job an episode adds names the local path recorded for it. *)
Lemma assign_local_job (images_dir tid : pystr) (ep : Episode)
    (job : pystr * pystr) :
  job ∈ (assign_local url_path (path_join images_dir tid) ep).2 →
  cover_image ep = Some job.1
  ∧ expected_local url_path images_dir tid ep = Some job.2.
Proof.
  unfold assign_local, expected_local, path_join.
  destruct (cover_image ep) as [[|c url]|]; simpl;
    try (intros H; inversion H; fail).
  intros H. apply list_elem_of_singleton in H. subst job. simpl.
  split; [reflexivity|]. rewrite <- !app_assoc. reflexivity.
Qed.

(** X14.  When the file of every episode with a cover is already on disk,
    [download_images] leaves the disk as it is, whatever the network would
    answer: it is safe to run again. *)
Theorem download_images_skips_existing
    (title_info : TitleInfo) (images_dir : pystr) (d : disk) :
  (∀ s eps ep p,
     seasons title_info !! s = Some eps → ep ∈ eps →
     expected_local url_path images_dir (title_id (meta title_info)) ep
     = Some p →
     is_Some (d !! p)) →
  (download_images url_path net title_info images_dir d).2 = d.
Proof.
  intros Hex. unfold download_images. cbv zeta.
  set (jobs := mbind _ _).
  destruct (nonempty jobs); [|reflexivity]. cbn [snd].
  apply download_all_existing. apply Forall_forall. intros job Hjob.
  subst jobs. apply list_elem_of_bind in Hjob as ([s eps] & Hjob & Hs).
  apply elem_of_map_to_list in Hs.
  apply list_elem_of_bind in Hjob as (ep & Hjob & Hep). cbn [snd] in Hep.
  apply assign_local_job in Hjob as [_ Hp].
  apply (Hex s eps ep _ Hs Hep Hp).
Qed.

(** Assigning the local paths twice is assigning them once: the paths
    depend on the cover URL, the season and the episode number only. *)
Lemma assign_local_again (base : pystr) (ep : Episode) :
  (assign_local url_path base (assign_local url_path base ep).1).1
  = (assign_local url_path base ep).1.
Proof.
  unfold assign_local. destruct (cover_image ep) as [[|c url]|] eqn:E;
    simpl; rewrite ?E; reflexivity.
Qed.

(** X15.  The aggregate [download_images] returns is a fixed point of the step:
    running it again, on any disk, records the same local paths. *)
Theorem download_images_paths_stable
    (title_info : TitleInfo) (images_dir : pystr) (d d' : disk) :
  (download_images url_path net
     (download_images url_path net title_info images_dir d).1 images_dir d').1
  = (download_images url_path net title_info images_dir d).1.
Proof.
  assert (Hfst : ∀ t dd,
    (download_images url_path net t images_dir dd).1
    = mkTitleInfo (meta t)
        (fmap (M:=gmap Z)
           (fmap (M:=list)
              (λ ep, (assign_local url_path
                        (path_join images_dir (title_id (meta t))) ep).1))
           (seasons t))).
  { intros t dd. unfold download_images. cbv zeta.
    destruct (nonempty _); reflexivity. }
  rewrite !Hfst. cbn [meta seasons]. f_equal.
  rewrite <- map_fmap_compose. apply map_fmap_ext. intros s eps _.
  cbn. rewrite <- list_fmap_compose. apply list_fmap_ext.
  intros i ep _. apply assign_local_again.
Qed.

End DownloadFacts.

(** The cover of the pilot is on disk: nothing is requested, although the
    CDN would answer. *)
Definition generous (_ : pystr) (_ : nat) : option pystr := Some (u "bytes").

Definition pilot_on_disk : disk :=
  {[ u "images/tt9999999/S1E1.png" := u "cover" ]}.

Lemma download_images_skips_existing_witness :
  (download_images plain_url_path generous one_episode (u "images")
     pilot_on_disk).2 = pilot_on_disk.
Proof.
  apply (download_images_skips_existing plain_url_path generous one_episode
           (u "images") pilot_on_disk).
  intros s eps ep p Hs Hep Hp.
  unfold one_episode in Hs. cbn [seasons] in Hs.
  apply lookup_singleton_Some in Hs as [<- <-].
  apply list_elem_of_singleton in Hep. subst ep.
  vm_compute in Hp. injection Hp as <-. vm_compute. eauto.
Defined.

(* ====================================================================== *)
(** * What the load-more finder returns, and when the expander stops       *)
(* ====================================================================== *)

Section Candidate.

(** The attribute [aria-disabled] is not ["true"]. *)
Definition not_aria_disabled (el : element) : Prop :=
  assoc (u "aria-disabled") (el_attrs el) ≠ Some (u "true").

Lemma not_disabled_spec (el : element) :
  not_disabled el = Some true →
  el_detached el = false ∧ not_aria_disabled el.
Proof.
  unfold not_disabled, get_attribute, not_aria_disabled.
  destruct (el_detached el); [discriminate|]. cbn [mbind option_bind].
  destruct (assoc _ _) as [v|]; [|intros _; split; [reflexivity|discriminate]].
  intros [= H]. apply negb_true_iff in H. split; [reflexivity|].
  intros [= ->]. rewrite str_eqb_refl in H. discriminate.
Qed.

Lemma try_button_spec (el : element) :
  try_button el = Some true →
  el_detached el = false ∧ el_enabled el = true
  ∧ matches _INLINE_MORE (strip (el_text el)) = true.
Proof.
  unfold try_button, inner_text, is_enabled.
  destruct (el_detached el); [discriminate|]. cbn [mbind option_bind].
  destruct (matches _ _); [|discriminate]. intros [= ->]. auto.
Qed.

Lemma try_link_spec (el : element) :
  try_link el = Some true →
  el_detached el = false ∧ not_aria_disabled el
  ∧ matches _INLINE_MORE (strip (el_text el)) = true.
Proof.
  unfold try_link, get_attribute, inner_text.
  destruct (el_detached el) eqn:Ed; [discriminate|]. cbn [mbind option_bind].
  destruct (_is_navigating_href _); [discriminate|].
  destruct (matches _ _); [|discriminate].
  intros H. apply not_disabled_spec in H as [_ H]. auto.
Qed.

Lemma try_marked_spec (tag : string) (el : element) :
  try_marked tag el = Some true →
  el_detached el = false ∧ not_aria_disabled el.
Proof.
  unfold try_marked, get_attribute.
  destruct (el_detached el) eqn:Ed; [discriminate|]. cbn [mbind option_bind].
  destruct (_ && _); [discriminate|].
  intros H. apply not_disabled_spec in H as [_ H]. auto.
Qed.

Lemma elem_of_locate_tag (tag : string) (page : list element) (el : element) :
  el ∈ locate_tag tag page →
  el ∈ page ∧ has_tag tag el = true ∧ el_visible el = true.
Proof.
  unfold locate_tag. rewrite list_elem_of_filter, Is_true_true, andb_true_iff.
  tauto.
Qed.

Lemma elem_of_locate_testid (frag tag : string) (page : list element)
    (el : element) :
  el ∈ locate_testid frag tag page →
  el ∈ page ∧ has_tag tag el = true ∧ el_visible el = true.
Proof.
  unfold locate_testid.
  rewrite list_elem_of_filter, Is_true_true, !andb_true_iff. tauto.
Qed.

Lemma elem_of_locate_label (tag : string) (page : list element) (el : element) :
  el ∈ locate_label tag page →
  el ∈ page ∧ has_tag tag el = true ∧ el_visible el = true.
Proof.
  unfold locate_label.
  rewrite list_elem_of_filter, Is_true_true, !andb_true_iff. tauto.
Qed.

(** What every strategy guarantees of the element it returns. *)
Definition clickable (page : list element) (el : element) : Prop :=
  el ∈ page ∧ el_visible el = true ∧ el_detached el = false
  ∧ (has_tag "button" el = true ∨ has_tag "a" el = true)
  ∧ ((has_tag "button" el = true ∧ el_enabled el = true)
     ∨ not_aria_disabled el).

(** X16.  The element the load-more finder returns is an attached, visible
    [<button>] or [<a>] of the page; it is an enabled button (the first
    strategy) or its [aria-disabled] attribute is not ["true"] (the
    others). *)
Theorem loadmore_candidate_clickable (page : list element) (el : element) :
  _find_loadmore page = Some el →
  el ∈ page ∧ el_visible el = true ∧ el_detached el = false
  ∧ (has_tag "button" el = true ∨ has_tag "a" el = true)
  ∧ ((has_tag "button" el = true ∧ el_enabled el = true)
     ∨ assoc (u "aria-disabled") (el_attrs el) ≠ Some (u "true")).
Proof.
  intros Hf. unfold _find_loadmore in Hf. simpl in Hf.
  change (clickable page el). unfold clickable.
  destruct (strategy1 page) as [e1|] eqn:E1.
  { injection Hf as ->. apply first_returning_spec in E1 as [Hin Hb].
    apply elem_of_locate_tag in Hin as (Hin & Ht & Hv).
    apply try_button_spec in Hb as (Hd & He & _). auto 10. }
  destruct (strategy2 page) as [e2|] eqn:E2.
  { injection Hf as ->. apply first_returning_spec in E2 as [Hin Hb].
    apply elem_of_locate_tag in Hin as (Hin & Ht & Hv).
    apply try_link_spec in Hb as (Hd & He & _). auto 10. }
  destruct (strategy3 page) as [e3|] eqn:E3.
  { injection Hf as ->. unfold strategy3 in E3. simpl in E3.
    repeat match type of E3 with
    | match ?x with _ => _ end = _ =>
        let E := fresh "E" in destruct x eqn:E;
        [ injection E3 as ->; apply first_returning_spec in E as [Hin Hb];
          apply elem_of_take in Hin as (i & Hin & _);
          apply list_elem_of_lookup_2 in Hin;
          apply elem_of_locate_testid in Hin as (Hin & Ht & Hv);
          apply try_marked_spec in Hb as (Hd & He); auto 10
        | ]
    end. discriminate E3. }
  destruct (strategy4 page) as [e4|] eqn:E4; [|discriminate].
  injection Hf as ->. unfold strategy4 in E4. simpl in E4.
  repeat match type of E4 with
    | match ?x with _ => _ end = _ =>
        let E := fresh "E" in destruct x eqn:E;
        [ injection E4 as ->; apply first_returning_spec in E as [Hin Hb];
          apply elem_of_locate_label in Hin as (Hin & Ht & Hv);
          apply try_marked_spec in Hb as (Hd & He); auto 10
        | ]
    end. discriminate E4.
Qed.

End Candidate.

(** A page with a hidden, a detached and a disabled "Load more" button
    before the one that can be clicked; and a disabled button that the
    third strategy returns, since it reads [aria-disabled] only. *)
Definition hidden_button : element :=
  Element (u "button") false [] [] (u "Load more") true false.
Definition detached_button : element :=
  Element (u "button") true [] [] (u "Load more") true true.
Definition disabled_button : element :=
  Element (u "button") true [] [] (u "Load more") false false.
Definition crowded_page : list element :=
  [hidden_button; detached_button; disabled_button; more_button].

Definition disabled_marked_button : element :=
  Element (u "button") true [(u "data-testid", u "see-more-btn")] []
          (u "Show") false false.

Lemma loadmore_candidate_witness :
  more_button ∈ crowded_page ∧ el_visible more_button = true
  ∧ el_detached more_button = false
  ∧ (has_tag "button" more_button = true ∨ has_tag "a" more_button = true)
  ∧ ((has_tag "button" more_button = true ∧ el_enabled more_button = true)
     ∨ assoc (u "aria-disabled") (el_attrs more_button) ≠ Some (u "true")).
Proof.
  apply (loadmore_candidate_clickable crowded_page more_button). reflexivity.
Defined.

Example loadmore_disabled_marked_button :
  _find_loadmore [disabled_marked_button] = Some disabled_marked_button
  ∧ el_enabled disabled_marked_button = false.
Proof. split; reflexivity. Qed.

Section ExpandFacts.

Variable b : browser.
Variable episode_url : pystr.




End ExpandFacts.



(* ====================================================================== *)
(** * [imdbx/_scraper.py] and the functions of [imdbx/__init__.py]         *)
(* ====================================================================== *)

Module Scraper.

(** [f"{BASE_URL}/title/{title_id}/"] and
    [f"{BASE_URL}/title/{title_id}/episodes/"]. *)
Definition title_url (title_id : pystr) : pystr :=
  BASE_URL ++ u "/title/" ++ title_id ++ u "/".

Definition episodes_url (title_id : pystr) : pystr :=
  BASE_URL ++ u "/title/" ++ title_id ++ u "/episodes/".

(** Sequencing of calls that may let an exception through. *)
Definition and_then {A B} (r : returned A) (f : A → returned B) : returned B :=
  match r with
  | Returns a => f a
  | Propagates => Propagates
  end.

Definition of_exc {A} (e : exc A) : returned A :=
  match e with
  | Ok a => Returns a
  | Raise _ => Propagates
  end.

Section Scrape.

(** The world the scraper runs in: the HTML parser; what the
    [attempt]-th request for a URL answers; the document
    [_fetch_season_page] ends with for a season ([None] after its
    retries); the order in which the concurrent page fetches finish; the
    path of a URL and what the image requests answer.  The browser is
    taken to start; [pool_size] bounds how many fetches run at once and
    has no part in the result. *)
Variable html_parser : pystr → node.
Variable net : pystr → nat → get_result.
Variable page : Z → option node.
Variable order : list Z → list Z.
Variable url_path : pystr → pystr.
Variable img_net : pystr → nat → option pystr.

(** [http_fetch(url, session)] with its default of 3 retries. *)
Definition fetch (url : pystr) : returned (option node) :=
  (http_fetch html_parser (net url) 3).1.

Definition get_season_numbers (title_id : pystr) : returned (list Z) :=
  and_then (fetch (episodes_url title_id)) (λ soup,
    match soup with
    | Some soup => of_exc (parse_season_numbers soup)
    | None => Returns []
    end).

(** [asyncio.run(fetch_seasons_async(...))]: one pair per season number,
    appended as each fetch finishes. *)
Definition fetch_seasons_async (season_nums : list Z)
    : list (Z * option node) :=
  (λ n, (n, page n)) <$> order season_nums.

(** The loop of the generator [iter_seasons] over the results. *)
Fixpoint iter_results (results : list (Z * option node))
    : exc (list (Z * list Episode)) :=
  match results with
  | [] => Ok []
  | (season_num, None) :: rest => iter_results rest
  | (season_num, Some soup) :: rest =>
      episodes ← parse_episodes soup;
      more ← iter_results rest;
      Ok ((season_num, episodes) :: more)
  end.

Definition iter_seasons (season_nums : list Z)
    : exc (list (Z * list Episode)) :=
  iter_results (fetch_seasons_async season_nums).

(** [target] in [scrape]. *)
Definition select_seasons (all_seasons : list Z)
    (only_seasons : option (list Z)) : list Z :=
  match only_seasons with
  | Some only =>
      if nonempty only
      then filter (λ s, s ∈ only) all_seasons
      else all_seasons
  | None => all_seasons
  end.

(** [scrape]: the aggregate and the disk after it.  The seasons are
    stored under their numbers; [dict(sorted(...))] orders the keys and
    changes no entry. *)
Definition scrape (title_id : pystr) (only_seasons : option (list Z))
    (images_dir : option pystr) (d : disk) : returned (TitleInfo * disk) :=
  and_then (fetch (title_url title_id)) (λ meta_soup,
  and_then (match meta_soup with
            | Some soup => of_exc (parse_series_metadata soup title_id)
            | None => Returns (SeriesMetadata_new title_id title_id)
            end) (λ meta,
  and_then (fetch (episodes_url title_id)) (λ season_soup,
  and_then (of_exc (parse_season_numbers
                      (default (document []) season_soup))) (λ all_seasons,
  let all_seasons := if nonempty all_seasons then all_seasons else [1%Z] in
  let target := select_seasons all_seasons only_seasons in
  and_then (of_exc (iter_seasons target)) (λ yielded,
  let info :=
    mkTitleInfo meta
      (foldl (λ seasons item, <[item.1 := item.2]> seasons) ∅ yielded) in
  match images_dir with
  | Some dir => Returns (download_images url_path img_net info dir d)
  | None => Returns (info, d)
  end))))).

End Scrape.

End Scraper.
Export Scraper.

Module Api.

Section Api.

Variable html_parser : pystr → node.
Variable net : pystr → nat → get_result.
Variable page : Z → option node.
Variable order : list Z → list Z.
Variable url_path : pystr → pystr.
Variable img_net : pystr → nat → option pystr.

(** [Path(images_dir).expanduser()]. *)
Variable expanduser : pystr → pystr.

Definition title (title_id : pystr) (seasons : option (list Z))
    (images_dir : option pystr) (download_images : bool) (d : disk)
    : returned (TitleInfo * disk) :=
  let img_dir :=
    match images_dir with
    | Some dir => Some (expanduser dir)
    | None => if download_images then Some (u "images") else None
    end in
  scrape html_parser net page order url_path img_net title_id seasons
         img_dir d.

Definition season (title_id : pystr) (season_number : Z) (d : disk)
    : returned (list Episode) :=
  and_then (scrape html_parser net page order url_path img_net title_id
                   (Some [season_number]) None d)
           (λ info, Returns (default [] (seasons info.1 !! season_number))).

Definition episode (title_id : pystr) (season_number episode_number : Z)
    (d : disk) : returned (option Episode) :=
  and_then (season title_id season_number d) (λ episodes,
    Returns (head (filter (λ ep, bool_decide (Models.episode ep = episode_number))
                          episodes))).


End Api.

End Api.

Section ScrapeFacts.

Variable html_parser : pystr → node.
Variable net : pystr → nat → get_result.
Variable page : Z → option node.
Variable url_path : pystr → pystr.
Variable img_net : pystr → nat → option pystr.


(** What the generator yields for one result. *)
Definition yield_of (result : Z * option node) : option (Z * list Episode) :=
  soup ← result.2;
  match parse_episodes soup with
  | Ok episodes => Some (result.1, episodes)
  | Raise _ => None
  end.

Lemma iter_results_omap (results : list (Z * option node)) :
  iter_results results = Ok (omap yield_of results).
Proof.
  induction results as [|[n [soup|]] results IH]; cbn [iter_results omap list_omap].
  - reflexivity.
  - unfold yield_of at 1. cbn [snd fst mbind option_bind].
    destruct (parse_episodes_ok soup) as (eps & -> & _). exc_simpl.
    rewrite IH. exc_simpl. reflexivity.
  - exact IH.
Qed.

Lemma elem_of_yields (l : list Z) (n : Z) (eps : list Episode) :
  (n, eps) ∈ omap yield_of ((λ n, (n, page n)) <$> l)
  ↔ n ∈ l ∧ ∃ soup, page n = Some soup ∧ parse_episodes soup = Ok eps.
Proof.
  rewrite list_elem_of_omap. split.
  - intros ([n' r] & Hin & Hy). apply list_elem_of_fmap in Hin as (m & [= -> ->] & Hin).
    unfold yield_of in Hy. cbn [fst snd] in Hy.
    destruct (page m) as [soup|] eqn:Hp; [|discriminate].
    cbn [mbind option_bind] in Hy.
    destruct (parse_episodes soup) as [eps'|] eqn:E; [|discriminate].
    injection Hy as -> ->. split; [exact Hin|]. exists soup. split; assumption.
  - intros (Hin & soup & Hp & He). exists (n, page n). split.
    + apply list_elem_of_fmap. eauto.
    + unfold yield_of. cbn [fst snd]. rewrite Hp. cbn [mbind option_bind].
      rewrite He. reflexivity.
Qed.

(** The dict built by [info.seasons[season_num] = episodes]. *)
Definition store (yielded : list (Z * list Episode)) : gmap Z (list Episode) :=
  foldl (λ seasons item, <[item.1 := item.2]> seasons) ∅ yielded.

Lemma store_list_to_map (yielded : list (Z * list Episode)) :
  store yielded = list_to_map (reverse yielded).
Proof.
  unfold store. induction yielded as [|item yielded IH] using rev_ind.
  - reflexivity.
  - rewrite foldl_app, reverse_app. cbn [foldl reverse rev_append app].
    rewrite IH. destruct item. reflexivity.
Qed.

Lemma store_lookup (yielded : list (Z * list Episode)) (n : Z)
    (eps : list Episode) :
  store yielded !! n = Some eps → (n, eps) ∈ yielded.
Proof.
  rewrite store_list_to_map. intros H.
  apply elem_of_list_to_map_2 in H. rewrite elem_of_reverse in H. exact H.
Qed.

Lemma store_permutation (y1 y2 : list (Z * list Episode)) :
  NoDup y1.*1 → y1 ≡ₚ y2 → store y1 = store y2.
Proof.
  intros Hnd Hp. rewrite !store_list_to_map. apply list_to_map_proper.
  - rewrite fmap_reverse, reverse_Permutation. exact Hnd.
  - rewrite !reverse_Permutation. exact Hp.
Qed.

Lemma yields_keys (l : list Z) :
  (omap yield_of ((λ n, (n, page n)) <$> l)).*1 `sublist_of` l.
Proof.
  induction l as [|n l IH]; [reflexivity|].
  cbn [fmap list_fmap omap list_omap]. unfold yield_of at 1. cbn [fst snd].
  destruct (page n) as [soup|]; cbn [mbind option_bind].
  - destruct (parse_episodes soup); cbn [fmap list_fmap fst].
    + apply sublist_skip, IH.
    + apply sublist_cons, IH.
  - apply sublist_cons, IH.
Qed.

(** Season discovery returns [sorted(found)] when it returns. *)
Lemma season_numbers_nodup (soup : node) (l : list Z) :
  parse_season_numbers soup = Ok l → NoDup l.
Proof.
  unfold parse_season_numbers.
  destruct (season_tabs soup) as [tabs|]; exc_simpl; [|discriminate].
  cbv zeta.
  assert (Hs : ∀ found, NoDup (sorted found)).
  { intros found. unfold sorted. rewrite merge_sort_Permutation.
    apply NoDup_elements. }
  destruct (bool_decide (add_all ∅ tabs = ∅)).
  - destruct (season_options soup) as [options|]; exc_simpl; [|discriminate].
    destruct (bool_decide (add_all (add_all ∅ tabs) options = ∅)).
    + destruct (season_links soup) as [links|]; exc_simpl; [|discriminate].
      intros [= <-]. apply Hs.
    + exc_simpl. intros [= <-]. apply Hs.
  - exc_simpl.
    destruct (bool_decide (add_all ∅ tabs = ∅)); exc_simpl.
    + destruct (season_links soup) as [links|]; exc_simpl; [|discriminate].
      intros [= <-]. apply Hs.
    + intros [= <-]. apply Hs.
Qed.

Lemma select_seasons_spec (all_seasons : list Z) (only : option (list Z))
    (n : Z) :
  n ∈ select_seasons all_seasons only →
  n ∈ all_seasons ∧ ∀ l, only = Some l → l ≠ [] → n ∈ l.
Proof.
  unfold select_seasons. destruct only as [[|x l]|]; cbn [nonempty].
  - intros H. split; [exact H|]. intros l [= <-] Hl. done.
  - intros H. apply list_elem_of_filter in H as [Hin H].
    split; [exact H|]. intros l' [= <-] _. exact Hin.
  - intros H. split; [exact H|]. discriminate.
Qed.

Lemma select_seasons_nodup (all_seasons : list Z) (only : option (list Z)) :
  NoDup all_seasons → NoDup (select_seasons all_seasons only).
Proof.
  unfold select_seasons. intros H. destruct only as [[|x l]|]; cbn [nonempty];
    try exact H. apply NoDup_filter, H.
Qed.

(** The seasons of the aggregate [download_images] returns. *)
Lemma download_images_seasons (info : TitleInfo) (dir : pystr) (d : disk)
    (n : Z) :
  seasons (download_images url_path img_net info dir d).1 !! n
  = fmap (M:=list)
      (λ ep, (assign_local url_path
                (path_join dir (title_id (meta info))) ep).1)
    <$> seasons info !! n.
Proof.
  unfold download_images. cbv zeta. destruct (nonempty _); cbn [fst seasons];
    apply lookup_fmap.
Qed.

Lemma download_images_meta (info : TitleInfo) (dir : pystr) (d : disk) :
  meta (download_images url_path img_net info dir d).1 = meta info.
Proof.
  unfold download_images. cbv zeta. destruct (nonempty _); reflexivity.
Qed.

End ScrapeFacts.

Section ScrapeTheorems.

Variable html_parser : pystr → node.
Variable net : pystr → nat → get_result.
Variable page : Z → option node.
Variable url_path : pystr → pystr.
Variable img_net : pystr → nat → option pystr.

(** The seasons found on the episodes page, or season 1 when none is. *)
Definition discovered (tid : pystr) (n : Z) : Prop :=
  n = 1%Z
  ∨ ∃ soup l, fetch html_parser net (episodes_url tid) = Returns (Some soup)
              ∧ parse_season_numbers soup = Ok l ∧ n ∈ l.

(** What is stored under a season of the aggregate: the episodes parsed
    from its rendered page, with their local paths when images are
    downloaded. *)
Definition stored_for (tid : pystr) (images_dir : option pystr) (n : Z)
    (eps : list Episode) : Prop :=
  ∃ soup parsed,
    page n = Some soup ∧ parse_episodes soup = Ok parsed
    ∧ match images_dir with
      | None => eps = parsed
      | Some dir => Forall2 (local_path_recorded url_path dir tid) parsed eps
      end.

(** [scrape] unfolded: its steps, each having returned. *)
Lemma scrape_returns (order : list Z → list Z) (tid : pystr)
    (only : option (list Z)) (images_dir : option pystr) (d : disk)
    (info : TitleInfo) (d' : disk) :
  scrape html_parser net page order url_path img_net tid only images_dir d
  = Returns (info, d') →
  ∃ m season_soup found,
    title_id m = tid
    ∧ fetch html_parser net (episodes_url tid) = Returns season_soup
    ∧ parse_season_numbers (default (document []) season_soup) = Ok found
    ∧ let target :=
        select_seasons (if nonempty found then found else [1%Z]) only in
      let plain :=
        mkTitleInfo m
          (store (omap (yield_of)
                       ((λ n, (n, page n)) <$> order target))) in
      (info, d') = match images_dir with
                   | Some dir => download_images url_path img_net plain dir d
                   | None => (plain, d)
                   end.
Proof.
  unfold scrape.
  destruct (fetch html_parser net (title_url tid)) as [meta_soup|];
    cbn [and_then]; [|discriminate].
  assert (∃ m, (match meta_soup with
                | Some soup => of_exc (parse_series_metadata soup tid)
                | None => Returns (SeriesMetadata_new tid tid)
                end) = Returns m ∧ title_id m = tid) as (m & -> & Hm).
  { destruct meta_soup as [soup|]; [|eauto].
    destruct (parse_series_metadata_identity soup tid) as (m & -> & Hid & _).
    eauto. }
  cbn [and_then].
  destruct (fetch html_parser net (episodes_url tid)) as [season_soup|];
    cbn [and_then]; [|discriminate].
  destruct (parse_season_numbers _) as [found|] eqn:Ef; cbn [of_exc and_then];
    [|discriminate].
  cbv zeta. unfold iter_seasons, fetch_seasons_async.
  rewrite iter_results_omap. cbn [of_exc and_then].
  intros H. exists m, season_soup, found.
  split; [exact Hm|]. split; [reflexivity|]. split; [exact Ef|].
  unfold store. destruct images_dir; congruence.
Qed.

Lemma target_discovered (tid : pystr) (season_soup : option node)
    (found : list Z) (only : option (list Z)) (n : Z) :
  fetch html_parser net (episodes_url tid) = Returns season_soup →
  parse_season_numbers (default (document []) season_soup) = Ok found →
  n ∈ select_seasons (if nonempty found then found else [1%Z]) only →
  discovered tid n ∧ ∀ l, only = Some l → l ≠ [] → n ∈ l.
Proof.
  intros Hf Hp Hn. apply select_seasons_spec in Hn as [Hn Honly].
  split; [|exact Honly]. destruct found as [|x found]; cbn [nonempty] in Hn.
  - left. apply list_elem_of_singleton in Hn. exact Hn.
  - right. destruct season_soup as [soup|]; [eauto|].
    cbn [default] in Hp. discriminate Hp.
Qed.

Section Ordered.

Variable order : list Z → list Z.
Hypothesis order_perm : ∀ l, order l ≡ₚ l.

Lemma scrape_seasons (tid : pystr) (only : option (list Z))
    (images_dir : option pystr) (d : disk) (info : TitleInfo) (d' : disk) :
  scrape html_parser net page order url_path img_net tid only images_dir d
  = Returns (info, d') →
  title_id (meta info) = tid
  ∧ ∀ n eps, seasons info !! n = Some eps →
      discovered tid n
      ∧ (∀ l, only = Some l → l ≠ [] → n ∈ l)
      ∧ stored_for tid images_dir n eps.
Proof.
  intros H. apply scrape_returns in H
    as (m & season_soup & found & Hm & Hf & Hp & H). cbv zeta in H.
  set (target := select_seasons _ only) in H.
  assert (Hplain : ∀ n parsed,
            store (omap yield_of ((λ n, (n, page n)) <$> order target)) !! n
            = Some parsed →
            discovered tid n ∧ (∀ l, only = Some l → l ≠ [] → n ∈ l)
            ∧ ∃ soup, page n = Some soup ∧ parse_episodes soup = Ok parsed).
  { intros n parsed Hs. apply store_lookup, elem_of_yields in Hs as [Hin Hs].
    rewrite order_perm in Hin.
    destruct (target_discovered tid season_soup found only n Hf Hp Hin).
    auto. }
  destruct images_dir as [dir|].
  - assert (Hi : info = (download_images url_path img_net
                   (mkTitleInfo m (store (omap yield_of
                      ((λ n, (n, page n)) <$> order target)))) dir d).1)
      by (rewrite <- H; reflexivity).
    split; [rewrite Hi, download_images_meta; exact Hm|].
    intros n eps Hs. rewrite Hi, download_images_seasons in Hs.
    cbn [seasons meta] in Hs.
    destruct (store _ !! n) as [parsed|] eqn:E; [|discriminate].
    injection Hs as <-.
    destruct (Hplain n parsed E) as (Hd & Ho & soup & Hpage & Hparse).
    split; [exact Hd|]. split; [exact Ho|]. exists soup, parsed.
    split; [exact Hpage|]. split; [exact Hparse|].
    apply Forall2_fmap_r, Forall_Forall2_diag, Forall_forall.
    intros ep _. rewrite <- Hm. apply assign_local_recorded.
  - injection H as -> _. split; [exact Hm|]. intros n eps Hs.
    cbn [seasons] in Hs.
    destruct (Hplain n eps Hs) as (Hd & Ho & soup & Hpage & Hparse).
    split; [exact Hd|]. split; [exact Ho|]. exists soup, eps. auto.
Qed.

End Ordered.

End ScrapeTheorems.


(** X19.  The aggregate does not depend on the order in which the season pages
    finish rendering. *)
Theorem scrape_order_independent
    (html_parser : pystr → node) (net : pystr → nat → get_result)
    (page : Z → option node) (order1 order2 : list Z → list Z)
    (url_path : pystr → pystr) (img_net : pystr → nat → option pystr)
    (tid : pystr) (only : option (list Z)) (images_dir : option pystr)
    (d : disk) :
  (∀ l, order1 l ≡ₚ l) → (∀ l, order2 l ≡ₚ l) →
  scrape html_parser net page order1 url_path img_net tid only images_dir d
  = scrape html_parser net page order2 url_path img_net tid only images_dir d.
Proof.
  intros H1 H2. unfold scrape.
  destruct (fetch html_parser net (title_url tid)) as [meta_soup|];
    cbn [and_then]; [|reflexivity].
  destruct (match meta_soup with
            | Some soup => of_exc (parse_series_metadata soup tid)
            | None => Returns (SeriesMetadata_new tid tid)
            end) as [m|]; cbn [and_then]; [|reflexivity].
  destruct (fetch html_parser net (episodes_url tid)) as [season_soup|];
    cbn [and_then]; [|reflexivity].
  destruct (parse_season_numbers _) as [found|] eqn:Ef; cbn [of_exc and_then];
    [|reflexivity].
  cbv zeta. unfold iter_seasons, fetch_seasons_async.
  rewrite !iter_results_omap. cbn [of_exc and_then].
  set (target := select_seasons _ only).
  assert (Hnd : NoDup target).
  { apply select_seasons_nodup. destruct found as [|x found]; cbn [nonempty].
    - apply NoDup_singleton.
    - apply (season_numbers_nodup _ _ Ef). }
  fold (store (omap (yield_of) ((λ n, (n, page n)) <$> order1 target))).
  fold (store (omap (yield_of) ((λ n, (n, page n)) <$> order2 target))).
  rewrite (store_permutation
             (omap yield_of ((λ n, (n, page n)) <$> order1 target))
             (omap yield_of ((λ n, (n, page n)) <$> order2 target))).
  - reflexivity.
  - apply (sublist_NoDup _ (order1 target));
      [rewrite H1; exact Hnd|apply yields_keys].
  - rewrite H1, H2. reflexivity.
Qed.

Section ApiTheorems.

Variable html_parser : pystr → node.
Variable net : pystr → nat → get_result.
Variable page : Z → option node.
Variable order : list Z → list Z.
Variable url_path : pystr → pystr.
Variable img_net : pystr → nat → option pystr.
Variable expanduser : pystr → pystr.


Lemma parse_episodes_no_local (soup : node) (eps : list Episode) :
  parse_episodes soup = Ok eps →
  Forall (λ ep, cover_image_local ep = None) eps.
Proof.
  intros H. destruct (parse_episodes_ok soup) as (eps' & H' & Hall).
  rewrite H in H'. injection H' as <-. clear H.
  induction Hall as [|card ep cards eps' Hc _ IH]; [constructor|].
  constructor; [|exact IH].
  destruct (parse_card_fields card) as (ep' & Hep & _ & _ & _ & Hl & _).
  rewrite Hc in Hep. injection Hep as <-. exact Hl.
Qed.

(** X21.  Without [images_dir] and [download_images], [title] leaves the disk
    as it is and returns episodes without local image paths. *)
Theorem title_without_images (tid : pystr) (only : option (list Z))
    (d : disk) (info : TitleInfo) (d' : disk) :
  Api.title html_parser net page order url_path img_net expanduser
            tid only None false d = Returns (info, d') →
  d' = d
  ∧ ∀ n eps, seasons info !! n = Some eps →
      Forall (λ ep, cover_image_local ep = None) eps.
Proof.
  unfold Api.title. cbv zeta. intros H.
  apply scrape_returns in H as (m & season_soup & found & _ & _ & _ & H).
  cbv zeta in H. injection H as -> ->. split; [reflexivity|].
  intros n eps Hs. cbn [seasons] in Hs.
  apply store_lookup, elem_of_yields in Hs as (_ & soup & _ & Hparse).
  apply (parse_episodes_no_local soup eps Hparse).
Qed.

Hypothesis order_perm : ∀ l, order l ≡ₚ l.

Lemma season_spec (tid : pystr) (n : Z) (d : disk) (eps : list Episode) :
  Api.season html_parser net page order url_path img_net tid n d
  = Returns eps →
  eps = []
  ∨ (discovered html_parser net tid n
     ∧ ∃ soup, page n = Some soup ∧ parse_episodes soup = Ok eps).
Proof.
  unfold Api.season.
  destruct (scrape _ _ _ _ _ _ tid (Some [n]) None d) as [[info d']|] eqn:E;
    cbn [and_then]; [|discriminate].
  intros [= <-]. cbn [fst].
  destruct (seasons info !! n) as [eps|] eqn:Hs; [|left; reflexivity].
  right. apply (scrape_seasons _ _ _ _ _ _ order_perm) in E as [_ E].
  destruct (E n eps Hs) as (Hd & _ & soup & parsed & Hp & Hparse & ->).
  cbn [default]. eauto.
Qed.

(** X22.  [season] returns the episodes parsed from the rendered page of that
    season, which was discovered on the episodes page (or is season 1);
    otherwise it returns the empty list. *)
Theorem season_returns_parsed_page (tid : pystr) (n : Z) (d : disk)
    (eps : list Episode) :
  Api.season html_parser net page order url_path img_net tid n d
  = Returns eps →
  eps = []
  ∨ (discovered html_parser net tid n
     ∧ ∃ soup, page n = Some soup ∧ parse_episodes soup = Ok eps).
Proof. apply season_spec. Qed.

(** X23.  The episode [episode] returns has the requested number and is the
    first such episode parsed from the rendered page of the requested
    season. *)
Theorem episode_from_rendered_season (tid : pystr) (s e : Z) (d : disk)
    (ep : Episode) :
  Api.episode html_parser net page order url_path img_net tid s e d
  = Returns (Some ep) →
  Models.episode ep = e
  ∧ discovered html_parser net tid s
  ∧ ∃ soup pre post,
      page s = Some soup
      ∧ parse_episodes soup = Ok (pre ++ ep :: post)
      ∧ Forall (λ x, Models.episode x ≠ e) pre.
Proof.
  unfold Api.episode.
  destruct (Api.season _ _ _ _ _ _ tid s d) as [eps|] eqn:E;
    cbn [and_then]; [|discriminate].
  intros [= H].
  pose proof (head_filter_split (λ x, bool_decide (Models.episode x = e)) eps)
    as Hsplit.
  rewrite H in Hsplit. destruct Hsplit as (pre & post & -> & He & Hpre).
  apply bool_decide_unpack in He. split; [exact He|].
  apply season_spec in E as [E|(Hd & soup & Hp & Hparse)];
    [destruct pre; discriminate|].
  split; [exact Hd|]. exists soup, pre, post. split; [exact Hp|].
  split; [exact Hparse|]. eapply Forall_impl; [exact Hpre|].
  intros x Hx Hxe. apply Hx, bool_decide_pack, Hxe.
Qed.

End ApiTheorems.

(** A small site: the episodes page lists the seasons 3, 1, 2, 1; the
    page of season 2 renders, that of season 3 does not. *)
Definition demo_parser (body : pystr) : node :=
  if str_eqb body (u "episodes") then tabs_3121 else empty_page.

Definition demo_net (url : pystr) (_ : nat) : get_result :=
  Response 200 (if endswith url (u "/episodes/") then u "episodes"
                else u "title").

Definition demo_page (n : Z) : option node :=
  if (n =? 2)%Z then Some page_with_repeat
  else if (n =? 3)%Z then None else Some empty_page.

Definition demo_scrape (order : list Z → list Z) (only : option (list Z))
    : returned (TitleInfo * disk) :=
  scrape demo_parser demo_net demo_page order plain_url_path refusing
         (u "tt7441658") only None ∅.

Definition demo_info : TitleInfo :=
  match demo_scrape (λ l, l) (Some [2; 3; 7]%Z) with
  | Returns r => r.1
  | Propagates => mkTitleInfo (SeriesMetadata_new [] []) ∅
  end.

Example demo_info_seasons :
  (λ kv : Z * list Episode, (kv.1, episode_code <$> kv.2))
    <$> map_to_list (seasons demo_info)
  = [(2%Z, [u "S1.E1"; u "S1.E2"; u "S1.E1"])].
Proof. vm_compute. reflexivity. Qed.


Lemma scrape_order_witness :
  demo_scrape (λ l, l) None = demo_scrape reverse None.
Proof.
  apply (scrape_order_independent demo_parser demo_net demo_page (λ l, l)
           reverse plain_url_path refusing (u "tt7441658") None None ∅).
  - intros l. reflexivity.
  - intros l. apply reverse_Permutation.
Defined.

Definition demo_title : returned (TitleInfo * disk) :=
  Api.title demo_parser demo_net demo_page (λ l, l) plain_url_path refusing
            (λ dir, dir) (u "tt7441658") (Some [2; 3; 7]%Z) None false ∅.

Lemma title_without_images_witness :
  (∅ : disk) = ∅
  ∧ ∀ n eps, seasons demo_info !! n = Some eps →
      Forall (λ ep, cover_image_local ep = None) eps.
Proof.
  apply (title_without_images demo_parser demo_net demo_page (λ l, l)
           plain_url_path refusing (λ dir, dir) (u "tt7441658")
           (Some [2; 3; 7]%Z) ∅ demo_info ∅).
  vm_compute. reflexivity.
Defined.

Definition demo_season (n : Z) : list Episode :=
  match Api.season demo_parser demo_net demo_page (λ l, l) plain_url_path
                   refusing (u "tt7441658") n ∅ with
  | Returns eps => eps
  | Propagates => []
  end.

Lemma season_returns_parsed_page_witness :
  demo_season 2 = []
  ∨ (discovered demo_parser demo_net (u "tt7441658") 2%Z
     ∧ ∃ soup, demo_page 2 = Some soup
               ∧ parse_episodes soup = Ok (demo_season 2)).
Proof.
  apply (season_returns_parsed_page demo_parser demo_net demo_page (λ l, l)
           plain_url_path refusing (λ l, reflexivity l) (u "tt7441658") 2%Z ∅).
  vm_compute. reflexivity.
Defined.

Definition demo_episode : Episode :=
  match Api.episode demo_parser demo_net demo_page (λ l, l) plain_url_path
                    refusing (u "tt7441658") 2 2 ∅ with
  | Returns (Some ep) => ep
  | _ => pilot
  end.

Lemma episode_from_rendered_season_witness :
  episode demo_episode = 2%Z
  ∧ discovered demo_parser demo_net (u "tt7441658") 2%Z
  ∧ ∃ soup pre post,
      demo_page 2 = Some soup
      ∧ parse_episodes soup = Ok (pre ++ demo_episode :: post)
      ∧ Forall (λ x, episode x ≠ 2%Z) pre.
Proof.
  apply (episode_from_rendered_season demo_parser demo_net demo_page (λ l, l)
           plain_url_path refusing (λ l, reflexivity l) (u "tt7441658")
           2%Z 2%Z ∅).
  vm_compute. reflexivity.
Defined.

(* ====================================================================== *)
(** * File names of the downloads                                          *)
(* ====================================================================== *)

Section FileNames.

Variable url_path : pystr → pystr.
Variable net : pystr → nat → option pystr.







End FileNames.

Example download_path_of_script_url :
  (cover_image_local <$>
     default [] (seasons (download_images plain_url_path refusing
       (mkTitleInfo (SeriesMetadata_new (u "tt1") (u "tt1"))
          {[ 1%Z := [mkEpisode (u "S1.E1") (u "Pilot") 1 (-1) [] [] (u "N/A")
                       (Some (u "https://cdn/../../x/cover.php")) None []] ]})
       (u "images") ∅).1 !! 1%Z))
  = [Some (u "images/tt1/S1E-1.jpg")].
Proof. vm_compute. reflexivity. Qed.

(* ====================================================================== *)
(** * Season numbers are sorted and never negative                         *)
(* ====================================================================== *)

Section SeasonNumbersRange.

Lemma mapE_spec {A B} (f : A → exc B) (l : list A) (ys : list B) :
  mapE f l = Ok ys → Forall2 (λ x y, f x = Ok y) l ys.
Proof.
  revert ys. induction l as [|x l IH]; intros ys; simpl.
  - intros [= <-]. constructor.
  - destruct (f x) as [y|] eqn:E; exc_simpl; [|discriminate].
    destruct (mapE f l) as [ys'|]; exc_simpl; [|discriminate].
    intros [= <-]. constructor; [exact E|]. apply IH. reflexivity.
Qed.

Lemma isdigit_chr_not_space (c : pychar) :
  isdigit_chr c = true → isspace c = false ∧ c ≠ 45 ∧ c ≠ 43.
Proof.
  unfold isdigit_chr. rewrite !orb_true_iff, !N.eqb_eq.
  intros [[[H|H]|H]|H].
  - split; [apply isdecimal_not_space, H|].
    unfold isdecimal, in_range in H. apply andb_true_iff in H as [H _].
    apply N.leb_le in H. lia.
  - subst c. split; [reflexivity|lia].
  - subst c. split; [reflexivity|lia].
  - subst c. split; [reflexivity|lia].
Qed.

(** [int] of a string that passes [isdigit] is not negative. *)
Lemma isdigit_int_nonneg (t : pystr) (z : Z) :
  isdigit t = true → int_of_str t = Ok z → (0 ≤ z)%Z.
Proof.
  unfold isdigit. intros H. apply andb_true_iff in H as [Hne Hall].
  rewrite forallb_forall in Hall.
  assert (Hsp : Forall (λ c, isspace c = false) t).
  { apply Forall_forall. intros c Hc.
    apply isdigit_chr_not_space, Hall, list_elem_of_In, Hc. }
  unfold int_of_str. rewrite (strip_nospace t Hsp).
  destruct t as [|c t]; [discriminate|].
  destruct (isdigit_chr_not_space c) as (_ & H45 & H43).
  { apply Hall. left. reflexivity. }
  apply N.eqb_neq in H45, H43. rewrite H45, H43.
  destruct (digits_val 0 false (c :: t)) as [n|] eqn:E; [|discriminate].
  intros [= <-]. apply (digits_val_nonneg _ _ _ _ (Z.le_refl 0) E).
Qed.

Lemma season_group_decimal (href : pystr) (m : match_obj) :
  re_search RE_SEASON_GROUP href = Some m →
  Forall (λ c, isdecimal c = true) (group 1 m).
Proof.
  unfold re_search. intros H.
  apply search_from_sound in H as (pre & rest & prev' & _ & _ & H).
  cbn in H.
  repeat match type of H with
  | match ?r with [] => None | _ :: _ => _ end = Some _ =>
      destruct r; [discriminate|]
  | (if ?b then _ else None) = Some _ => destruct b; [|discriminate]
  end.
  apply rep_sound in H as (taken & rest' & prev'' & -> & Hall & _ & H).
  cbn in H. injection H as H. unfold group. rewrite <- H.
  cbn [m_end m_caps cap_lookup default Nat.eqb].
  match goal with
  | |- context [take ?n (taken ++ _)] =>
      replace n with (length taken) by lia
  end.
  rewrite take_app_length. exact Hall.
Qed.

Lemma mapE_Forall {A B} (f : A → exc B) (P : A → Prop) (Q : B → Prop)
    (l : list A) (ys : list B) :
  (∀ x y, P x → f x = Ok y → Q y) →
  Forall P l → mapE f l = Ok ys → Forall Q ys.
Proof.
  intros HPQ HP H. apply mapE_spec in H.
  induction H as [|x y l ys Hxy _ IH]; [constructor|].
  inversion HP as [|? ? Hx Hl]; subst.
  constructor; [apply (HPQ x y Hx Hxy)|apply IH, Hl].
Qed.

Lemma filtered_ints_nonneg (texts : list pystr) (zs : list Z) :
  mapE int_of_str (filter (λ t, isdigit t) texts) = Ok zs →
  Forall (λ z, (0 ≤ z)%Z) zs.
Proof.
  apply (mapE_Forall int_of_str (λ t, isdigit t = true)).
  - intros t z. apply isdigit_int_nonneg.
  - apply Forall_forall. intros t Ht. apply list_elem_of_filter in Ht as [Ht _].
    apply Is_true_true, Ht.
Qed.

Lemma season_links_nonneg (soup : node) (zs : list Z) :
  season_links soup = Ok zs → Forall (λ z, (0 ≤ z)%Z) zs.
Proof.
  unfold season_links.
  destruct (mapE season_link _) as [os|] eqn:E; exc_simpl; [|discriminate].
  intros [= <-].
  assert (Hos : Forall (λ o : option Z, ∀ z, o = Some z → (0 ≤ z)%Z) os).
  { revert E. apply (mapE_Forall season_link (λ _, True)).
    - intros a o _. unfold season_link.
      destruct (getitem a "href") as [href|]; exc_simpl; [|discriminate].
      destruct (re_search RE_SEASON_GROUP href) as [m|] eqn:Em.
      + destruct (int_of_str (group 1 m)) as [n|] eqn:En; exc_simpl;
          [|discriminate].
        intros [= <-] z [= <-].
        apply (int_of_digits_nonneg _ _ (season_group_decimal _ _ Em) En).
      + intros [= <-] z. discriminate.
    - apply Forall_forall. intros; exact I. }
  apply Forall_forall. intros z Hz.
  apply list_elem_of_omap in Hz as (o & Ho & ->).
  rewrite Forall_forall in Hos. apply (Hos _ Ho z eq_refl).
Qed.

(** What season discovery returns: [sorted] of a set of numbers that are
    not negative. *)
Lemma season_numbers_found (soup : node) (l : list Z) :
  parse_season_numbers soup = Ok l →
  ∃ found : gset Z, l = sorted found ∧ ∀ n, n ∈ found → (0 ≤ n)%Z.
Proof.
  unfold parse_season_numbers, season_tabs, season_options.
  destruct (mapE int_of_str (filter _ (get_text_strip "" <$> _))) as [tabs|]
    eqn:Et; exc_simpl; [|discriminate].
  apply filtered_ints_nonneg in Et. rewrite Forall_forall in Et.
  cbv zeta.
  assert (Hadd : ∀ (found : gset Z) zs,
            (∀ n, n ∈ found → (0 ≤ n)%Z) → Forall (λ z, (0 ≤ z)%Z) zs →
            ∀ n, n ∈ add_all found zs → (0 ≤ n)%Z).
  { intros found zs Hf Hzs n Hn. apply elem_of_add_all in Hn as [Hn|Hn];
      [apply Hf, Hn|]. rewrite Forall_forall in Hzs. apply Hzs, Hn. }
  assert (H0 : ∀ n, n ∈ add_all ∅ tabs → (0 ≤ n)%Z).
  { apply Hadd; [set_solver|]. apply Forall_forall, Et. }
  destruct (bool_decide (add_all ∅ tabs = ∅)).
  - destruct (mapE int_of_str (filter _ _)) as [options|] eqn:Eo; exc_simpl;
      [|discriminate].
    apply filtered_ints_nonneg in Eo.
    pose proof (Hadd _ _ H0 Eo) as H1.
    destruct (bool_decide (add_all (add_all ∅ tabs) options = ∅)).
    + destruct (season_links soup) as [links|] eqn:El; exc_simpl;
        [|discriminate].
      apply season_links_nonneg in El.
      intros [= <-]. eexists. split; [reflexivity|]. apply Hadd; assumption.
    + exc_simpl. intros [= <-]. eexists. split; [reflexivity|exact H1].
  - exc_simpl. destruct (bool_decide (add_all ∅ tabs = ∅)); exc_simpl.
    + destruct (season_links soup) as [links|] eqn:El; exc_simpl;
        [|discriminate].
      apply season_links_nonneg in El.
      intros [= <-]. eexists. split; [reflexivity|]. apply Hadd; assumption.
    + intros [= <-]. eexists. split; [reflexivity|exact H0].
Qed.

Variable html_parser : pystr → node.
Variable net : pystr → nat → get_result.

(** X25.  [get_season_numbers] returns a strictly increasing list of numbers
    that are not negative; the empty list when the episodes page could
    not be fetched. *)
Theorem get_season_numbers_sorted (tid : pystr) (l : list Z) :
  get_season_numbers html_parser net tid = Returns l →
  StronglySorted Z.lt l
  ∧ Forall (λ n, (0 ≤ n)%Z) l
  ∧ (fetch html_parser net (episodes_url tid) = Returns None → l = []).
Proof.
  unfold get_season_numbers.
  destruct (fetch html_parser net (episodes_url tid)) as [[soup|]|];
    cbn [and_then]; [| |discriminate].
  - destruct (parse_season_numbers soup) as [l'|] eqn:E; cbn [of_exc];
      [|discriminate].
    intros [= <-]. apply season_numbers_found in E as (found & -> & Hf).
    destruct (sorted_spec found) as [Hs Hm].
    split; [exact Hs|]. split; [|discriminate].
    apply Forall_forall. intros n Hn. apply Hf, Hm, Hn.
  - intros [= <-]. split; [constructor|]. split; [constructor|reflexivity].
Qed.

End SeasonNumbersRange.

Lemma get_season_numbers_witness :
  StronglySorted Z.lt [1; 2; 3]%Z
  ∧ Forall (λ n, (0 ≤ n)%Z) [1; 2; 3]%Z
  ∧ (fetch demo_parser demo_net (episodes_url (u "tt7441658")) = Returns None
     → [1; 2; 3]%Z = []).
Proof.
  apply (get_season_numbers_sorted demo_parser demo_net (u "tt7441658")
           [1; 2; 3]%Z).
  vm_compute. reflexivity.
Defined.

(* ====================================================================== *)
(** * [load] reads the keys it knows and no other                          *)
(* ====================================================================== *)

Section LoadKeys.

(** The keys [load] reads from the document. *)
Definition known_keys : list string :=
  ["title_id"; "series_name"; "type"; "years"; "content_rating";
   "episode_duration"; "imdb_rating"; "rating_count"; "popularity"; "tags";
   "seasons"]%string.

Lemma assoc_skip {V} (k k' : pystr) (v : V) (d1 d2 : list (pystr * V)) :
  k ≠ k' → assoc k (d1 ++ (k', v) :: d2) = assoc k (d1 ++ d2).
Proof.
  intros Hne. induction d1 as [|[k1 v1] d1 IH]; simpl.
  - destruct (str_eqb k k') eqn:E; [|reflexivity].
    apply str_eqb_eq in E. done.
  - rewrite IH. reflexivity.
Qed.

Lemma load_json_skip (d1 d2 : list (pystr * json)) (k : pystr) (v : json) :
  k ∉ u <$> known_keys →
  load_json (JObj (d1 ++ (k, v) :: d2)) = load_json (JObj (d1 ++ d2)).
Proof.
  intros Hk.
  assert (Hskip : ∀ key, key ∈ known_keys →
            assoc (u key) (d1 ++ (k, v) :: d2) = assoc (u key) (d1 ++ d2)).
  { intros key Hkey. apply assoc_skip. intros <-. apply Hk.
    apply list_elem_of_fmap. eauto. }
  unfold load_json, load_meta, read_str, read_opt_str, read_int,
    read_str_list.
  rewrite !Hskip by (unfold known_keys; repeat constructor).
  reflexivity.
Qed.

(** X26.  A key [load] does not know changes nothing: the file with the key and
    the file without it load to the same result. *)
Theorem load_ignores_unknown_keys (path : pystr) (fs : files)
    (d1 d2 : list (pystr * json)) (k : pystr) (v : json) :
  k ∉ u <$> known_keys →
  load path (<[path := JObj (d1 ++ (k, v) :: d2)]> fs)
  = load path (<[path := JObj (d1 ++ d2)]> fs).
Proof.
  intros Hk. unfold load. rewrite !lookup_insert_eq. cbn [mbind option_bind].
  apply load_json_skip, Hk.
Qed.

End LoadKeys.

Lemma load_ignores_unknown_keys_witness :
  load (u "show.json")
       (<[u "show.json" := JObj ([(u "title_id", JStr (u "tt1"))]
                                  ++ (u "poster", JNull)
                                  :: [(u "series_name", JStr (u "Show"))])]> ∅)
  = load (u "show.json")
         (<[u "show.json" := JObj ([(u "title_id", JStr (u "tt1"))]
                                    ++ [(u "series_name", JStr (u "Show"))])]> ∅).
Proof.
  apply (load_ignores_unknown_keys (u "show.json") ∅
           [(u "title_id", JStr (u "tt1"))]
           [(u "series_name", JStr (u "Show"))] (u "poster") JNull).
  apply (bool_decide_unpack _). vm_compute. exact I.
Defined.

(* ====================================================================== *)
(** * Fetching one season page ([imdbx/_browser.py])                       *)
(* ====================================================================== *)

Module Pool.

(** What can be observed of [_fetch_season_page] besides its result: the
    browser contexts (each with its page) opened and closed, and the
    pauses in milliseconds. *)
Inductive tab_event :=
| TOpen (attempt : nat)
| TClose (attempt : nat)
| TSleep (ms : N).

Section FetchSeason.

(** [BeautifulSoup(html, "html.parser")]. *)
Variable html_parser : pystr → node.

(** The body of the [try] of the [attempt]-th pass -- [goto],
    [wait_for_selector], [_expand_episodes], [content] -- gives the HTML of
    the page, or raises: a [PWTimeout] or any other exception, both only
    logged.  Opening and closing a context are taken not to raise. *)
Variable body : nat → option pystr.

(** The [for] loop from [attempt] on; the [finally] clause closes the
    page and its context on both ways out of the [try]. *)
Fixpoint season_loop (retries remaining attempt : nat)
    : option node * list tab_event :=
  match remaining with
  | O => (None, [])
  | S remaining' =>
      match body attempt with
      | Some html =>
          (Some (html_parser html), [TOpen attempt; TClose attempt])
      | None =>
          let pause := if (attempt <? retries)%nat
                       then [TSleep (2000 * N.of_nat attempt)] else [] in
          let '(r, evs) := season_loop retries remaining' (S attempt) in
          (r, TOpen attempt :: TClose attempt :: pause ++ evs)
      end
  end.

Definition _fetch_season_page (season_num : Z) (retries : nat)
    : (Z * option node) * list tab_event :=
  let '(soup, evs) := season_loop retries retries 1 in
  ((season_num, soup), evs).

End FetchSeason.

End Pool.
Export Pool.


Section FetchSeasonFacts.

Variable html_parser : pystr → node.
Variable body : nat → option pystr.






End FetchSeasonFacts.

Example fetch_season_page_third_attempt :
  _fetch_season_page empty_document
    (λ i, if (i <? 3)%nat then None else Some (u "<html></html>")) 2 3
  = ((2%Z, Some (empty_document [])),
     [TOpen 1; TClose 1; TSleep 2000; TOpen 2; TClose 2; TSleep 4000;
      TOpen 3; TClose 3]).
Proof. reflexivity. Qed.

Example fetch_season_page_gives_up :
  _fetch_season_page empty_document (λ _, None) 2 3
  = ((2%Z, None),
     [TOpen 1; TClose 1; TSleep 2000; TOpen 2; TClose 2; TSleep 4000;
      TOpen 3; TClose 3]).
Proof. reflexivity. Qed.
